(** * subv: a staged RV32I assembler pipeline, embedded and verified

    The development follows the Python sources module by module:
    [bits.py] (bit-field arithmetic), [subv.py] (intermediate-language
    parser and printer), [format.py], [survey.py] and [pack.py] (the three
    line-stream stages) and [elf.py] (the writer of the ELF image).

    Conventions of the embedding.
    - Python [int] is [Z]; shifts, [|] and [&] are [Z.shiftl], [Z.shiftr],
      [Z.lor] and [Z.land], which agree with Python on negative numbers.
    - Python [str] is [string]; a character is a code point below 256.
    - A raised exception is the [Err] branch of [result]; the constructor
      records the raise site and the values formatted into the message.
    - A generator is a pair: the lines yielded so far and the exception that
      ended the iteration, if any. *)

From Stdlib Require Import ZArith Lia Bool List Ascii String.
From Stdlib Require Import DecimalString HexadecimalString HexadecimalN DecimalPos.
From stdpp Require Import base option list strings gmap.

Local Open Scope string_scope.
Local Open Scope Z_scope.

(** ** Exceptions *)

Inductive exn : Type :=
  (* bits.py *)
  | NegativeNotAllowed (num : Z)
  | TooLargeU (num len bits : Z)
  | TooLargeI (num len bits lo hi : Z)
  | ReverseRange
  | SliceOutOfRange (hi lo size : Z)
  | SliceOutOfRangeTag (hi lo : Z) (size : string)
  (* subv.py *)
  | InvalidSegmentLine
  | ExpectedLabelled (expect : string)
  (* format.py *)
  | RefSliceTooWide (hi lo size : Z)
  | ExpectedBitSlice (size : Z)
  | SliceWithoutBounds
  | SliceOutsideBounds
  | NoOpLabel
  | UnknownInstruction (label : string)
  | OpcodeMismatch (label : string) (expected : Z)
  (* survey.py *)
  | UndefinedLabel (label : string)
  | NotByteAlignedLine
  (* pack.py *)
  | NotByteAligned (size : Z)
  (* raised by the interpreter itself *)
  | NegativeShiftCount
  | InvalidLiteral (base : Z) (s : string)
  | UnpackError (expected got : nat)
  | IndexError
  | KeyError (key : string)
  | TypeError
  | NoMatch
  | NotImplemented.

(** The Python class of each exception. *)
Inductive exn_class : Type :=
  ValueError | AssertionError | PyIndexError | PyKeyError | PyTypeError | AttributeError
  | NotImplementedError.

Definition class_of (e : exn) : exn_class :=
  match e with
  | NegativeNotAllowed _ | TooLargeU _ _ _ | TooLargeI _ _ _ _ _
  | ReverseRange | SliceOutOfRange _ _ _ | SliceOutOfRangeTag _ _ _ | InvalidSegmentLine
  | ExpectedLabelled _ | RefSliceTooWide _ _ _ | UnknownInstruction _
  | OpcodeMismatch _ _ | NegativeShiftCount | InvalidLiteral _ _
  | UnpackError _ _ => ValueError
  | ExpectedBitSlice _ | SliceWithoutBounds | SliceOutsideBounds | NoOpLabel
  | UndefinedLabel _ | NotByteAlignedLine | NotByteAligned _ => AssertionError
  | IndexError => PyIndexError
  | KeyError _ => PyKeyError
  | TypeError => PyTypeError
  | NoMatch => AttributeError
  | NotImplemented => NotImplementedError
  end.

Inductive result (A : Type) : Type :=
  | OK (a : A)
  | Err (e : exn).
Arguments OK {A} a.
Arguments Err {A} e.

#[global] Instance result_ret : MRet result := fun _ a => OK a.
#[global] Instance result_bind : MBind result := fun _ _ f m =>
  match m with
  | OK a => f a
  | Err e => Err e
  end.

#[global] Instance result_fmap : FMap result := fun _ _ f m =>
  match m with
  | OK a => OK (f a)
  | Err e => Err e
  end.

Definition is_ok {A} (r : result A) : bool :=
  match r with OK _ => true | Err _ => false end.

Definition fails {A} (r : result A) : Prop := exists e, r = Err e.

(** [a << k]: a negative shift count raises. *)
Definition shl (a k : Z) : result Z :=
  if k <? 0 then Err NegativeShiftCount else OK (Z.shiftl a k).

(** [int.bit_length()]. *)
Definition bit_length (n : Z) : Z :=
  if n =? 0 then 0 else Z.log2 (Z.abs n) + 1.

(** ** bits.py *)

Module Bits.

Definition bitfield : Type := Z * Z.

Definition u (num bits : Z) : result bitfield :=
  if num <? 0 then Err (NegativeNotAllowed num)
  else if bit_length num >? bits then Err (TooLargeU num (bit_length num) bits)
  else OK (num, bits).

Definition i (num bits : Z) : result bitfield :=
  p ← shl 1 (bits - 1);
  let min := - p in
  let max := -1 - min in
  if (num >? max) || (num <? min)
  then Err (TooLargeI num (bit_length num + 1) bits min max)
  else
    num ← (if num <? 0 then q ← shl 1 bits; OK (q + num) else OK num);
    u num bits.

Fixpoint concat_loop (val size : Z) (parts : list bitfield) : result bitfield :=
  match parts with
  | [] => OK (val, size)
  | (pval, psize) :: parts =>
      s ← shl pval size;
      concat_loop (Z.lor val s) (size + psize) parts
  end.

Definition concat (parts : list bitfield) : result bitfield :=
  concat_loop 0 0 parts.

Definition slice (bits : bitfield) (hi lo : Z) : result bitfield :=
  let '(val, size) := bits in
  if hi <? lo then Err ReverseRange
  else if (lo <? 0) || (hi >=? size) then Err (SliceOutOfRange hi lo size)
  else
    let size := hi - lo + 1 in
    OK (Z.land (Z.shiftr val lo) (Z.shiftl 1 size - 1), size).

End Bits.

(** ** Python strings

    The string methods and the four module-level regular expressions of
    [subv.py], written out as functions. *)

Definition code (c : ascii) : Z := Z.of_N (Ascii.N_of_ascii c).

Definition between (lo hi : Z) (c : ascii) : bool :=
  (lo <=? code c) && (code c <=? hi).

(** [str.isspace()] on one character: what [str.strip()] drops. *)
Definition is_space (c : ascii) : bool :=
  between 9 13 c || between 28 32 c || (code c =? 133) || (code c =? 160).

Fixpoint lstrip (s : string) : string :=
  match s with
  | String c r => if is_space c then lstrip r else s
  | EmptyString => EmptyString
  end.

Fixpoint rstrip (s : string) : string :=
  match s with
  | EmptyString => EmptyString
  | String c r =>
      match rstrip r with
      | EmptyString => if is_space c then EmptyString else String c EmptyString
      | r' => String c r'
      end
  end.

Definition strip (s : string) : string := rstrip (lstrip s).

(** The white space that [int()] drops around a literal: the ASCII white
    space and the two other characters below 256 that [str.isspace()]
    accepts.  Unlike [str.strip()], [int()] keeps the separators 0x1c to
    0x1f, and raises on a text that holds one. *)
Definition is_int_space (c : ascii) : bool :=
  between 9 13 c || (code c =? 32) || (code c =? 133) || (code c =? 160).

Fixpoint int_lstrip (s : string) : string :=
  match s with
  | String c r => if is_int_space c then int_lstrip r else s
  | EmptyString => EmptyString
  end.

Fixpoint int_rstrip (s : string) : string :=
  match s with
  | EmptyString => EmptyString
  | String c r =>
      match int_rstrip r with
      | EmptyString => if is_int_space c then EmptyString else String c EmptyString
      | r' => String c r'
      end
  end.

Definition int_strip (s : string) : string := int_rstrip (int_lstrip s).

(** [s.split(sep, 1)]: the text before the first [sep] and, if there is one,
    the text after it. *)
Fixpoint split1 (sep : ascii) (s : string) : string * option string :=
  match s with
  | EmptyString => (EmptyString, None)
  | String c r =>
      if Ascii.eqb c sep then (EmptyString, Some r)
      else let '(a, b) := split1 sep r in (String c a, b)
  end.

(** [s.split(sep)] for a one-character separator. *)
Fixpoint split (sep : ascii) (s : string) : list string :=
  match s with
  | EmptyString => [EmptyString]
  | String c r =>
      if Ascii.eqb c sep then EmptyString :: split sep r
      else match split sep r with
           | h :: t => String c h :: t
           | [] => [String c EmptyString]
           end
  end.

(** [sep.join(l)]. *)
Fixpoint join (sep : string) (l : list string) : string :=
  match l with
  | [] => EmptyString
  | [x] => x
  | x :: l => x ++ sep ++ join sep l
  end.

Definition startswith (p s : string) : bool := String.prefix p s.

(** [s.endswith(suffix)]: some tail of [s] is [suffix]. *)
Fixpoint endswith (suffix s : string) : bool :=
  String.eqb s suffix
  || match s with
     | String _ r => endswith suffix r
     | EmptyString => false
     end.

(** [s[:-1]]. *)
Fixpoint drop_last (s : string) : string :=
  match s with
  | EmptyString => EmptyString
  | String _ EmptyString => EmptyString
  | String c r => String c (drop_last r)
  end.

(** The position [$] of a pattern: the end of the text, or just before a
    final newline. *)
Definition at_dollar (s : string) : bool :=
  match s with
  | EmptyString => true
  | String c EmptyString => code c =? 10
  | _ => false
  end.

Definition is_digit (c : ascii) : bool := between 48 57 c.
Definition is_lower_hex (c : ascii) : bool := is_digit c || between 97 102 c.

(** The longest prefix of characters satisfying [p], and the rest. *)
Fixpoint span (p : ascii -> bool) (s : string) : string * string :=
  match s with
  | EmptyString => (EmptyString, EmptyString)
  | String c r =>
      if p c then let '(a, b) := span p r in (String c a, b)
      else (EmptyString, s)
  end.

Definition nonempty (s : string) : bool :=
  match s with EmptyString => false | _ => true end.

(** [white = re.compile(r'[ \t\.\n]+')] *)
Definition is_white (c : ascii) : bool :=
  (code c =? 32) || (code c =? 9) || (code c =? 46) || (code c =? 10).

(** [white.split(s)]: the pieces between maximal runs of [is_white]
    characters; [run] says that the previous character was in such a run. *)
Fixpoint white_split_from (run : bool) (s : string) : list string :=
  match s with
  | EmptyString => [EmptyString]
  | String c r =>
      if is_white c then
        if run then white_split_from true r
        else EmptyString :: white_split_from true r
      else match white_split_from false r with
           | h :: t => String c h :: t
           | [] => [String c EmptyString]
           end
  end.

Definition white_split (s : string) : list string := white_split_from false s.

(** [hex = re.compile(r'^\-?(0x)?[0-9a-f]+$')], as [hex.match(s)]. *)
Definition hex_body (s : string) : bool :=
  let '(ds, rest) := span is_lower_hex s in
  nonempty ds && at_dollar rest.

(** The pattern after the optional sign: with [0x], or without. *)
Definition hex_unsigned (s : string) : bool :=
  match s with
  | String c (String x r) =>
      if (code c =? 48) && (code x =? 120) then hex_body r || hex_body s
      else hex_body s
  | _ => hex_body s
  end.

Definition hex_match (s : string) : bool :=
  hex_unsigned (match s with
                | String c r => if code c =? 45 then r else s
                | EmptyString => s
                end).

(** [slice_re = re.compile(r'^([^\[]+)(?:\[(\d+):(\d+)\])?$')]: the groups
    of [slice_re.match(s)], or [None]. *)
Definition slice_re_match (s : string) : option (string * option (string * string)) :=
  let '(label, rest) := span (fun c => negb (code c =? 91)) s in
  if negb (nonempty label) then None
  else match rest with
  | EmptyString => Some (label, None)
  | String _ rest =>
      let '(hi, rest) := span is_digit rest in
      match rest with
      | String colon rest =>
          let '(lo, rest) := span is_digit rest in
          match rest with
          | String bracket rest =>
              if (code colon =? 58) && (code bracket =? 93)
                 && nonempty hi && nonempty lo && at_dollar rest
              then Some (label, Some (hi, lo)) else None
          | EmptyString => None
          end
      | EmptyString => None
      end
  end.

(** [field_re = re.compile(r'^(imm|off)(\d+)$')]: the groups of
    [field_re.match(s)], or [None]. *)
Definition field_re_match (s : string) : option (string * string) :=
  match s with
  | String a (String b (String c rest)) =>
      let mode := String a (String b (String c EmptyString)) in
      if String.eqb mode "imm" || String.eqb mode "off" then
        let '(ds, rest) := span is_digit rest in
        if nonempty ds && at_dollar rest then Some (mode, ds) else None
      else None
  | _ => None
  end.

(** *** [int(s, base)], [str(n)] and [format(n, '02x')] *)

Definition digit_val (c : ascii) : option Z :=
  if between 48 57 c then Some (code c - 48)
  else if between 97 122 c then Some (code c - 87)
  else if between 65 90 c then Some (code c - 55)
  else None.

(** Digits with single underscores between them; [us] says that the
    previous character was an underscore. *)
Fixpoint digits (base acc : Z) (us : bool) (s : string) : option Z :=
  match s with
  | EmptyString => if us then None else Some acc
  | String c r =>
      if code c =? 95 then if us then None else digits base acc true r
      else match digit_val c with
           | Some d => if d <? base then digits base (acc * base + d) false r else None
           | None => None
           end
  end.

(** The literal after its sign: for base 16 an optional [0x] or [0X], which
    one underscore may follow, then the digits. *)
Definition py_uint (base : Z) (s : string) : option Z :=
  let s :=
    match s with
    | String c (String x r) =>
        if (code c =? 48) && (base =? 16) && ((code x =? 120) || (code x =? 88))
        then match r with
             | String u r' => if code u =? 95 then r' else r
             | EmptyString => r
             end
        else s
    | _ => s
    end in
  match s with
  | EmptyString => None
  | String c _ => if code c =? 95 then None else digits base 0 false s
  end.

Definition py_int (base : Z) (s0 : string) : result Z :=
  let s := int_strip s0 in
  let '(neg, s) :=
    match s with
    | String c r =>
        if code c =? 45 then (true, r)
        else if code c =? 43 then (false, r)
        else (false, s)
    | EmptyString => (false, s)
    end in
  match py_uint base s with
  | Some v => OK (if neg then - v else v)
  | None => Err (InvalidLiteral base s0)
  end.

(** [str(n)] *)
Definition str_of_int (n : Z) : string :=
  DecimalString.NilZero.string_of_int (Z.to_int n).

Definition hex_of_N (n : N) : string :=
  HexadecimalString.NilZero.string_of_uint (N.to_hex_uint n).

(** ['{:02x}'.format(n)]: lower-case, zero-padded to two characters, the
    sign counting as one of them. *)
Definition format_02x (n : Z) : string :=
  if n <? 0 then "-" ++ hex_of_N (Z.abs_N n)
  else
    let h := hex_of_N (Z.to_N n) in
    if (String.length h <? 2)%nat then "0" ++ h else h.

(** ** subv.py *)

Module Subv.

(** An item of a part tuple: an [int] or a [str]. *)
Inductive atom : Type :=
  | VInt (n : Z)
  | VStr (s : string).

(** A part is a tuple [(head, tag, ...)].  Every tuple the program builds
    has a first item, so the record keeps it apart from the tags. *)
Record part : Type := Part { head : atom; tags : list atom }.

Inductive ltype : Type := empty | segment | label | instr.

(** The value stored under the key named by the line's type. *)
Inductive parsed : Type :=
  | PNone
  | PSegment (name : string) (base : option Z)
  | PLabel (name : string)
  | PInstr (parts : list part).

(** The dict returned by [parse]: the keys [raw], [line] and [comment], and
    under [body] the key named by the type with its value; the key [type]
    is read off it. *)
Record pline : Type := Line {
  raw : string;
  line : string;
  comment : option string;
  body : parsed;
}.

Definition type (l : pline) : ltype :=
  match body l with
  | PNone => empty
  | PSegment _ _ => segment
  | PLabel _ => label
  | PInstr _ => instr
  end.

Definition ltype_eqb (a b : ltype) : bool :=
  match a, b with
  | empty, empty | segment, segment | label, label | instr, instr => true
  | _, _ => false
  end.

(** [line['instr']] and [line['segment']] *)
Definition get_instr (l : pline) : result (list part) :=
  match body l with
  | PInstr parts => OK parts
  | _ => Err (KeyError "instr")
  end.

Definition get_segment (l : pline) : result (string * option Z) :=
  match body l with
  | PSegment name base => OK (name, base)
  | _ => Err (KeyError "segment")
  end.

(** The dict returned by [parse_reference]; [bounds] holds the keys [hi]
    and [lo], which are present together or not at all. *)
Record reference : Type := Reference {
  ref_label : string;
  mode : string;
  size : Z;
  meta : list atom;
  bounds : option (Z * Z);
}.

Definition str (a : atom) : string :=
  match a with
  | VInt n => str_of_int n
  | VStr s => s
  end.

(** [int(a)] *)
Definition int (a : atom) : result Z :=
  match a with
  | VInt n => OK n
  | VStr s => py_int 10 s
  end.

Definition parse_part (s : string) : result part :=
  match split "/" s with
  | h :: t =>
      if hex_match h then n ← py_int 16 h; OK (Part (VInt n) (VStr <$> t))
      else OK (Part (VStr h) (VStr <$> t))
  | [] => Err IndexError
  end.

Definition parse_instr (l : string) : result (list part) :=
  mapM parse_part (filter (fun p => p <> EmptyString) (white_split l)).

Definition parse_segment (l : string) : result (string * option Z) :=
  match white_split l with
  | [_; name; base] => n ← py_int 16 base; OK (name, Some n)
  | [_; name] => OK (name, None)
  | _ => Err InvalidSegmentLine
  end.

Definition parse_label (l : string) : string := drop_last l.

Definition parse_reference (p : part) : result reference :=
  match head p, tags p with
  | _, [] => Err IndexError
  | VInt _, _ => Err TypeError
  | VStr ref, field :: rest =>
      match slice_re_match ref with
      | None => Err NoMatch
      | Some (lbl, hilo) =>
          match field with
          | VInt _ => Err TypeError
          | VStr field =>
              match field_re_match field with
              | None => Err NoMatch
              | Some (md, sz) =>
                  sz ← py_int 10 sz;
                  bnd ← match hilo with
                        | None => OK None
                        | Some (hi, lo) =>
                            hi ← py_int 10 hi; lo ← py_int 10 lo; OK (Some (hi, lo))
                        end;
                  OK (Reference lbl md sz rest bnd)
              end
          end
      end
  end.

Definition classify (l : string) : ltype :=
  if String.eqb l EmptyString then empty
  else if startswith "==" l then segment
  else if endswith ":" l then label
  else instr.

Definition parse (l : string) : result pline :=
  let raw := strip l in
  let '(clean, comment) := split1 "#" raw in
  let type := classify clean in
  parsed ← match type with
           | segment => '(name, base) ← parse_segment clean; OK (PSegment name base)
           | label => OK (PLabel (parse_label clean))
           | instr => PInstr <$> parse_instr clean
           | empty => OK PNone
           end;
  OK (Line raw clean comment parsed).

Definition is_reference (p : part) : bool :=
  match head p with
  | VStr _ => true
  | VInt _ => false
  end.

Definition atom_eqb (a b : atom) : bool :=
  match a, b with
  | VInt m, VInt n => m =? n
  | VStr s, VStr t => String.eqb s t
  | _, _ => false
  end.

(** [expect] is [None] for the default argument; an empty string is as
    falsy as [None]. *)
Definition untag (p : part) (expect : option string) : result atom :=
  match expect with
  | None | Some EmptyString => OK (head p)
  | Some e =>
      match tags p with
      | [] => Err IndexError
      | t :: _ => if atom_eqb t (VStr e) then OK (head p) else Err (ExpectedLabelled e)
      end
  end.

Definition format_part (p : part) : string :=
  let first := match head p with
               | VStr s => s
               | VInt n => format_02x n
               end in
  join "/" (first :: (str <$> tags p)).

Definition format (l : pline) : result string :=
  if ltype_eqb (type l) instr then
    parts ← get_instr l;
    let packed := join " " (format_part <$> parts) in
    match comment l with
    | None | Some EmptyString => OK packed
    | Some c => OK (packed ++ " # " ++ c)
    end
  else Err NotImplemented.

(** [line['instr'] = parts] *)
Definition set_instr (l : pline) (parts : list part) : pline :=
  Line (raw l) (line l) (comment l) (PInstr parts).

End Subv.

(** A bit-field [(value, width)] as a part tuple, and back: [from_pair]
    reads a part that is a pair of integers as the bit-field it stands
    for. *)
Definition to_pair (b : Bits.bitfield) : Subv.part :=
  Subv.Part (Subv.VInt (fst b)) [Subv.VInt (snd b)].


(** An [int] where the callee compares or shifts its argument. *)
Definition as_int (a : Subv.atom) : result Z :=
  match a with
  | Subv.VInt n => OK n
  | Subv.VStr _ => Err TypeError
  end.

(** [segment == name], where [segment] may still be [None]. *)
Definition segment_is (seg : option string) (name : string) : bool :=
  match seg with
  | Some s => String.eqb s name
  | None => false
  end.

(** The lines a generator has yielded, and the exception that stopped it. *)
Definition trace : Type := list string * option exn.

Definition yield (l : string) (t : trace) : trace := (l :: fst t, snd t).

(** ** format.py *)

Module Format.
Import Subv.

(** ['{label}[{hi}:{lo}]'.format(...)] *)
Definition render_ref (lbl : string) (hi lo : Z) : string :=
  lbl ++ "[" ++ str_of_int hi ++ ":" ++ str_of_int lo ++ "]".

Definition ref_slice (ref : reference) (hi lo : Z) : result reference :=
  if hi <? lo then Err ReverseRange
  else if hi >=? size ref then Err (RefSliceTooWide hi lo (size ref))
  else OK (Reference (ref_label ref) (mode ref) (hi - lo + 1) (meta ref) (Some (hi, lo))).

Definition default_slice (val : part) (hi lo : Z) : result part :=
  parsed ← parse_reference val;
  let '(hi, lo) := match bounds parsed with
                   | Some b => b
                   | None => (hi, lo)
                   end in
  let p_size := hi - lo + 1 in
  if negb (size parsed =? p_size) then Err (ExpectedBitSlice (size parsed))
  else OK (Part (VStr (render_ref (ref_label parsed) hi lo)) (tags val)).

(** [bits.slice(val, hi, lo)] where [val] is a part tuple: the unpacking
    [(val, size) = bits] wants two items; the two range tests come before the
    items are used as numbers, and a width that is a string (seen in the
    message of the second test when [lo < 0]) cannot be compared. *)
Definition slice_part (val : part) (hi lo : Z) : result part :=
  match val with
  | Part (VInt v) [VInt w] => to_pair <$> Bits.slice (v, w) hi lo
  | Part (VStr _) [VInt w] =>
      if hi <? lo then Err ReverseRange
      else if (lo <? 0) || (hi >=? w) then Err (SliceOutOfRange hi lo w)
      else Err TypeError
  | Part _ [VStr s] =>
      if hi <? lo then Err ReverseRange
      else if lo <? 0 then Err (SliceOutOfRangeTag hi lo s)
      else Err TypeError
  | Part _ t => Err (UnpackError 2 (S (length t)))
  end.

Definition slice_bit_or_ref (val : part) (hi lo : Z) : result part :=
  if negb (is_reference val) then slice_part val hi lo
  else
    ref ← parse_reference val;
    match bounds ref with
    | None => Err SliceWithoutBounds
    | Some (rhi, rlo) =>
        let sz := hi - lo in
        let lo := rlo + lo in
        let hi := lo + sz in
        if negb (hi <=? rhi) then Err SliceOutsideBounds
        else
          let main := render_ref (ref_label ref) hi lo in
          let field := mode ref ++ str_of_int (sz + 1) in
          OK (Part (VStr main) (VStr field :: drop 1 (tags val)))
    end.

(** [bits.u(subv.untag(p, expect), bits)] *)
Definition untag_u (p : part) (expect : option string) (bits : Z) : result part :=
  a ← untag p expect; n ← as_int a; to_pair <$> Bits.u n bits.

(** [bits.i(subv.untag(p, expect), bits)] *)
Definition untag_i (p : part) (expect : option string) (bits : Z) : result part :=
  a ← untag p expect; n ← as_int a; to_pair <$> Bits.i n bits.

Definition pack_u (instr : list part) : result (list part) :=
  match instr with
  | [op; rd; imm] =>
      op ← untag_u op None 7;
      rd ← untag_u rd (Some "rd") 5;
      imm ← (if is_reference imm then default_slice imm 31 12
             else untag_i imm (Some "imm20") 20);
      OK [op; rd; imm]
  | _ => Err (UnpackError 3 (length instr))
  end.

Definition pack_i (instr : list part) : result (list part) :=
  match instr with
  | [op; sub; rd; rs; imm] =>
      op ← untag_u op None 7;
      sub ← untag_u sub (Some "subop") 3;
      rd ← untag_u rd (Some "rd") 5;
      rs ← untag_u rs (Some "rs") 5;
      imm ← (if is_reference imm then default_slice imm 11 0
             else untag_i imm (Some "imm12") 12);
      OK [op; rd; sub; rs; imm]
  | _ => Err (UnpackError 5 (length instr))
  end.

Definition pack_s (instr : list part) : result (list part) :=
  match instr with
  | [op; sub; rs1; rs2; imm] =>
      op ← untag_u op None 7;
      sub ← untag_u sub (Some "subop") 3;
      rs1 ← untag_u rs1 (Some "rs") 5;
      rs2 ← untag_u rs2 (Some "rs") 5;
      imm ← (if is_reference imm then default_slice imm 11 0
             else untag_i imm (Some "off12") 12);
      imm_lo ← slice_bit_or_ref imm 4 0;
      imm_hi ← slice_bit_or_ref imm 11 5;
      OK [op; imm_lo; sub; rs1; rs2; imm_hi]
  | _ => Err (UnpackError 5 (length instr))
  end.

Definition pack_j (instr : list part) : result (list part) :=
  match instr with
  | [op; rd; imm] =>
      op ← untag_u op None 7;
      rd ← untag_u rd (Some "rd") 5;
      imm ← (if is_reference imm then default_slice imm 20 1
             else untag_i imm (Some "off20") 20);
      imm_lo ← slice_bit_or_ref imm 9 0;
      imm_11 ← slice_bit_or_ref imm 10 10;
      imm_hi ← slice_bit_or_ref imm 18 11;
      imm_20 ← slice_bit_or_ref imm 19 19;
      OK [op; rd; imm_hi; imm_11; imm_lo; imm_20]
  | _ => Err (UnpackError 3 (length instr))
  end.

Definition pack_b (instr : list part) : result (list part) :=
  match instr with
  | [op; sub; rs1; rs2; imm] =>
      op ← untag_u op None 7;
      sub ← untag_u sub (Some "subop") 3;
      rs1 ← untag_u rs1 (Some "rs") 5;
      rs2 ← untag_u rs2 (Some "rs") 5;
      imm ← (if is_reference imm then default_slice imm 12 1
             else untag_i imm (Some "off12") 12);
      imm_lo ← slice_bit_or_ref imm 3 0;
      imm_md ← slice_bit_or_ref imm 9 4;
      imm_11 ← slice_bit_or_ref imm 10 10;
      imm_12 ← slice_bit_or_ref imm 11 11;
      OK [op; imm_11; imm_lo; sub; rs1; rs2; imm_md; imm_12]
  | _ => Err (UnpackError 5 (length instr))
  end.

Definition packer : Type := list part -> result (list part).

Definition instr_map (lbl : string) : option (packer * Z) :=
  if String.eqb lbl "load" then Some (pack_i, 0x03)
  else if String.eqb lbl "opi" then Some (pack_i, 0x13)
  else if String.eqb lbl "jalr" then Some (pack_i, 0x67)
  else if String.eqb lbl "store" then Some (pack_s, 0x23)
  else if String.eqb lbl "branch" then Some (pack_b, 0x63)
  else if String.eqb lbl "lui" then Some (pack_u, 0x37)
  else if String.eqb lbl "auipc" then Some (pack_u, 0x17)
  else if String.eqb lbl "jal" then Some (pack_j, 0x6f)
  else None.

(** The body of the branch taken for an instruction line of the code
    segment, up to the call of the packer: the rewritten parts. *)
Definition format_instr (parts : list part) : result (list part) :=
  match parts with
  | [] => Err IndexError
  | op :: _ =>
      match tags op with
      | [lbl] =>
          match (match lbl with VStr l => instr_map l | VInt _ => None end) with
          | None => Err (UnknownInstruction (str lbl))
          | Some (formatter, expected) =>
              if negb (atom_eqb (head op) (VInt expected))
              then Err (OpcodeMismatch (str lbl) expected)
              else formatter parts
          end
      | _ => Err NoOpLabel
      end
  end.

(** One iteration of the loop of [format]: the line yielded and the new
    value of [segment]. *)
Definition format_step (seg : option string) (l : string) : result (string * option string) :=
  ln ← parse l;
  if segment_is seg "code" && ltype_eqb (type ln) instr then
    parts ← get_instr ln;
    parts ← format_instr parts;
    out ← Subv.format (set_instr ln parts);
    OK (out, seg)
  else if ltype_eqb (type ln) segment then
    '(name, _) ← get_segment ln;
    OK (raw ln, Some name)
  else OK (raw ln, seg).

Fixpoint format_loop (seg : option string) (iter : list string) : trace :=
  match iter with
  | [] => ([], None)
  | l :: iter =>
      match format_step seg l with
      | Err e => ([], Some e)
      | OK (out, seg) => yield out (format_loop seg iter)
      end
  end.

Definition format (iter : list string) : trace := format_loop None iter.

End Format.

(** ** survey.py *)

Module Survey.
Import Subv.

Definition observe (p : part) (rel_addr : Z) (map : gmap string Z) : result part :=
  if negb (is_reference p) then OK p
  else
    ref ← parse_reference p;
    match map !! ref_label ref with
    | None => Err (UndefinedLabel (ref_label ref))
    | Some addr =>
        addr ← (if String.eqb (mode ref) "imm" then Bits.u addr 32
                else Bits.i (addr - rel_addr) 32);
        match bounds ref with
        | None => Err (KeyError "hi")
        | Some (hi, lo) => to_pair <$> Bits.slice addr hi lo
        end
    end.

(** The inner loop of the first pass: the bit width of an instruction. *)
Fixpoint width_loop (bits : Z) (parts : list part) : result Z :=
  match parts with
  | [] => OK bits
  | p :: parts =>
      w ← (if is_reference p then size <$> parse_reference p
           else match tags p with
                | [] => Err IndexError
                | t :: _ => int t
                end);
      width_loop (bits + w) parts
  end.

(** The state of the first pass: the queue of lines with the address each
    was given, the symbol table, and the current address. *)
Record state : Type := State {
  queue : list (pline * Z);
  map : gmap string Z;
  addr : Z;
}.

Definition initial : state := State [] ∅ (-1).

Definition pass1_step (st : state) (l : string) : result state :=
  ln ← parse l;
  let queue := (queue st ++ [(ln, addr st)])%list in
  match body ln with
  | PSegment _ (Some base) => OK (State queue (map st) base)
  | PSegment _ None => Err (UnpackError 2 1)
  | PLabel name => OK (State queue (<[name := addr st]> (map st)) (addr st))
  | PInstr parts =>
      bits ← width_loop 0 parts;
      if negb (bits mod 8 =? 0) then Err NotByteAlignedLine
      else OK (State queue (map st) (addr st + bits / 8))
  | PNone => OK (State queue (map st) (addr st))
  end.

Fixpoint pass1 (st : state) (iter : list string) : result state :=
  match iter with
  | [] => OK st
  | l :: iter => st ← pass1_step st l; pass1 st iter
  end.

(** One iteration of the second loop: the line yielded, if any. *)
Definition pass2_step (map : gmap string Z) (entry : pline * Z) : result (option string) :=
  let '(ln, addr) := entry in
  match body ln with
  | PInstr parts =>
      instr ← mapM (fun p => observe p addr map) parts;
      Some <$> Subv.format (set_instr ln instr)
  | PSegment _ _ => OK (Some (raw ln))
  | _ => OK None
  end.

Fixpoint pass2 (map : gmap string Z) (queue : list (pline * Z)) : trace :=
  match queue with
  | [] => ([], None)
  | entry :: queue =>
      match pass2_step map entry with
      | Err e => ([], Some e)
      | OK (Some out) => yield out (pass2 map queue)
      | OK None => pass2 map queue
      end
  end.

Definition survey (iter : list string) : trace :=
  match pass1 initial iter with
  | Err e => ([], Some e)
  | OK st => pass2 (map st) (queue st)
  end.

End Survey.

(** ** pack.py (with [bits.from_part]) *)

Module Pack.
Import Subv.

Definition from_part (p : part) : result Bits.bitfield :=
  val ← int (head p);
  match tags p with
  | [] => Err IndexError
  | sz :: _ => sz ← int sz; OK (val, sz)
  end.

(** [range(0, size, 8)] *)
Definition range8 (size : Z) : list Z :=
  (fun k => 8 * Z.of_nat k) <$> seq 0 (Z.to_nat ((size + 7) / 8)).

Definition byteify (word : Bits.bitfield) : result (list part) :=
  let '(val, size) := word in
  if negb (size mod 8 =? 0) then Err (NotByteAligned size)
  else mapM (fun i => byte ← Bits.slice word (i + 7) i; OK (Part (VInt (fst byte)) []))
            (range8 size).

Definition pack_step (seg : option string) (l : string) : result (string * option string) :=
  ln ← parse l;
  if ltype_eqb (type ln) instr then
    parts ← get_instr ln;
    fields ← mapM from_part parts;
    total ← Bits.concat fields;
    bytes ← byteify total;
    out ← Subv.format (set_instr ln bytes);
    OK (out, seg)
  else if ltype_eqb (type ln) segment then
    '(name, _) ← get_segment ln;
    OK (raw ln, Some name)
  else OK (raw ln, seg).

Fixpoint pack_loop (seg : option string) (iter : list string) : trace :=
  match iter with
  | [] => ([], None)
  | l :: iter =>
      match pack_step seg l with
      | Err e => ([], Some e)
      | OK (out, seg) => yield out (pack_loop seg iter)
      end
  end.

Definition pack (iter : list string) : trace := pack_loop None iter.

End Pack.

(** ** Notions of the specification used in the statements *)


(** The text [parse] classifies: the stripped line up to its first [#]. *)
Definition clean_text (l : string) : string := fst (split1 "#" (strip l)).

(** Every character of [s] satisfies [p]. *)
Fixpoint all_chars (p : ascii -> bool) (s : string) : bool :=
  match s with
  | EmptyString => true
  | String c r => p c && all_chars p r
  end.

(** The name in a segment header line, if the line is one. *)
Definition header_name (l : string) : option string :=
  match Subv.parse l with
  | OK ln =>
      match Subv.body ln with
      | Subv.PSegment name _ => Some name
      | _ => None
      end
  | Err _ => None
  end.

(** The name in the most recent segment header among [lines], starting
    from [seg] when there is none. *)
Fixpoint last_header_from (seg : option string) (lines : list string) : option string :=
  match lines with
  | [] => seg
  | l :: lines =>
      last_header_from (match header_name l with Some n => Some n | None => seg end) lines
  end.

Definition last_header (lines : list string) : option string :=
  last_header_from None lines.



(** The value of a hexadecimal numeral read left to right from [acc]. *)
Fixpoint hex_value (acc : Z) (d : Hexadecimal.uint) : Z :=
  match d with
  | Hexadecimal.Nil => acc
  | Hexadecimal.D0 l => hex_value (acc * 16 + 0) l
  | Hexadecimal.D1 l => hex_value (acc * 16 + 1) l
  | Hexadecimal.D2 l => hex_value (acc * 16 + 2) l
  | Hexadecimal.D3 l => hex_value (acc * 16 + 3) l
  | Hexadecimal.D4 l => hex_value (acc * 16 + 4) l
  | Hexadecimal.D5 l => hex_value (acc * 16 + 5) l
  | Hexadecimal.D6 l => hex_value (acc * 16 + 6) l
  | Hexadecimal.D7 l => hex_value (acc * 16 + 7) l
  | Hexadecimal.D8 l => hex_value (acc * 16 + 8) l
  | Hexadecimal.D9 l => hex_value (acc * 16 + 9) l
  | Hexadecimal.Da l => hex_value (acc * 16 + 10) l
  | Hexadecimal.Db l => hex_value (acc * 16 + 11) l
  | Hexadecimal.Dc l => hex_value (acc * 16 + 12) l
  | Hexadecimal.Dd l => hex_value (acc * 16 + 13) l
  | Hexadecimal.De l => hex_value (acc * 16 + 14) l
  | Hexadecimal.Df l => hex_value (acc * 16 + 15) l
  end.

(** Lines that print and parse back: an item of a part holds none of the
    separators of the language (white space, [/], [#]); a head that is a
    string is not a hexadecimal literal; tags are strings; the printed part
    is not empty; and the printed line is stripped and is classified as an
    instruction. *)
Definition is_plain (c : ascii) : bool :=
  negb (is_white c) && negb (code c =? 47) && negb (code c =? 35).

Definition plain_tag (a : Subv.atom) : bool :=
  match a with
  | Subv.VStr t => all_chars is_plain t
  | Subv.VInt _ => false
  end.

Definition printable_part (p : Subv.part) : bool :=
  match Subv.head p with
  | Subv.VInt _ => true
  | Subv.VStr h => all_chars is_plain h && negb (hex_match h)
  end
  && forallb plain_tag (Subv.tags p)
  && nonempty (Subv.format_part p).

(** The characters of a printed part: no white space and no [#]. *)
Definition is_token_char (c : ascii) : bool :=
  negb (is_white c) && negb (code c =? 35).

Definition token_ok (t : string) : bool :=
  all_chars is_token_char t && nonempty t.

Definition no_hash (c : ascii) : bool := negb (Ascii.eqb c "#").

Definition printed (parts : list Subv.part) : string :=
  join " " (Subv.format_part <$> parts).

Definition printable_line (parts : list Subv.part) : bool :=
  forallb printable_part parts
  && String.eqb (strip (printed parts)) (printed parts)
  && Subv.ltype_eqb (Subv.classify (printed parts)) Subv.instr.

(** ** The example program

    The input of the doctest of [format.py]: a [lui], six [opi]/[store]
    pairs and a [jal] back to [main], with its comment lines. *)
Definition uart_hello : list string :=
  [ "== code 0x80000000";
    "main:";
    "# load 0x10010000 (UART0) into t0";
    "37/lui 5/rd/t0 0x10010/imm20";
    "# store 0x48 (H) in UART0+0";
    "13/opi 0/subop/add 6/rd/t1 0/rs/x0 48/imm12";
    "23/store 2/subop/word 5/rs/t0 6/rs/t1 0/off12";
    "# store 0x65 (e) in UART0+0";
    "13/opi 0/subop/add 6/rd/t1 0/rs/x0 65/imm12";
    "23/store 2/subop/word 5/rs/t0 6/rs/t1 0/off12";
    "# store 0x6c (l) in UART0+0";
    "13/opi 0/subop/add 6/rd/t1 0/rs/x0 6c/imm12";
    "23/store 2/subop/word 5/rs/t0 6/rs/t1 0/off12";
    "# store 0x6c (l) in UART0+0";
    "13/opi 0/subop/add 6/rd/t1 0/rs/x0 6c/imm12";
    "23/store 2/subop/word 5/rs/t0 6/rs/t1 0/off12";
    "# store 0x6f (o) in UART0+0";
    "13/opi 0/subop/add 6/rd/t1 0/rs/x0 6f/imm12";
    "23/store 2/subop/word 5/rs/t0 6/rs/t1 0/off12";
    "# store 0x0a (\n) in UART0+0";
    "13/opi 0/subop/add 6/rd/t1 0/rs/x0 0a/imm12";
    "23/store 2/subop/word 5/rs/t0 6/rs/t1 0/off12";
    "# jump back up to the top";
    "6f/jal 0/rd/x0 main/off20" ].

(** ** Notions used to state properties of the bit-fields *)

(** A concrete bit-field as the data model has it: a non-negative width
    and a value that fits in it. *)
Definition well_formed (b : Bits.bitfield) : Prop :=
  0 <= snd b /\ 0 <= fst b < 2 ^ snd b.

(** The sum of the widths, and the number whose digits are the values:
    the first field is the least significant. *)
Definition total_width (parts : list Bits.bitfield) : Z :=
  foldr (fun p acc => snd p + acc) 0 parts.

Definition total_value (parts : list Bits.bitfield) : Z :=
  foldr (fun p acc => fst p + 2 ^ snd p * acc) 0 parts.

(** The signed reading of a [w]-bit two's-complement value. *)
Definition signed (v w : Z) : Z :=
  if v <? 2 ^ (w - 1) then v else v - 2 ^ w.

(** A byte as [byteify] emits it: a part without tags. *)
Definition byte_part (b : Z) : Subv.part := Subv.Part (Subv.VInt b) [].

(** The [count] bytes of [val] from byte number [from] on, least
    significant first. *)
Definition le_bytes (val : Z) (from count : nat) : list Z :=
  (fun j => (val / 2 ^ (8 * Z.of_nat j)) mod 256) <$> seq from count.

(** The value of a decimal numeral read left to right from [acc]. *)
Fixpoint dec_value (acc : Z) (d : Decimal.uint) : Z :=
  match d with
  | Decimal.Nil => acc
  | Decimal.D0 l => dec_value (acc * 10 + 0) l
  | Decimal.D1 l => dec_value (acc * 10 + 1) l
  | Decimal.D2 l => dec_value (acc * 10 + 2) l
  | Decimal.D3 l => dec_value (acc * 10 + 3) l
  | Decimal.D4 l => dec_value (acc * 10 + 4) l
  | Decimal.D5 l => dec_value (acc * 10 + 5) l
  | Decimal.D6 l => dec_value (acc * 10 + 6) l
  | Decimal.D7 l => dec_value (acc * 10 + 7) l
  | Decimal.D8 l => dec_value (acc * 10 + 8) l
  | Decimal.D9 l => dec_value (acc * 10 + 9) l
  end.

(** A character other than the opening bracket: what a label is made of. *)
Definition not_bracket (c : ascii) : bool := negb (code c =? 91).

(** A label name [slice_re] can read back. *)
Definition label_ok (lbl : string) : bool :=
  nonempty lbl && all_chars not_bracket lbl.

(** Parts that are concrete well-formed fields of the given widths. *)
Definition concrete_fields (ps : list Subv.part) (widths : list Z) : Prop :=
  Forall2 (fun p w => exists v, p = to_pair (v, w) /\ well_formed (v, w)) ps widths.

(** The 32-bit value a reference stands for in [observe]: the address of
    its label, unsigned for the mode [imm] and relative to the instruction
    otherwise. *)
Definition resolve (r : Subv.reference) (rel_addr : Z) (map : gmap string Z)
  : result Bits.bitfield :=
  match map !! Subv.ref_label r with
  | None => Err (UndefinedLabel (Subv.ref_label r))
  | Some addr =>
      if String.eqb (Subv.mode r) "imm" then Bits.u addr 32
      else Bits.i (addr - rel_addr) 32
  end.

(** The lines the second loop of [survey] yields something for: the
    instruction lines and the segment headers. *)
Definition survey_keeps (l : string) : bool :=
  match Subv.parse l with
  | OK ln => Subv.ltype_eqb (Subv.type ln) Subv.instr
             || Subv.ltype_eqb (Subv.type ln) Subv.segment
  | Err _ => false
  end.

(** A line that defines the label [name]. *)
Definition defines (name : string) (l : string) : Prop :=
  exists ln, Subv.parse l = OK ln /\ Subv.body ln = Subv.PLabel name.

(** What [subv.format] prints for the parts of a line and its comment. *)
Definition with_comment (packed : string) (comment : option string) : string :=
  match comment with
  | None | Some EmptyString => packed
  | Some c => packed ++ " # " ++ c
  end.

(** The line [o] that Survey yields for the input line [l]: a segment header
    as it was read, an instruction printed again, with as many parts and
    with its comment. *)
Definition survey_line (l o : string) : Prop :=
  exists ln, Subv.parse l = OK ln
    /\ match Subv.body ln with
       | Subv.PSegment _ _ => o = Subv.raw ln
       | Subv.PInstr parts =>
           exists ps, length ps = length parts
             /\ o = with_comment (join " " (Subv.format_part <$> ps)) (Subv.comment ln)
       | _ => False
       end.

(** ** elf.py

    The script writes the ELF image to [sys.stdout.buffer].  [main] is the
    body under [if __name__ == "__main__"]: the bytes written when the
    script ends normally, or the exception that ends it.  A function that
    writes is a [writer]: it returns its value together with the bytes it
    has written, and sequencing appends them. *)

Module Elf.
Import Subv.

Inductive error : Type :=
  | Py (e : exn)                    (* raised by [subv.parse] or by an unpacking *)
  | StopIteration                   (* [next] on an exhausted generator *)
  | NegativeLength                  (* [to_bytes] with a negative length *)
  | OverflowError (num size : Z)    (* [to_bytes]: negative, or too big *)
  | NoToBytes (s : string)          (* [to_bytes] of a [str] *)
  | CursorPast (cursor offset : Z)
  | ImproperAlignment
  | OutsideSegment
  | NotSegmentOrInstr.

Inductive outcome (A : Type) : Type :=
  | Done (a : A)
  | Raise (e : error).
Arguments Done {A} a.
Arguments Raise {A} e.

Definition writer (A : Type) : Type := outcome (A * list Z).

#[global] Instance writer_ret : MRet writer := fun _ a => Done (a, []).
#[global] Instance writer_bind : MBind writer := fun _ _ f m =>
  match m with
  | Done (a, out) =>
      match f a with
      | Done (b, out') => Done (b, (out ++ out')%list)
      | Raise e => Raise e
      end
  | Raise e => Raise e
  end.

(** The dict of a segment; the key [offset] is set by
    [write_program_header]. *)
Record segment : Type := Segment {
  name : string;
  addr : Z;
  content : list part;
  offset : option Z;
}.

(** [len(x)] *)
Definition len {A} (l : list A) : Z := Z.of_nat (length l).

Definition w (b : list Z) : writer Z := Done (len b, b).

(** [num.to_bytes(size, byteorder='little')] *)
Definition to_bytes (num size : Z) : outcome (list Z) :=
  if size <? 0 then Raise NegativeLength
  else if (num <? 0) || (num >=? 256 ^ size) then Raise (OverflowError num size)
  else Done (le_bytes num 0 (Z.to_nat size)).

Definition wi (num size : Z) : writer Z :=
  match to_bytes num size with
  | Done b => Done (size, b)
  | Raise e => Raise e
  end.

Definition padto (offset cursor : Z) : writer Z :=
  let missing := offset - cursor in
  if missing <? 0 then Raise (CursorPast cursor offset)
  else
    _ ← w (repeat 0 (Z.to_nat missing));
    mret offset.

Definition is_code (s : segment) : bool := String.eqb (name s) "code".

Definition write_elf_header (segments : list segment) : writer Z :=
  let c := 0 in
  match List.find is_code segments with
  | None => Raise StopIteration
  | Some code =>
      let entrypoint := addr code in
      n ← w [0x7f; 0x45; 0x4c; 0x46]; let c := c + n in
      n ← wi 0x010101 4; let c := c + n in
      n ← wi 0 8; let c := c + n in
      n ← wi 0x02 2; let c := c + n in
      n ← wi 0xf3 2; let c := c + n in
      n ← wi 0x01 4; let c := c + n in
      n ← wi entrypoint 4; let c := c + n in
      n ← wi 0x34 4; let c := c + n in
      n ← wi 0x00 4; let c := c + n in
      n ← wi 0x0004 4; let c := c + n in
      n ← wi 0x34 2; let c := c + n in
      n ← wi 0x20 2; let c := c + n in
      n ← wi (len segments) 2; let c := c + n in
      n ← wi 0x28 2; let c := c + n in
      n ← wi 0x0 2; let c := c + n in
      n ← wi 0x0 2; let c := c + n in
      mret c
  end.

(** Returns the new cursor and the segment with its [offset] set. *)
Definition write_program_header (seg : segment) (c start : Z) : writer (Z * segment) :=
  let align := 0x1000 in
  let offset := (1 + start / align) * align in
  let seg := Segment (name seg) (addr seg) (content seg) (Some offset) in
  let start := addr seg in
  let size := len (content seg) in
  let flags := if String.eqb (name seg) "code" then 5 else 6 in
  if negb (offset mod align =? start mod align) then Raise ImproperAlignment
  else
    n ← wi 0x1 4; let c := c + n in
    n ← wi offset 4; let c := c + n in
    n ← wi start 4; let c := c + n in
    n ← wi start 4; let c := c + n in
    n ← wi size 4; let c := c + n in
    n ← wi size 4; let c := c + n in
    n ← wi flags 4; let c := c + n in
    n ← wi align 4; let c := c + n in
    mret (c, seg).

(** The first loop over the segments. *)
Fixpoint program_headers (segments : list segment) (c segment_start : Z)
  : writer (Z * list segment) :=
  match segments with
  | [] => mret (c, [])
  | seg :: rest =>
      '(c, seg) ← write_program_header seg c segment_start;
      match offset seg with
      | None => Raise (Py (KeyError "offset"))
      | Some o =>
          let segment_start := o + len (content seg) in
          '(c, rest) ← program_headers rest c segment_start;
          mret (c, seg :: rest)
      end
  end.

(** [for part in seg['content']: c += wi(part[0], 1)] *)
Fixpoint write_content (parts : list part) (c : Z) : writer Z :=
  match parts with
  | [] => mret c
  | p :: parts =>
      n ← match head p with
          | VInt num => wi num 1
          | VStr s => Raise (NoToBytes s)
          end;
      write_content parts (c + n)
  end.

(** The second loop over the segments. *)
Fixpoint write_segments (segments : list segment) (c : Z) : writer Z :=
  match segments with
  | [] => mret c
  | seg :: rest =>
      match offset seg with
      | None => Raise (Py (KeyError "offset"))
      | Some o =>
          c ← padto o c;
          c ← write_content (content seg) c;
          write_segments rest c
      end
  end.

(** What follows the reading of the input. *)
Definition emit (segments : list segment) : writer Z :=
  c ← write_elf_header segments;
  '(c, segments) ← program_headers segments c 0x1000;
  write_segments segments c.

(** [segment['content'] += parts], where [segment] is the dict appended
    last to [segments]; [None] when there is none yet. *)
Fixpoint add_content (segments : list segment) (parts : list part)
  : option (list segment) :=
  match segments with
  | [] => None
  | [seg] => Some [Segment (name seg) (addr seg) (content seg ++ parts) (offset seg)]
  | seg :: rest => cons seg <$> add_content rest parts
  end.

(** One iteration of the loop over [sys.stdin]. *)
Definition read_line (segments : list segment) (l : string) : outcome (list segment) :=
  match parse l with
  | Err e => Raise (Py e)
  | OK ln =>
      match body ln with
      | PSegment name (Some addr) => Done (segments ++ [Segment name addr [] None])%list
      | PSegment name None => Raise (Py (UnpackError 2 1))
      | PInstr parts =>
          match add_content segments parts with
          | None => Raise OutsideSegment
          | Some segments => Done segments
          end
      | _ => Raise NotSegmentOrInstr
      end
  end.

Fixpoint read (segments : list segment) (stdin : list string) : outcome (list segment) :=
  match stdin with
  | [] => Done segments
  | l :: stdin =>
      match read_line segments l with
      | Done segments => read segments stdin
      | Raise e => Raise e
      end
  end.

Definition main (stdin : list string) : outcome (list Z) :=
  match read [] stdin with
  | Raise e => Raise e
  | Done segments =>
      match emit segments with
      | Done (_, out) => Done out
      | Raise e => Raise e
      end
  end.

End Elf.

(** The bytes of the content of a segment, as [elf.py] writes them. *)
Definition content_bytes (parts : list Subv.part) : list Z :=
  omap (fun p => match Subv.head p with
                 | Subv.VInt n => Some n
                 | Subv.VStr _ => None
                 end) parts.

(** The [n] bytes of [out] from position [pos] on. *)
Definition bytes_at (out : list Z) (pos : Z) (n : nat) : list Z :=
  take n (drop (Z.to_nat pos) out).

(** The offsets the first loop of [elf.py] gives to the segments that
    follow [start] bytes of the file. *)
Fixpoint laid_out (start : Z) (placed : list Elf.segment) : Prop :=
  match placed with
  | [] => True
  | p :: rest =>
      Elf.offset p = Some ((1 + start / 4096) * 4096)
      /\ laid_out ((1 + start / 4096) * 4096 + Elf.len (Elf.content p)) rest
  end.

(** A part that [elf.py] can write as one byte. *)
Definition is_byte (p : Subv.part) : Prop :=
  exists n, Subv.head p = Subv.VInt n /\ 0 <= n < 256.

(** A segment that [elf.py] accepts: page aligned, at a 32-bit address, its
    content bytes. *)
Definition loadable (seg : Elf.segment) : Prop :=
  Elf.addr seg mod 4096 = 0 /\ 0 <= Elf.addr seg < 2 ^ 32
  /\ Forall is_byte (Elf.content seg).

(** A bound on the size of the file: a page and its content for each
    segment, after the [start] bytes before them. *)
Definition file_bound (start : Z) (segments : list Elf.segment) : Z :=
  start + foldr (fun seg acc => Elf.len (Elf.content seg) + 4096 + acc) 0 segments.

(** A character of a line of hex bytes. *)
Definition is_hex_or_blank (c : ascii) : bool := is_lower_hex c || (code c =? 32).

(** * Properties *)

Example u_doctest : Bits.u 0xff 8 = OK (255, 8) /\ Bits.u 0xf0 7 = Err (TooLargeU 240 8 7).
Proof. split; reflexivity. Qed.
Example i_doctest : Bits.i (-4) 8 = OK (252, 8) /\ Bits.i (-128) 8 = OK (128, 8)
  /\ Bits.i 128 8 = Err (TooLargeI 128 9 8 (-128) 127).
Proof. repeat split; reflexivity. Qed.
Example concat_doctest : Bits.concat [(1, 1); (6, 4); (6, 3)] = OK (205, 8).
Proof. reflexivity. Qed.
Example slice_doctest : Bits.slice (0x12345678, 32) 15 8 = OK (86, 8).
Proof. reflexivity. Qed.

Example strings_sanity :
  white_split " a  b. " = [""; "a"; "b"; ""] /\ split "/" "a//b" = ["a"; ""; "b"]
  /\ strip "  x y  " = "x y" /\ format_02x 0 = "00" /\ format_02x 0x123 = "123"
  /\ format_02x (-18) = "-12" /\ py_int 16 "-0x12" = OK (-18) /\ str_of_int (-7) = "-7"
  /\ hex_match "0x" = false /\ hex_match "-0x1f" = true /\ hex_match "1F" = false
  /\ slice_re_match "a:b[11:0]" = Some ("a:b", Some ("11", "0"))
  /\ field_re_match "off20" = Some ("off", "20").
Proof. repeat split; reflexivity. Qed.

(** ** The doctests of the sources *)

Section Doctests.
Import Subv.

Example parse_part_doctest :
  parse_part "0" = OK (Part (VInt 0) [])
  /\ parse_part "0x00" = OK (Part (VInt 0) [])
  /\ parse_part "0x12" = OK (Part (VInt 18) [])
  /\ parse_part "-12" = OK (Part (VInt (-18)) [])
  /\ parse_part "-12/and/tag" = OK (Part (VInt (-18)) [VStr "and"; VStr "tag"])
  /\ parse_part "label/tag*" = OK (Part (VStr "label") [VStr "tag*"])
  /\ parse_part "$label:suff[11:0]/tag*" = OK (Part (VStr "$label:suff[11:0]") [VStr "tag*"]).
Proof. repeat split; reflexivity. Qed.

Example parse_instr_doctest :
  parse_instr "ff/op 0/subop/add 1/rd/x1 label[11:0]/imm12"
  = OK [Part (VInt 255) [VStr "op"]; Part (VInt 0) [VStr "subop"; VStr "add"];
        Part (VInt 1) [VStr "rd"; VStr "x1"]; Part (VStr "label[11:0]") [VStr "imm12"]].
Proof. reflexivity. Qed.

Example parse_segment_doctest :
  parse_segment "== code 0x8000" = OK ("code", Some 32768)
  /\ parse_segment "== text" = OK ("text", None).
Proof. split; reflexivity. Qed.

Example parse_label_doctest :
  parse_label "some_label:" = "some_label" /\ parse_label "$some:label:" = "$some:label".
Proof. split; reflexivity. Qed.

Example parse_reference_doctest :
  parse_reference (Part (VStr "lbl") [VStr "imm32"])
  = OK (Reference "lbl" "imm" 32 [] None)
  /\ parse_reference (Part (VStr "x[11:0]") [VStr "off12"])
     = OK (Reference "x" "off" 12 [] (Some (11, 0))).
Proof. split; reflexivity. Qed.

Example classify_doctest :
  classify "" = empty /\ classify "== code" = segment
  /\ classify "== text 0x1000" = segment /\ classify "some_label:" = label
  /\ classify "$some:label:" = label
  /\ classify "ff/op 0/subop/add 1/rd/x1 label[11:0]/imm12" = instr.
Proof. repeat split; reflexivity. Qed.

Example untag_doctest :
  untag (Part (VInt 2) [VStr "num"]) None = OK (VInt 2)
  /\ untag (Part (VStr "$label") [VStr "imm20"]) (Some "imm20") = OK (VStr "$label")
  /\ untag (Part (VInt 2) [VStr "imm12"]) (Some "imm20") = Err (ExpectedLabelled "imm20").
Proof. repeat split; reflexivity. Qed.

Example format_part_doctest :
  format_part (Part (VInt 0) []) = "00"
  /\ format_part (Part (VStr "label") [VStr "tag*"]) = "label/tag*"
  /\ format_part (Part (VStr "$label:suff") [VStr "tag"]) = "$label:suff/tag".
Proof. repeat split; reflexivity. Qed.

Example default_slice_doctest :
  Format.default_slice (Part (VStr "label") [VStr "imm12"]) 12 1
  = OK (Part (VStr "label[12:1]") [VStr "imm12"])
  /\ Format.default_slice (Part (VStr "label[14:3]") [VStr "imm12"; VStr "extra"]) 12 1
     = OK (Part (VStr "label[14:3]") [VStr "imm12"; VStr "extra"])
  /\ Format.default_slice (Part (VStr "label[31:0]") [VStr "imm12"]) 11 0
     = Err (ExpectedBitSlice 12).
Proof. repeat split; reflexivity. Qed.

Example slice_bit_or_ref_doctest :
  Format.slice_bit_or_ref (Part (VStr "label[31:0]") [VStr "imm32"]) 12 1
  = OK (Part (VStr "label[12:1]") [VStr "imm12"])
  /\ Format.slice_bit_or_ref (Part (VStr "label[31:0]") [VStr "off32"]) 31 12
     = OK (Part (VStr "label[31:12]") [VStr "off20"])
  /\ Format.slice_bit_or_ref (Part (VStr "label[11:0]") [VStr "imm12"; VStr "extra"]) 15 4
     = Err SliceOutsideBounds
  /\ Format.slice_bit_or_ref (Part (VStr "label") [VStr "imm12"]) 12 1
     = Err SliceWithoutBounds.
Proof. repeat split; reflexivity. Qed.

Example pack_u_doctest :
  Format.pack_u [Part (VInt 0x37) [VStr "lui"]; Part (VInt 5) [VStr "rd"; VStr "t0"];
                 Part (VInt 0x10010) [VStr "imm20"]]
  = OK [to_pair (55, 7); to_pair (5, 5); to_pair (65552, 20)]
  /\ Format.pack_u [Part (VInt 0x37) [VStr "lui"]; Part (VInt 5) [VStr "rd"; VStr "t0"];
                    Part (VStr "pos") [VStr "imm20"]]
     = OK [to_pair (55, 7); to_pair (5, 5); Part (VStr "pos[31:12]") [VStr "imm20"]]
  /\ Format.pack_u [Part (VInt 0x37) [VStr "lui"]; Part (VInt 5) [VStr "rd"; VStr "t0"];
                    Part (VStr "pos[31:0]") [VStr "imm20"]]
     = Err (ExpectedBitSlice 20).
Proof. repeat split; reflexivity. Qed.

Example pack_i_doctest :
  Format.pack_i [Part (VInt 0x13) [VStr "opi"]; Part (VInt 0) [VStr "subop"; VStr "add"];
                 Part (VInt 6) [VStr "rd"; VStr "t1"]; Part (VInt 0) [VStr "rs"; VStr "x0"];
                 Part (VStr "label") [VStr "imm12"]]
  = OK [to_pair (19, 7); to_pair (6, 5); to_pair (0, 3); to_pair (0, 5);
        Part (VStr "label[11:0]") [VStr "imm12"]].
Proof. reflexivity. Qed.

Example pack_s_doctest :
  Format.pack_s [Part (VInt 0x23) [VStr "store"]; Part (VInt 2) [VStr "subop"; VStr "word"];
                 Part (VInt 5) [VStr "rs"; VStr "t0"]; Part (VInt 6) [VStr "rs"; VStr "t1"];
                 Part (VStr "home") [VStr "off12"]]
  = OK [to_pair (35, 7); Part (VStr "home[4:0]") [VStr "off5"]; to_pair (2, 3);
        to_pair (5, 5); to_pair (6, 5); Part (VStr "home[11:5]") [VStr "off7"]].
Proof. reflexivity. Qed.

Example pack_j_doctest :
  Format.pack_j [Part (VInt 0x6f) [VStr "jal"]; Part (VInt 0) [VStr "rd"; VStr "x0"];
                 Part (VInt (-2)) [VStr "off20"]]
  = OK [to_pair (111, 7); to_pair (0, 5); to_pair (255, 8); to_pair (1, 1);
        to_pair (1022, 10); to_pair (1, 1)]
  /\ Format.pack_j [Part (VInt 0x6f) [VStr "jal"]; Part (VInt 2) [VStr "rd"; VStr "x2"];
                    Part (VStr "home") [VStr "off20"]]
     = OK [to_pair (111, 7); to_pair (2, 5); Part (VStr "home[19:12]") [VStr "off8"];
           Part (VStr "home[11:11]") [VStr "off1"]; Part (VStr "home[10:1]") [VStr "off10"];
           Part (VStr "home[20:20]") [VStr "off1"]].
Proof. split; reflexivity. Qed.

Example pack_b_doctest :
  Format.pack_b [Part (VInt 0x63) [VStr "branch"]; Part (VInt 0) [VStr "subop"; VStr "=="];
                 Part (VInt 6) [VStr "rs"]; Part (VInt 0) [VStr "rs"];
                 Part (VInt (-2)) [VStr "off12"]]
  = OK [to_pair (99, 7); to_pair (1, 1); to_pair (14, 4); to_pair (0, 3); to_pair (6, 5);
        to_pair (0, 5); to_pair (63, 6); to_pair (1, 1)]
  /\ Format.pack_b [Part (VInt 0x63) [VStr "branch"]; Part (VInt 0) [VStr "subop"; VStr "=="];
                    Part (VInt 6) [VStr "rs"]; Part (VInt 0) [VStr "rs"];
                    Part (VStr "home") [VStr "off12"]]
     = OK [to_pair (99, 7); Part (VStr "home[11:11]") [VStr "off1"];
           Part (VStr "home[4:1]") [VStr "off4"]; to_pair (0, 3); to_pair (6, 5);
           to_pair (0, 5); Part (VStr "home[10:5]") [VStr "off6"];
           Part (VStr "home[12:12]") [VStr "off1"]].
Proof. split; reflexivity. Qed.

Example observe_doctest :
  let labels : gmap string Z := {[ "label" := 1234 ]} in
  Survey.observe (Part (VInt 3) [VStr "3"]) 0 ∅ = OK (Part (VInt 3) [VStr "3"])
  /\ Survey.observe (Part (VStr "label[31:0]") [VStr "imm32"]) 0 labels = OK (to_pair (1234, 32))
  /\ Survey.observe (Part (VStr "label[1:0]") [VStr "imm32"]) 0 labels = OK (to_pair (2, 2))
  /\ Survey.observe (Part (VStr "label[31:0]") [VStr "off32"]) 1000 labels = OK (to_pair (234, 32))
  /\ Survey.observe (Part (VStr "label[31:12]") [VStr "off32"]) 1000 labels = OK (to_pair (0, 20))
  /\ Survey.observe (Part (VStr "label[31:0]") [VStr "off32"]) 2000 {[ "label" := 1000 ]}
     = OK (to_pair (4294966296, 32))
  /\ Survey.observe (Part (VStr "label[32:0]") [VStr "imm32"]) 0 ∅ = Err (UndefinedLabel "label").
Proof. repeat split; vm_compute; reflexivity. Qed.

Example byteify_doctest :
  Pack.byteify (0x12345678, 32)
  = OK [Part (VInt 120) []; Part (VInt 86) []; Part (VInt 52) []; Part (VInt 18) []]
  /\ Pack.byteify (0x13, 9) = Err (NotByteAligned 9).
Proof. split; reflexivity. Qed.

Example from_part_doctest :
  Pack.from_part (Part (VInt 34) [VInt 2]) = OK (34, 2)
  /\ Pack.from_part (Part (VInt 34) [VInt 2; VStr "extra"]) = OK (34, 2).
Proof. split; reflexivity. Qed.

(** A header without base: [format] and [pack] go on, [survey] stops. *)
Example header_without_base :
  Format.format ["== text"; "start:"] = (["== text"; "start:"], None)
  /\ Pack.pack ["== text"; "12/8"] = (["== text"; "12"], None)
  /\ Survey.survey ["== text"; "start:"] = ([], Some (UnpackError 2 1)).
Proof. repeat split; vm_compute; reflexivity. Qed.

(** The order in which the interpreter meets the errors: [int()] does not
    drop the separators 0x1c to 0x1f that [str.strip()] drops;
    [parse_reference] matches the head before it looks at the tag; and
    [bits.slice] tests the range before it uses the width as a number. *)
Example error_order :
  py_int 10 (String (ascii_of_nat 28) "12")
  = Err (InvalidLiteral 10 (String (ascii_of_nat 28) "12"))
  /\ strip (String (ascii_of_nat 28) "12") = "12"
  /\ py_int 10 (String (ascii_of_nat 133) " 12 ") = OK 12
  /\ parse_reference (Part (VStr "a[") [VInt 3]) = Err NoMatch
  /\ parse_reference (Part (VStr "a") [VInt 3]) = Err TypeError
  /\ Format.slice_bit_or_ref (Part (VInt 10) [VStr "imm12"]) 2 3 = Err ReverseRange
  /\ Format.slice_bit_or_ref (Part (VInt 10) [VStr "imm12"]) 3 (-1)
     = Err (SliceOutOfRangeTag 3 (-1) "imm12")
  /\ Format.slice_bit_or_ref (Part (VInt 10) [VStr "imm12"]) 3 0 = Err TypeError
  /\ Format.slice_bit_or_ref (Part (VInt 10) [VInt 4; VInt 1]) 3 0
     = Err (UnpackError 2 3).
Proof. repeat split; reflexivity. Qed.

End Doctests.

(** ** Bit arithmetic *)

Section BitArithmetic.

Lemma bit_length_nonneg n : 0 <= bit_length n.
Proof.
  unfold bit_length. destruct (n =? 0); [lia|].
  pose proof (Z.log2_nonneg (Z.abs n)). lia.
Qed.

Lemma bit_length_le_iff n w : 0 <= n -> (bit_length n <= w <-> n < 2 ^ w).
Proof.
  intros Hn. unfold bit_length. destruct (Z.eqb_spec n 0) as [->|Hne].
  - destruct (Z.le_gt_cases 0 w) as [Hw|Hw].
    + pose proof (Z.pow_pos_nonneg 2 w). lia.
    + rewrite Z.pow_neg_r by lia. lia.
  - rewrite Z.abs_eq by lia.
    assert (0 < n) as Hpos by lia.
    pose proof (Z.log2_lt_pow2 n w Hpos). lia.
Qed.

Lemma u_ok_iff n w : Bits.u n w = OK (n, w) <-> 0 <= n /\ bit_length n <= w.
Proof.
  unfold Bits.u.
  destruct (Z.ltb_spec n 0); [split; [discriminate|lia]|].
  destruct (Z.gtb_spec (bit_length n) w); split; try discriminate; try lia; auto.
Qed.

Lemma u_ok_inv n w r : Bits.u n w = OK r -> r = (n, w) /\ 0 <= n < 2 ^ w.
Proof.
  unfold Bits.u.
  destruct (Z.ltb_spec n 0); [discriminate|].
  destruct (Z.gtb_spec (bit_length n) w); [discriminate|].
  intros [= <-]. split; [reflexivity|].
  split; [lia|]. apply bit_length_le_iff; lia.
Qed.

Lemma shl_nonneg a k : 0 <= k -> shl a k = OK (Z.shiftl a k).
Proof. intros H. unfold shl. destruct (Z.ltb_spec k 0); [lia|reflexivity]. Qed.

Lemma mask_ones k : Z.shiftl 1 k - 1 = Z.ones k.
Proof. unfold Z.ones. lia. Qed.

Lemma slice_ok val size hi lo :
  0 <= lo <= hi -> hi < size ->
  Bits.slice (val, size) hi lo
  = OK (Z.land (Z.shiftr val lo) (Z.ones (hi - lo + 1)), hi - lo + 1).
Proof.
  intros H1 H2. unfold Bits.slice.
  destruct (Z.ltb_spec hi lo); [lia|].
  destruct (Z.ltb_spec lo 0); [lia|].
  destruct (Z.geb_spec hi size); [lia|].
  simpl. now rewrite mask_ones.
Qed.

End BitArithmetic.

(** C8. [u(n, w)] returns [(n, w)] exactly when [n >= 0] and the bit length of
    [n] is at most [w], which is the same as [0 <= n < 2^w]; a negative [n]
    raises "negative value not allowed" and an [n >= 2^w] raises "too large".
    [u(0, 8)] and [u(255, 8)] succeed, [u(256, 8)] and [u(-1, 8)] fail.
    (For a negative [w] the power [2^w] is 0 in [Z]: no [n] fits and [u]
    always fails.) *)
Theorem u_succeeds_iff_fits (n w : Z) :
  (Bits.u n w = OK (n, w) <-> 0 <= n /\ bit_length n <= w)
  /\ ((0 <= n /\ bit_length n <= w) <-> 0 <= n < 2 ^ w)
  /\ (forall r, Bits.u n w = OK r -> r = (n, w))
  /\ (n < 0 -> Bits.u n w = Err (NegativeNotAllowed n))
  /\ (2 ^ w <= n -> Bits.u n w = Err (TooLargeU n (bit_length n) w))
  /\ Bits.u 0 8 = OK (0, 8) /\ Bits.u 255 8 = OK (255, 8)
  /\ Bits.u 256 8 = Err (TooLargeU 256 9 8)
  /\ Bits.u (-1) 8 = Err (NegativeNotAllowed (-1)).
Proof.
  split; [apply u_ok_iff|].
  split.
  { split; intros [H1 H2]; (split; [lia|]); apply bit_length_le_iff; lia. }
  split; [intros r Hr; now apply u_ok_inv in Hr|].
  split.
  { intros Hn. unfold Bits.u. destruct (Z.ltb_spec n 0); [reflexivity|lia]. }
  split; [|repeat split; reflexivity].
  intros Hbig. unfold Bits.u.
  assert (0 <= n) as Hn by (pose proof (Z.pow_nonneg 2 w); lia).
  destruct (Z.ltb_spec n 0); [lia|].
  destruct (Z.gtb_spec (bit_length n) w) as [|Hle]; [reflexivity|].
  apply bit_length_le_iff in Hle; lia.
Qed.

(** C7. For a width [w >= 1]: when [-2^(w-1) <= n <= 2^(w-1)-1], [i(n, w)]
    succeeds and is the bit-field [u(n mod 2^w, w)], a negative [n] becoming
    [2^w + n]; for any other [n], [i(n, w)] raises its range error. *)
Theorem i_is_u_of_mod (n w : Z) :
  1 <= w ->
  (- 2 ^ (w - 1) <= n <= 2 ^ (w - 1) - 1 ->
     Bits.i n w = Bits.u (n mod 2 ^ w) w
     /\ Bits.i n w = OK (n mod 2 ^ w, w)
     /\ (n < 0 -> n mod 2 ^ w = 2 ^ w + n))
  /\ (~ (- 2 ^ (w - 1) <= n <= 2 ^ (w - 1) - 1) ->
     Bits.i n w
     = Err (TooLargeI n (bit_length n + 1) w (- 2 ^ (w - 1)) (2 ^ (w - 1) - 1))).
Proof.
  intros Hw.
  assert (2 ^ w = 2 * 2 ^ (w - 1)) as Hpow.
  { replace w with (Z.succ (w - 1)) at 1 by lia. apply Z.pow_succ_r. lia. }
  assert (0 < 2 ^ (w - 1)) as Hhalf by (apply Z.pow_pos_nonneg; lia).
  unfold Bits.i. rewrite (shl_nonneg 1 (w - 1)) by lia.
  rewrite Z.shiftl_1_l. simpl mbind. unfold mbind, result_bind.
  replace (-1 - - 2 ^ (w - 1)) with (2 ^ (w - 1) - 1) by lia.
  split.
  - intros Hr.
    destruct (Z.gtb_spec n (2 ^ (w - 1) - 1)); [lia|].
    destruct (Z.ltb_spec n (- 2 ^ (w - 1))); [lia|]. simpl.
    assert (n mod 2 ^ w = if n <? 0 then 2 ^ w + n else n) as Hmod.
    { destruct (Z.ltb_spec n 0).
      - symmetry. apply (Z.mod_unique_pos _ _ (-1)); lia.
      - apply Z.mod_small; lia. }
    assert (Bits.u (n mod 2 ^ w) w = OK (n mod 2 ^ w, w)) as Hu.
    { apply u_ok_iff. pose proof (Z.mod_pos_bound n (2 ^ w)).
      split; [lia|]. apply bit_length_le_iff; lia. }
    rewrite Hu, Hmod.
    destruct (Z.ltb_spec n 0).
    + rewrite (shl_nonneg 1 w) by lia. rewrite Z.shiftl_1_l.
      rewrite Hmod in Hu. destruct (n <? 0) eqn:E in Hu; [|lia].
      split; [exact Hu|]. split; [exact Hu|]. reflexivity.
    + rewrite Hmod in Hu. destruct (n <? 0) eqn:E in Hu; [lia|].
      split; [exact Hu|]. split; [exact Hu|]. lia.
  - intros Hr.
    destruct (Z.gtb_spec n (2 ^ (w - 1) - 1)); [reflexivity|].
    destruct (Z.ltb_spec n (- 2 ^ (w - 1))); [reflexivity|]. lia.
Qed.

Lemma i_is_u_of_mod_witness :
  Bits.i (-4) 8 = Bits.u ((-4) mod 2 ^ 8) 8 /\ Bits.i (-4) 8 = OK (252, 8).
Proof.
  assert (1 <= 8) as Hw by lia.
  destruct (i_is_u_of_mod (-4) 8 Hw) as [Hin _].
  destruct Hin as (H1 & H2 & _); [lia|].
  split; [exact H1|exact H2].
Defined.

(** C2, as the code has it.  [concat] lays its arguments out low-to-high, so
    the low slice comes first:
    [concat(slice(x, mid, lo), slice(x, hi, mid+1)) == slice(x, hi, lo)]
    for [0 <= lo <= mid < hi < x.width]. *)
Theorem concat_slices_low_first (val size hi mid lo : Z) :
  0 <= lo -> lo <= mid -> mid < hi -> hi < size ->
  exists a b,
    Bits.slice (val, size) mid lo = OK a
    /\ Bits.slice (val, size) hi (mid + 1) = OK b
    /\ Bits.concat [a; b] = Bits.slice (val, size) hi lo.
Proof.
  intros H0 H1 H2 H3.
  rewrite !slice_ok by lia.
  eexists; eexists. split; [reflexivity|]. split; [reflexivity|].
  unfold Bits.concat, Bits.concat_loop.
  rewrite (shl_nonneg _ 0) by lia. simpl mbind. unfold mbind, result_bind.
  rewrite Z.add_0_l, shl_nonneg by lia.
  f_equal. f_equal; [|lia].
  rewrite Z.shiftl_0_r, Z.lor_0_l.
  apply Z.bits_inj'. intros k Hk.
  rewrite Z.lor_spec, !Z.land_spec, Z.shiftl_spec by lia.
  rewrite !Z.shiftr_spec by lia.
  destruct (Z.lt_ge_cases k (mid - lo + 1)) as [Hlt|Hge].
  - rewrite (Z.testbit_neg_r _ (k - _)) by lia.
    rewrite !Z.testbit_ones_nonneg by lia.
    rewrite orb_false_r.
    destruct (Z.ltb_spec k (mid - lo + 1)), (Z.ltb_spec k (hi - lo + 1)); try lia.
    reflexivity.
  - rewrite Z.land_spec, Z.shiftr_spec by lia.
    rewrite !Z.testbit_ones_nonneg by lia.
    replace (k - (mid - lo + 1) + (mid + 1)) with (k + lo) by lia.
    destruct (Z.ltb_spec k (mid - lo + 1)); [lia|].
    rewrite andb_false_r, orb_false_l.
    destruct (Z.ltb_spec (k - (mid - lo + 1)) (hi - (mid + 1) + 1)),
             (Z.ltb_spec k (hi - lo + 1)); try lia; reflexivity.
Qed.

Lemma concat_slices_low_first_witness :
  exists a b,
    Bits.slice (0x12345678, 32) 7 0 = OK a
    /\ Bits.slice (0x12345678, 32) 15 8 = OK b
    /\ Bits.concat [a; b] = Bits.slice (0x12345678, 32) 15 0.
Proof. apply (concat_slices_low_first 0x12345678 32 15 7 0); lia. Defined.

(** C2 as the claim orders the arguments fails: on the two-bit field
    [(0b01, 2)] with [lo = mid = 0] and [hi = 1], putting the high slice
    first gives [(2, 2)], while [slice(x, 1, 0)] is [(1, 2)]. *)
Lemma concat_slices_high_first_counterexample :
  ~ (forall (val size hi mid lo : Z),
       0 <= lo -> lo <= mid -> mid < hi -> hi < size ->
       forall a b,
         Bits.slice (val, size) hi (mid + 1) = OK a ->
         Bits.slice (val, size) mid lo = OK b ->
         Bits.concat [a; b] = Bits.slice (val, size) hi lo).
Proof.
  intros H.
  specialize (H 1 2 1 0 0 ltac:(lia) ltac:(lia) ltac:(lia) ltac:(lia)
                (0, 1) (1, 1) eq_refl eq_refl).
  discriminate H.
Qed.

(** ** The result monad *)

Lemma bind_ok {A B} (m : result A) (f : A -> result B) (b : B) :
  m ≫= f = OK b -> exists a, m = OK a /\ f a = OK b.
Proof. destruct m as [a|e]; [eauto|discriminate]. Qed.

Lemma fmap_ok {A B} (f : A -> B) (m : result A) (b : B) :
  f <$> m = OK b -> exists a, m = OK a /\ b = f a.
Proof. destruct m as [a|e]; [intros [= <-]; eauto|discriminate]. Qed.

Lemma bind_OK {A B} (a : A) (f : A -> result B) : OK a ≫= f = f a.
Proof. reflexivity. Qed.

Lemma bind_fails {A B} (m : result A) (f : A -> result B) :
  fails m -> fails (m ≫= f).
Proof. intros [e ->]. now exists e. Qed.

Lemma bind_fails_later {A B} (m : result A) (f : A -> result B) :
  (forall a, m = OK a -> fails (f a)) -> fails (m ≫= f).
Proof. destruct m as [a|e]; [intros H; now apply H|intros _; now exists e]. Qed.

Ltac inv_ok H :=
  let a := fresh "x" in
  let Ha := fresh "H" a in
  lazymatch type of H with
  | fmap _ _ = OK _ => apply fmap_ok in H as (a & Ha & H)
  | mbind _ _ = OK _ => apply bind_ok in H as (a & Ha & H)
  end.

(** ** The parser never rejects an instruction line *)

Section ParserTotal.
Import Subv.

Lemma span_spec p s : forall ds rest,
  span p s = (ds, rest) -> s = ds ++ rest /\ all_chars p ds = true.
Proof.
  induction s as [|c s IH]; simpl; intros ds rest H.
  - now injection H as <- <-.
  - destruct (p c) eqn:Hc.
    + destruct (span p s) as [a b]. injection H as <- <-.
      destruct (IH a b eq_refl) as [-> Hall]. split; [reflexivity|].
      simpl. now rewrite Hc.
    + now injection H as <- <-.
Qed.

Lemma lower_hex_char c :
  is_lower_hex c = true ->
  is_space c = false /\ (code c =? 95) = false /\ (code c =? 45) = false
  /\ (code c =? 43) = false /\ (code c =? 120) = false /\ (code c =? 88) = false
  /\ exists d, digit_val c = Some d /\ (d <? 16) = true.
Proof.
  unfold is_lower_hex, is_digit, is_space, digit_val, between.
  set (n := code c). intros H.
  apply orb_true_iff in H.
  rewrite !andb_true_iff, !Z.leb_le in H.
  repeat split;
    try (apply not_true_iff_false; intros Hs;
         rewrite ?orb_true_iff, ?andb_true_iff, ?Z.leb_le, ?Z.eqb_eq in Hs; lia).
  destruct ((48 <=? n) && (n <=? 57)) eqn:E1.
  - apply andb_true_iff in E1. rewrite !Z.leb_le in E1.
    eexists. split; [reflexivity|]. apply Z.ltb_lt. lia.
  - destruct ((97 <=? n) && (n <=? 122)) eqn:E2.
    + eexists. split; [reflexivity|]. apply Z.ltb_lt.
      apply andb_false_iff in E1. rewrite !Z.leb_gt in E1. lia.
    + apply andb_false_iff in E1. apply andb_false_iff in E2.
      rewrite !Z.leb_gt in E1, E2. lia.
Qed.

Lemma digits_lower_hex ds : forall acc,
  all_chars is_lower_hex ds = true -> exists v, digits 16 acc false ds = Some v.
Proof.
  induction ds as [|c ds IH]; simpl; intros acc H; [eauto|].
  apply andb_true_iff in H as [Hc Hds].
  destruct (lower_hex_char c Hc) as (_ & -> & _ & _ & _ & _ & d & -> & ->).
  now apply IH.
Qed.

Lemma rstrip_cons c r : is_space c = false -> rstrip (String c r) = String c (rstrip r).
Proof. intros H. simpl. destruct (rstrip r); [now rewrite H|reflexivity]. Qed.

Lemma rstrip_dollar rest : at_dollar rest = true -> rstrip rest = EmptyString.
Proof.
  destruct rest as [|c [|]]; simpl; try discriminate; [reflexivity|].
  intros H. apply Z.eqb_eq in H. unfold is_space, between. now rewrite H.
Qed.

Lemma rstrip_lower_hex ds rest :
  all_chars is_lower_hex ds = true -> at_dollar rest = true ->
  rstrip (ds ++ rest) = ds.
Proof.
  intros Hds Hrest. induction ds as [|c ds IH].
  - now apply rstrip_dollar.
  - simpl in Hds. apply andb_true_iff in Hds as [Hc Hds].
    change (String c ds ++ rest) with (String c (ds ++ rest)).
    rewrite rstrip_cons by apply (lower_hex_char c Hc). now rewrite IH.
Qed.

Lemma int_space_is_space c : is_space c = false -> is_int_space c = false.
Proof.
  unfold is_space, is_int_space, between. set (n := code c). intros H.
  apply not_true_iff_false. intros Hs. apply not_true_iff_false in H. apply H.
  rewrite !orb_true_iff, !andb_true_iff, !Z.leb_le, !Z.eqb_eq in *. lia.
Qed.

Lemma int_rstrip_cons c r :
  is_int_space c = false -> int_rstrip (String c r) = String c (int_rstrip r).
Proof. intros H. simpl. destruct (int_rstrip r); [now rewrite H|reflexivity]. Qed.

Lemma int_rstrip_dollar rest : at_dollar rest = true -> int_rstrip rest = EmptyString.
Proof.
  destruct rest as [|c [|]]; simpl; try discriminate; [reflexivity|].
  intros H. apply Z.eqb_eq in H. unfold is_int_space, between. now rewrite H.
Qed.

Lemma int_rstrip_lower_hex ds rest :
  all_chars is_lower_hex ds = true -> at_dollar rest = true ->
  int_rstrip (ds ++ rest) = ds.
Proof.
  intros Hds Hrest. induction ds as [|c ds IH].
  - now apply int_rstrip_dollar.
  - simpl in Hds. apply andb_true_iff in Hds as [Hc Hds].
    change (String c ds ++ rest) with (String c (ds ++ rest)).
    rewrite int_rstrip_cons by apply int_space_is_space, (lower_hex_char c Hc).
    now rewrite IH.
Qed.

(** A text matching [[0-9a-f]+$] is a literal of base 16. *)
Lemma hex_body_uint t :
  hex_body t = true ->
  exists c ds v, int_rstrip t = String c ds /\ is_lower_hex c = true
                 /\ all_chars is_lower_hex ds = true
                 /\ py_uint 16 (String c ds) = Some v
                 /\ exists r, t = String c r.
Proof.
  unfold hex_body. destruct (span is_lower_hex t) as [ds rest] eqn:Hspan.
  intros H. apply andb_true_iff in H as [Hne Hrest].
  apply span_spec in Hspan as [-> Hall].
  destruct ds as [|c ds]; [discriminate|].
  simpl in Hall. apply andb_true_iff in Hall as [Hc Hds].
  destruct (lower_hex_char c Hc) as (_ & Hus & _ & _ & _ & _ & _).
  destruct (digits_lower_hex (String c ds) 0) as [v Hv].
  { simpl. now rewrite Hc. }
  exists c, ds, v. rewrite int_rstrip_lower_hex by (simpl; rewrite ?Hc; auto).
  repeat split; auto; [|eexists; reflexivity].
  unfold py_uint. destruct ds as [|x r].
  - now rewrite Hus.
  - simpl in Hds. apply andb_true_iff in Hds as [Hx _].
    destruct (lower_hex_char x Hx) as (_ & _ & _ & _ & -> & -> & _).
    rewrite !andb_false_r. now rewrite Hus.
Qed.

Lemma hex_unsigned_uint s :
  hex_unsigned s = true ->
  exists c r, s = String c r /\ (code c =? 45) = false /\ (code c =? 43) = false
              /\ is_int_space c = false
              /\ exists v, py_uint 16 (int_rstrip s) = Some v.
Proof.
  assert (forall t, hex_body t = true ->
    exists c r, t = String c r /\ (code c =? 45) = false /\ (code c =? 43) = false
                /\ is_int_space c = false
                /\ exists v, py_uint 16 (int_rstrip t) = Some v) as Hbody.
  { intros t Ht. destruct (hex_body_uint t Ht) as (c & ds & v & Hrs & Hc & _ & Hv & r & ->).
    destruct (lower_hex_char c Hc) as (Hsp & _ & Hm & Hp & _).
    apply int_space_is_space in Hsp.
    exists c, r. rewrite Hrs. eauto 10. }
  unfold hex_unsigned. destruct s as [|c [|x r]]; try apply Hbody.
  destruct ((code c =? 48) && (code x =? 120)) eqn:E; [|apply Hbody].
  apply andb_true_iff in E as [Hc Hx]. apply Z.eqb_eq in Hc, Hx.
  intros H. apply orb_true_iff in H as [Hr|Hs]; [|now apply Hbody].
  destruct (hex_body_uint r Hr) as (d & ds & v & Hrs & Hd & Hds & Hv & _).
  assert (is_int_space c = false) as Hcs by (unfold is_int_space, between; now rewrite Hc).
  assert (is_int_space x = false) as Hxs by (unfold is_int_space, between; now rewrite Hx).
  exists c, (String x r). rewrite !int_rstrip_cons, Hrs by assumption.
  rewrite Hc. repeat split; auto.
  destruct (digits_lower_hex (String d ds) 0) as [w Hw].
  { simpl. now rewrite Hd. }
  exists w. unfold py_uint. rewrite Hc, Hx. simpl.
  destruct (lower_hex_char d Hd) as (_ & Hus & _). rewrite Hus.
  cbv beta iota. rewrite Hus. exact Hw.
Qed.

Lemma hex_match_int h : hex_match h = true -> exists n, py_int 16 h = OK n.
Proof.
  unfold hex_match, py_int, int_strip. destruct h as [|c r].
  - intros H. discriminate H.
  - destruct (code c =? 45) eqn:Hminus.
    + intros H. destruct (hex_unsigned_uint r H) as (_ & _ & _ & _ & _ & _ & v & Hv).
      assert (is_int_space c = false) as Hcs.
      { apply Z.eqb_eq in Hminus. unfold is_int_space, between. now rewrite Hminus. }
      simpl int_lstrip. rewrite Hcs, int_rstrip_cons, Hminus, Hv by assumption. eauto.
    + intros H.
      destruct (hex_unsigned_uint _ H) as (c' & r' & [= <- <-] & _ & Hplus & Hcs & v & Hv).
      simpl int_lstrip. rewrite Hcs. rewrite int_rstrip_cons in * by assumption.
      rewrite Hminus, Hplus, Hv. eauto.
Qed.

Lemma parse_part_total s : exists p, parse_part s = OK p.
Proof.
  unfold parse_part. destruct (split "/" s) as [|h t] eqn:Hs.
  - destruct s as [|c s]; simpl in Hs; [discriminate|].
    destruct (Ascii.eqb c "/"); [discriminate|].
    destruct (split "/" s); discriminate.
  - destruct (hex_match h) eqn:Hh; [|eauto].
    destruct (hex_match_int h Hh) as [n ->]. simpl. eauto.
Qed.

Lemma mapM_total {A B} (f : A -> result B) (l : list A) :
  (forall x, exists y, f x = OK y) -> exists ys, mapM f l = OK ys.
Proof.
  intros Hf. induction l as [|x l [ys IH]]; simpl; [eauto|].
  destruct (Hf x) as [y ->]. rewrite IH. simpl. eauto.
Qed.

Lemma parse_instr_total l : exists parts, parse_instr l = OK parts.
Proof. unfold parse_instr. apply mapM_total, parse_part_total. Qed.

(** A line whose cleaned text is classified [instr] is parsed, and its
    parsed form is an instruction. *)
Lemma parse_instr_line l :
  classify (clean_text l) = instr ->
  exists ln parts, parse l = OK ln /\ body ln = PInstr parts /\ raw ln = strip l.
Proof.
  unfold clean_text, parse. destruct (split1 "#" (strip l)) as [clean cm]. simpl.
  intros ->. destruct (parse_instr_total clean) as [parts ->]. simpl. eauto.
Qed.

End ParserTotal.

(** ** The Format stage *)

Section FormatStage.
Import Subv Format.

Lemma type_instr ln parts : body ln = PInstr parts -> type ln = instr.
Proof. unfold type. now intros ->. Qed.

Lemma format_step_echo seg l ln parts :
  parse l = OK ln -> body ln = PInstr parts -> segment_is seg "code" = false ->
  format_step seg l = OK (raw ln, seg).
Proof.
  intros Hp Hb Hs. unfold format_step. rewrite Hp. simpl.
  rewrite Hs. simpl. unfold type. now rewrite Hb.
Qed.

Lemma format_step_code seg l ln parts :
  parse l = OK ln -> body ln = PInstr parts -> segment_is seg "code" = true ->
  format_step seg l
  = (ps ← format_instr parts; out ← Subv.format (set_instr ln ps); OK (out, seg)).
Proof.
  intros Hp Hb Hs. unfold format_step. rewrite Hp. simpl.
  rewrite Hs. unfold type, get_instr. now rewrite Hb.
Qed.

Lemma format_step_segment seg l out seg' :
  format_step seg l = OK (out, seg') ->
  seg' = match header_name l with Some n => Some n | None => seg end.
Proof.
  unfold format_step, header_name. destruct (parse l) as [ln|e]; [simpl|discriminate].
  unfold type, get_instr, get_segment.
  destruct (body ln) eqn:Hb; simpl; rewrite ?andb_false_r; simpl;
    try (intros [= _ <-]; reflexivity).
  destruct (segment_is seg "code"); simpl.
  - intros H. inv_ok H. inv_ok H. now injection H as _ <-.
  - now intros [= _ <-].
Qed.

Lemma segment_is_spec seg name : segment_is seg name = true <-> seg = Some name.
Proof.
  destruct seg as [s|]; simpl; [|split; discriminate].
  rewrite String.eqb_eq. split; [now intros ->|now intros [= ->]].
Qed.

Lemma format_loop_app pre : forall seg rest,
  snd (format_loop seg pre) = None ->
  length (fst (format_loop seg pre)) = length pre
  /\ format_loop seg (pre ++ rest)
     = ((fst (format_loop seg pre) ++ fst (format_loop (last_header_from seg pre) rest))%list,
        snd (format_loop (last_header_from seg pre) rest)).
Proof.
  induction pre as [|l pre IH]; intros seg rest Hok; simpl in *.
  - split; [reflexivity|]. now destruct (format_loop seg rest).
  - destruct (format_step seg l) as [[out seg']|e] eqn:Hstep; [|discriminate].
    pose proof (format_step_segment _ _ _ _ Hstep) as <-.
    simpl in Hok. destruct (IH seg' rest Hok) as [Hlen Happ].
    simpl. rewrite Hlen, Happ. split; reflexivity.
Qed.

End FormatStage.

(** C10. The Format stage rewrites an instruction line only when the most
    recent segment header names [code].  An instruction line that comes
    before any header, or after a header with another name, is yielded as its
    raw text (the stripped input line) whatever its parts are: no packer is
    called.  After a [code] header the line is yielded exactly when the
    packer accepts it, as the print of the packer's output. *)
Theorem format_rewrites_only_in_code (pre post : list string) (l : string) :
  snd (Format.format pre) = None ->
  Subv.classify (clean_text l) = Subv.instr ->
  let out := fst (Format.format (pre ++ l :: post)) in
  exists ln parts,
    Subv.parse l = OK ln
    /\ Subv.body ln = Subv.PInstr parts
    /\ (last_header pre <> Some "code" -> out !! length pre = Some (strip l))
    /\ (last_header pre = Some "code" ->
        out !! length pre
        = match ps ← Format.format_instr parts; Subv.format (Subv.set_instr ln ps) with
          | OK o => Some o
          | Err _ => None
          end).
Proof.
  intros Hpre Hcls out. subst out.
  destruct (parse_instr_line l Hcls) as (ln & parts & Hp & Hb & Hraw).
  exists ln, parts. split; [assumption|]. split; [assumption|].
  destruct (format_loop_app pre None (l :: post) Hpre) as [Hlen Happ].
  unfold Format.format, last_header in *. rewrite Happ. simpl fst.
  rewrite lookup_app_r by lia. rewrite Hlen, Nat.sub_diag.
  set (seg := last_header_from None pre). simpl.
  split.
  - intros Hne.
    assert (segment_is seg "code" = false) as Hs.
    { destruct (segment_is seg "code") eqn:E; [|reflexivity].
      apply segment_is_spec in E. contradiction. }
    rewrite (format_step_echo _ _ _ _ Hp Hb Hs), <- Hraw. reflexivity.
  - intros Heq. apply segment_is_spec in Heq.
    rewrite (format_step_code _ _ _ _ Hp Hb Heq).
    destruct (Format.format_instr parts) as [ps|e]; simpl; [|reflexivity].
    destruct (Subv.format (Subv.set_instr ln ps)) as [o'|e] eqn:Hf; reflexivity.
Qed.

(** ** The packers *)

Section Packers.
Import Subv Format.

Lemma i_ok_inv n w r : Bits.i n w = OK r -> snd r = w /\ 1 <= w.
Proof.
  unfold Bits.i, shl. destruct (Z.ltb_spec (w - 1) 0) as [|Hw]; [discriminate|]. simpl.
  destruct (_ || _); [discriminate|].
  intros Hi. inv_ok Hi. apply u_ok_inv in Hi as [-> _]. simpl. lia.
Qed.


Lemma untag_ok p e a : untag p e = OK a -> a = head p.
Proof.
  unfold untag. destruct e as [[|c e]|]; try (now intros [= <-]).
  destruct (tags p) as [|t ts]; [discriminate|].
  destruct (atom_eqb t _); [now intros [= <-]|discriminate].
Qed.

Lemma untag_u_ok p e b q :
  untag_u p e b = OK q ->
  exists n, head p = VInt n /\ q = to_pair (n, b) /\ 0 <= n < 2 ^ b.
Proof.
  unfold untag_u. intros H. inv_ok H. inv_ok H. inv_ok H.
  apply untag_ok in Hx. subst x.
  destruct (head p) as [n|s]; [|discriminate]. injection Hx0 as <-.
  apply u_ok_inv in Hx1 as [-> Hr]. subst q. eauto.
Qed.


Lemma default_slice_ok val hi lo q :
  default_slice val hi lo = OK q -> is_reference q = true.
Proof.
  unfold default_slice. intros H. inv_ok H.
  destruct (bounds x) as [[h l]|]; destruct (negb _); try discriminate;
    now injection H as <-.
Qed.











End Packers.

Section OpcodeField.
Import Subv Format.





End OpcodeField.


Section DefaultSlice.
Import Subv Format.

Lemma parse_reference_is_reference val r :
  parse_reference val = OK r -> is_reference val = true.
Proof.
  unfold parse_reference, is_reference.
  destruct (head val), (tags val); try discriminate; reflexivity.
Qed.

Lemma default_slice_explicit val hi lo r h l :
  parse_reference val = OK r -> bounds r = Some (h, l) ->
  default_slice val hi lo
  = if size r =? h - l + 1
    then OK (Part (VStr (render_ref (ref_label r) h l)) (tags val))
    else Err (ExpectedBitSlice (size r)).
Proof.
  intros Hr Hb. unfold default_slice. rewrite Hr. simpl. rewrite Hb.
  now destruct (size r =? h - l + 1).
Qed.

Lemma packers_reject val operands :
  is_reference val = true ->
  (forall hi lo, fails (default_slice val hi lo)) ->
  forall f, In f [pack_u; pack_i; pack_s; pack_j; pack_b] ->
  fails (f (operands ++ [val])%list).
Proof.
  intros Href Hds f Hf.
  assert (forall hi lo e b,
    fails (if is_reference val then default_slice val hi lo else untag_i val e b)) as Himm.
  { intros. rewrite Href. apply Hds. }
  simpl in Hf.
  destruct Hf as [<-|[<-|[<-|[<-|[<-|[]]]]]];
    destruct operands as [|? [|? [|? [|? [|? [|? ?]]]]]]; simpl;
    try (eexists; reflexivity);
    repeat match goal with
           | |- fails (untag_u _ _ _ ≫= _) => apply bind_fails_later; intros ? _
           end;
    apply bind_fails; apply Himm.
Qed.

End DefaultSlice.

(** What [default_slice] compares.  When a symbolic immediate already
    carries a slice [[h:l]], [default_slice] compares the slice width
    [h - l + 1] with the width declared in the reference's own [immN]/[offN]
    tag, not with the width the instruction format requires.  When the two
    agree the reference is accepted whatever default range the format
    passes; when they differ [default_slice] raises "expected N bit slice"
    and every packer fails. *)
Theorem default_slice_checks_declared_width
    (val : Subv.part) (r : Subv.reference) (h l : Z) :
  Subv.parse_reference val = OK r ->
  Subv.bounds r = Some (h, l) ->
  (Subv.size r = h - l + 1 ->
     forall hi lo,
       Format.default_slice val hi lo
       = OK (Subv.Part (Subv.VStr (Format.render_ref (Subv.ref_label r) h l)) (Subv.tags val)))
  /\ (Subv.size r <> h - l + 1 ->
      (forall hi lo,
         Format.default_slice val hi lo = Err (ExpectedBitSlice (Subv.size r)))
      /\ (forall f operands,
            In f [Format.pack_u; Format.pack_i; Format.pack_s; Format.pack_j; Format.pack_b] ->
            fails (f (operands ++ [val])%list))).
Proof.
  intros Hr Hb. split.
  - intros Heq hi lo. rewrite (default_slice_explicit _ _ _ _ _ _ Hr Hb).
    destruct (Z.eqb_spec (Subv.size r) (h - l + 1)); [reflexivity|contradiction].
  - intros Hne.
    assert (forall hi lo,
      Format.default_slice val hi lo = Err (ExpectedBitSlice (Subv.size r))) as Hds.
    { intros hi lo. rewrite (default_slice_explicit _ _ _ _ _ _ Hr Hb).
      destruct (Z.eqb_spec (Subv.size r) (h - l + 1)); [contradiction|reflexivity]. }
    split; [exact Hds|].
    intros f operands Hf. apply packers_reject; [|intros; eexists; apply Hds|exact Hf].
    eapply parse_reference_is_reference; eauto.
Qed.

Lemma default_slice_checks_declared_width_witness :
  Format.default_slice (Subv.Part (Subv.VStr "pos[31:0]") [Subv.VStr "imm20"]) 31 12
  = Err (ExpectedBitSlice 20)
  /\ fails (Format.pack_u [Subv.Part (Subv.VInt 0x37) [Subv.VStr "lui"];
                           Subv.Part (Subv.VInt 5) [Subv.VStr "rd"; Subv.VStr "t0"];
                           Subv.Part (Subv.VStr "pos[31:0]") [Subv.VStr "imm20"]]).
Proof.
  destruct (default_slice_checks_declared_width
              (Subv.Part (Subv.VStr "pos[31:0]") [Subv.VStr "imm20"])
              (Subv.Reference "pos" "imm" 20 [] (Some (31, 0))) 31 0
              eq_refl eq_refl) as [_ Hbad].
  destruct Hbad as [Hds Hpack]; [discriminate|].
  split; [apply Hds|].
  apply (Hpack Format.pack_u
           [Subv.Part (Subv.VInt 0x37) [Subv.VStr "lui"];
            Subv.Part (Subv.VInt 5) [Subv.VStr "rd"; Subv.VStr "t0"]]).
  simpl. auto.
Defined.

(** A U-type instruction accepts the sliced reference [pos[11:0]/imm12],
    whose slice is 12 bits wide and not the 20 bits of the format, because
    the slice agrees with its own tag. *)
Lemma u_type_accepts_narrow_slice_counterexample :
  Format.format ["== code 0x80000000"; "37/lui 5/rd/t0 pos[11:0]/imm12"]
  = (["== code 0x80000000"; "37/7 05/5 pos[11:0]/imm12"], None)
  /\ Format.pack_u [Subv.Part (Subv.VInt 0x37) [Subv.VStr "lui"];
                    Subv.Part (Subv.VInt 5) [Subv.VStr "rd"; Subv.VStr "t0"];
                    Subv.Part (Subv.VStr "pos[11:0]") [Subv.VStr "imm12"]]
     = OK [to_pair (0x37, 7); to_pair (5, 5);
           Subv.Part (Subv.VStr "pos[11:0]") [Subv.VStr "imm12"]]
  /\ 11 - 0 + 1 <> 20.
Proof. split; [|split]; [vm_compute; reflexivity|vm_compute; reflexivity|lia]. Qed.

(** ** The Survey stage *)

Section SurveyStage.
Import Subv Survey.

Lemma pass1_step_header_without_base st l ln name :
  parse l = OK ln -> body ln = PSegment name None ->
  pass1_step st l = Err (UnpackError 2 1).
Proof. intros Hp Hb. unfold pass1_step. rewrite Hp. simpl. now rewrite Hb. Qed.

Lemma pass1_fails_at l ls :
  In l ls -> (forall st, fails (pass1_step st l)) ->
  forall st, fails (pass1 st ls).
Proof.
  intros Hin Hl. induction ls as [|l' ls IH]; [destruct Hin|].
  intros st. simpl.
  destruct Hin as [->|Hin].
  - apply bind_fails, Hl.
  - apply bind_fails_later. intros st' _. now apply IH.
Qed.

End SurveyStage.

(** C5.  A segment header without a base address stops Survey: the first
    pass unpacks the header into a name and an address, and the one-item
    tuple that [parse_segment] returns for [== name] raises there.  As the
    first pass runs before anything is yielded, Survey yields no line at all
    for a stream that contains such a header; no address 0 is assumed. *)
Theorem survey_fails_on_header_without_base
    (iter : list string) (l name : string) (ln : Subv.pline) :
  In l iter ->
  Subv.parse l = OK ln ->
  Subv.body ln = Subv.PSegment name None ->
  (forall st, Survey.pass1_step st l = Err (UnpackError 2 1))
  /\ exists e, Survey.survey iter = ([], Some e).
Proof.
  intros Hin Hp Hb.
  assert (forall st, Survey.pass1_step st l = Err (UnpackError 2 1)) as Hstep.
  { intros st. eapply pass1_step_header_without_base; eauto. }
  split; [exact Hstep|].
  destruct (pass1_fails_at l iter Hin (fun st => ex_intro _ _ (Hstep st)) Survey.initial)
    as [e He].
  exists e. unfold Survey.survey. now rewrite He.
Qed.

Lemma survey_fails_on_header_without_base_witness :
  Subv.parse_segment "== text" = OK ("text", None)
  /\ exists e, Survey.survey ["== text"; "start:"; "13/7 06/5 00/3 00/5 48/12"]
               = ([], Some e).
Proof.
  split; [reflexivity|].
  apply (survey_fails_on_header_without_base
           ["== text"; "start:"; "13/7 06/5 00/3 00/5 48/12"] "== text" "text"
           (Subv.Line "== text" "== text" None (Subv.PSegment "text" None))).
  - simpl. auto.
  - reflexivity.
  - reflexivity.
Defined.

(** ** Comments through the stages *)

Section Comments.
Import Subv.

Lemma split1_some sep s a b :
  split1 sep s = (a, Some b) -> s = a ++ String sep b.
Proof.
  revert a. induction s as [|c s IH]; intros a; simpl; [discriminate|].
  destruct (Ascii.eqb_spec c sep) as [->|Hne].
  - now intros [= <- <-].
  - destruct (split1 sep s) as [a' b'] eqn:E. intros [= <- ->].
    rewrite (IH a' eq_refl). reflexivity.
Qed.

(** What [parse] stores: the stripped line, cut at its first [#]. *)
Lemma parse_fields l ln :
  parse l = OK ln ->
  raw ln = strip l /\ split1 "#" (strip l) = (line ln, comment ln).
Proof.
  unfold parse. destruct (split1 "#" (strip l)) as [clean cm].
  intros H. inv_ok H. injection H as <-. auto.
Qed.

Lemma parse_raw_comment l ln c :
  parse l = OK ln -> comment ln = Some c -> raw ln = line ln ++ "#" ++ c.
Proof.
  intros Hp Hc. apply parse_fields in Hp as [-> Hs]. rewrite Hc in Hs.
  now apply split1_some in Hs.
Qed.

(** The printer re-attaches a non-empty comment after [" # "]. *)
Lemma format_comment ln parts c out :
  comment ln = Some c -> c <> EmptyString ->
  Subv.format (set_instr ln parts) = OK out ->
  out = join " " (format_part <$> parts) ++ " # " ++ c.
Proof.
  intros Hc Hne. unfold Subv.format, set_instr, type, get_instr. simpl.
  rewrite Hc. destruct c; [contradiction|]. now intros [= <-].
Qed.

Lemma format_step_comment seg l ln c out seg' :
  parse l = OK ln -> comment ln = Some c -> c <> EmptyString ->
  Format.format_step seg l = OK (out, seg') ->
  out = raw ln
  \/ (segment_is seg "code" = true
      /\ exists parts, type ln = instr /\ out = join " " (format_part <$> parts) ++ " # " ++ c).
Proof.
  intros Hp Hc Hne. unfold Format.format_step. rewrite Hp. simpl.
  destruct (segment_is seg "code" && ltype_eqb (type ln) instr) eqn:E.
  - apply andb_prop in E as [Hs Ht].
    intros H. inv_ok H. inv_ok H. inv_ok H. injection H as <- _.
    right. split; [assumption|]. exists x0. split.
    + now destruct (type ln).
    + eapply format_comment; eauto.
  - destruct (ltype_eqb (type ln) segment).
    + intros H. inv_ok H. destruct x. injection H as <- _. now left.
    + intros [= <- _]. now left.
Qed.

Lemma pack_step_comment seg l ln c out seg' :
  parse l = OK ln -> comment ln = Some c -> c <> EmptyString ->
  Pack.pack_step seg l = OK (out, seg') ->
  (type ln <> instr /\ out = raw ln)
  \/ (type ln = instr
      /\ exists parts, out = join " " (format_part <$> parts) ++ " # " ++ c).
Proof.
  intros Hp Hc Hne. unfold Pack.pack_step. rewrite Hp. simpl.
  destruct (type ln) eqn:Ht; simpl;
    try (intros [= <- _]; left; split; [discriminate|reflexivity]).
  - intros H. inv_ok H. destruct x. injection H as <- _.
    left. split; [discriminate|reflexivity].
  - intros H. do 5 inv_ok H. injection H as <- _.
    right. split; [reflexivity|]. exists x2. eapply format_comment; eauto.
Qed.

Lemma format_loop_lookup ls : forall seg out k l,
  Format.format_loop seg ls = (out, None) -> ls !! k = Some l ->
  exists segk o seg', Format.format_step segk l = OK (o, seg') /\ out !! k = Some o.
Proof.
  induction ls as [|l0 ls IH]; intros seg out k l Hrun Hk; [discriminate|].
  simpl in Hrun.
  destruct (Format.format_step seg l0) as [[o seg']|e] eqn:Hstep; [|discriminate].
  destruct (Format.format_loop seg' ls) as [out' r] eqn:Hrest.
  injection Hrun as <- ->.
  destruct k as [|k]; simpl in *.
  - injection Hk as <-. eauto.
  - eapply IH; eauto.
Qed.

Lemma pack_loop_lookup ls : forall seg out k l,
  Pack.pack_loop seg ls = (out, None) -> ls !! k = Some l ->
  exists segk o seg', Pack.pack_step segk l = OK (o, seg') /\ out !! k = Some o.
Proof.
  induction ls as [|l0 ls IH]; intros seg out k l Hrun Hk; [discriminate|].
  simpl in Hrun.
  destruct (Pack.pack_step seg l0) as [[o seg']|e] eqn:Hstep; [|discriminate].
  destruct (Pack.pack_loop seg' ls) as [out' r] eqn:Hrest.
  injection Hrun as <- ->.
  destruct k as [|k]; simpl in *.
  - injection Hk as <-. eauto.
  - eapply IH; eauto.
Qed.

(** The first pass queues every line it has parsed. *)
Lemma pass1_step_queue st l st' :
  Survey.pass1_step st l = OK st' ->
  exists ln, parse l = OK ln
             /\ Survey.queue st' = (Survey.queue st ++ [(ln, Survey.addr st)])%list.
Proof.
  unfold Survey.pass1_step. intros H. inv_ok H. exists x. split; [assumption|].
  destruct (body x) as [|name [base|]|name|parts]; try discriminate;
    try (now injection H as <-).
  inv_ok H. destruct (negb _); [discriminate|]. now injection H as <-.
Qed.

Lemma pass1_queue ls : forall st st',
  Survey.pass1 st ls = OK st' ->
  (forall entry, In entry (Survey.queue st) -> In entry (Survey.queue st'))
  /\ (forall l, In l ls ->
        exists ln a, parse l = OK ln /\ In (ln, a) (Survey.queue st')).
Proof.
  induction ls as [|l0 ls IH]; intros st st' H; simpl in H.
  - injection H as <-. split; [auto|intros l []].
  - inv_ok H. destruct (pass1_step_queue _ _ _ Hx) as (ln0 & Hp0 & Hq).
    destruct (IH _ _ H) as [Hmono Hall]. split.
    + intros entry Hin. apply Hmono. rewrite Hq. apply in_or_app. now left.
    + intros l [<-|Hin]; [|now apply Hall].
      exists ln0, (Survey.addr st). split; [assumption|].
      apply Hmono. rewrite Hq. apply in_or_app. right. now left.
Qed.

Lemma pass1_entries ls : forall st st',
  Survey.pass1 st ls = OK st' ->
  exists entries,
    Survey.queue st' = (Survey.queue st ++ entries)%list
    /\ Forall2 (fun l e => parse l = OK (fst e)) ls entries.
Proof.
  induction ls as [|l ls IH]; intros st st' H; simpl in H.
  - injection H as <-. exists []. split; [now rewrite app_nil_r|constructor].
  - inv_ok H. destruct (pass1_step_queue _ _ _ Hx) as (ln & Hp & Hq).
    destruct (IH _ _ H) as (entries & Hq' & Hall).
    exists ((ln, Survey.addr st) :: entries). split.
    + rewrite Hq', Hq, <- app_assoc. reflexivity.
    + constructor; assumption.
Qed.

Lemma pass2_cons_inv map entry queue out :
  Survey.pass2 map (entry :: queue) = (out, None) ->
  exists r rest,
    Survey.pass2_step map entry = OK r
    /\ Survey.pass2 map queue = (rest, None)
    /\ out = (match r with Some o => [o] | None => [] end ++ rest)%list.
Proof.
  simpl. destruct (Survey.pass2_step map entry) as [[o|]|e]; [| |discriminate].
  - destruct (Survey.pass2 map queue) as [rest r]. intros [= <- ->]. eauto.
  - intros H. eauto.
Qed.

Lemma pass2_app map q1 : forall q2 out,
  Survey.pass2 map (q1 ++ q2) = (out, None) ->
  exists o1 o2,
    Survey.pass2 map q1 = (o1, None) /\ Survey.pass2 map q2 = (o2, None)
    /\ out = (o1 ++ o2)%list.
Proof.
  induction q1 as [|e q1 IH]; intros q2 out H.
  - exists [], out. auto.
  - change ((e :: q1) ++ q2)%list with (e :: (q1 ++ q2))%list in H.
    apply pass2_cons_inv in H as (r & rest & Hstep & Hrest & ->).
    destruct (IH _ _ Hrest) as (o1 & o2 & H1 & H2 & ->).
    exists (match r with Some o => [o] | None => [] end ++ o1)%list, o2.
    split; [|split; [assumption|now rewrite app_assoc]].
    simpl. rewrite Hstep, H1. now destruct r.
Qed.

(** What the second loop yields for a parsed line. *)
Lemma pass2_step_line map l ln a r :
  parse l = OK ln -> Survey.pass2_step map (ln, a) = OK r ->
  match r with
  | Some o => survey_keeps l = true /\ survey_line l o
  | None => survey_keeps l = false
  end.
Proof.
  intros Hp. unfold Survey.pass2_step, survey_keeps, survey_line. rewrite Hp.
  unfold type. destruct (body ln) as [|seg base|lbl|parts] eqn:Hb.
  - now intros [= <-].
  - intros [= <-]. split; [reflexivity|]. exists ln. now rewrite Hb.
  - now intros [= <-].
  - intros H. inv_ok H. inv_ok H. subst r. split; [reflexivity|].
    exists ln. rewrite Hb. split; [reflexivity|]. exists x. split.
    + clear - Hx. revert x Hx. induction parts as [|p parts IH]; intros ps H; simpl in H.
      * now injection H as <-.
      * inv_ok H. inv_ok H. injection H as <-. simpl. f_equal. now apply IH.
    + unfold Subv.format, set_instr, type, get_instr, with_comment in Hx0.
      simpl in Hx0. destruct (comment ln) as [[|c cs]|]; now injection Hx0 as <-.
Qed.

Lemma pass2_lines map ls entries :
  Forall2 (fun l e => parse l = OK (fst e)) ls entries ->
  forall out, Survey.pass2 map entries = (out, None) ->
  Forall2 survey_line (List.filter survey_keeps ls) out.
Proof.
  induction 1 as [|l [ln a] ls entries Hp _ IH]; intros out H.
  - simpl in H. injection H as <-. constructor.
  - apply pass2_cons_inv in H as (r & rest & Hstep & Hrest & ->).
    pose proof (pass2_step_line _ _ _ _ _ Hp Hstep) as Hl. cbn [List.filter].
    destruct r as [o|].
    + destruct Hl as [-> Hl]. constructor; [assumption|now apply IH].
    + rewrite Hl. now apply IH.
Qed.

Lemma pass2_yields map queue : forall out entry,
  Survey.pass2 map queue = (out, None) -> In entry queue ->
  exists r, Survey.pass2_step map entry = OK r
            /\ forall o, r = Some o -> In o out.
Proof.
  induction queue as [|e0 queue IH]; intros out entry Hrun Hin; [destruct Hin|].
  simpl in Hrun.
  destruct (Survey.pass2_step map e0) as [[o|]|e] eqn:Hstep; [| |discriminate].
  - destruct (Survey.pass2 map queue) as [out' r] eqn:Hrest. injection Hrun as <- ->.
    destruct Hin as [<-|Hin].
    + exists (Some o). split; [assumption|]. intros ? [= <-]. now left.
    + destruct (IH out' entry eq_refl Hin) as (r & Hr & Ho).
      exists r. split; [assumption|]. intros o' Ho'. right. now apply Ho.
  - destruct Hin as [<-|Hin].
    + exists None. split; [assumption|]. discriminate.
    + now apply IH.
Qed.

End Comments.

(** C9, as the code has it.  A line whose comment (the text after its first
    [#]) is not empty keeps it as follows, in a run that ends without an
    exception.  Format and Pack yield one line per input line: the raw text,
    which ends in [#] and the comment, for a line they do not rewrite, and
    the printed parts followed by [" # "] and the comment for an instruction
    line they rewrite.  The output of Survey is what it yields for the lines
    before, then what it yields for this line, then what it yields for the
    lines after, each of these being one line for every instruction and every
    segment header and no other line; for this line it yields the printed
    parts followed by [" # "] and the comment when it is an instruction, the
    raw text when it is a segment header, and nothing when it is an empty
    line or a label: their comments are dropped. *)
Theorem comment_kept_on_yielded_lines
    (iter : list string) (k : nat) (l : string) (ln : Subv.pline) (c : string) :
  iter !! k = Some l ->
  Subv.parse l = OK ln ->
  Subv.comment ln = Some c ->
  c <> EmptyString ->
  Subv.raw ln = Subv.line ln ++ "#" ++ c
  /\ (forall out, Format.format iter = (out, None) ->
        exists o, out !! k = Some o
          /\ (o = Subv.raw ln
              \/ exists parts, Subv.type ln = Subv.instr
                   /\ o = join " " (Subv.format_part <$> parts) ++ " # " ++ c))
  /\ (forall out, Pack.pack iter = (out, None) ->
        exists o, out !! k = Some o
          /\ ((Subv.type ln <> Subv.instr /\ o = Subv.raw ln)
              \/ (Subv.type ln = Subv.instr
                  /\ exists parts, o = join " " (Subv.format_part <$> parts) ++ " # " ++ c)))
  /\ (forall out, Survey.survey iter = (out, None) ->
        exists before after,
          Forall2 survey_line (List.filter survey_keeps (take k iter)) before
          /\ Forall2 survey_line (List.filter survey_keeps (drop (S k) iter)) after
          /\ match Subv.type ln with
             | Subv.instr =>
                 exists parts,
                   out = (before
                          ++ [(join " " (Subv.format_part <$> parts) ++ " # " ++ c)%string]
                          ++ after)%list
             | Subv.segment => out = (before ++ [Subv.raw ln] ++ after)%list
             | Subv.empty | Subv.label => out = (before ++ after)%list
             end).
Proof.
  intros Hk Hp Hc Hne.
  split; [now apply parse_raw_comment with l|].
  split; [|split].
  - intros out Hrun.
    destruct (format_loop_lookup _ _ _ _ _ Hrun Hk) as (segk & o & seg' & Hstep & Ho).
    exists o. split; [assumption|].
    destruct (format_step_comment _ _ _ _ _ _ Hp Hc Hne Hstep) as [->|[_ Hr]]; auto.
  - intros out Hrun.
    destruct (pack_loop_lookup _ _ _ _ _ Hrun Hk) as (segk & o & seg' & Hstep & Ho).
    exists o. split; [assumption|].
    exact (pack_step_comment _ _ _ _ _ _ Hp Hc Hne Hstep).
  - intros out Hrun. unfold Survey.survey in Hrun.
    destruct (Survey.pass1 Survey.initial iter) as [st|e] eqn:H1; [|discriminate].
    destruct (pass1_entries _ _ _ H1) as (entries & Hq & Hall).
    simpl in Hq. rewrite Hq in Hrun. clear H1 Hq.
    destruct (Forall2_lookup_l _ _ _ _ _ Hall Hk) as ([ln' a] & Hek & Hp').
    simpl in Hp'. assert (ln' = ln) as -> by congruence.
    rewrite <- (take_drop_middle _ _ _ Hek) in Hrun.
    apply pass2_app in Hrun as (before & rest & Hbefore & Hrest & ->).
    apply pass2_cons_inv in Hrest as (r & after & Hstep & Hafter & ->).
    exists before, after.
    split; [apply (pass2_lines _ _ _ (Forall2_take _ _ _ k Hall) _ Hbefore)|].
    split; [apply (pass2_lines _ _ _ (Forall2_drop _ _ _ (S k) Hall) _ Hafter)|].
    unfold Survey.pass2_step in Hstep. unfold Subv.type.
    destruct (Subv.body ln) as [|name base|name|parts] eqn:Hb.
    + now injection Hstep as <-.
    + now injection Hstep as <-.
    + now injection Hstep as <-.
    + inv_ok Hstep. inv_ok Hstep. subst r. exists x.
      f_equal. f_equal. f_equal. eapply format_comment; eauto.
Qed.

Lemma comment_kept_on_yielded_lines_witness :
  exists before after,
    Forall2 survey_line
      (List.filter survey_keeps
         (take 3 ["== code 0x0"; "main:# entry"; "# only a comment";
                  "13/7 06/5 00/3 00/5 48/12 # store H"; "end:"]))
      before
    /\ Forall2 survey_line
         (List.filter survey_keeps
            (drop 4 ["== code 0x0"; "main:# entry"; "# only a comment";
                     "13/7 06/5 00/3 00/5 48/12 # store H"; "end:"]))
         after
    /\ exists parts,
         ["== code 0x0"; "13/7 06/5 00/3 00/5 48/12 #  store H"]
         = (before
            ++ [(join " " (Subv.format_part <$> parts) ++ " # " ++ " store H")%string]
            ++ after)%list.
Proof.
  destruct (comment_kept_on_yielded_lines
    ["== code 0x0"; "main:# entry"; "# only a comment";
     "13/7 06/5 00/3 00/5 48/12 # store H"; "end:"] 3
    "13/7 06/5 00/3 00/5 48/12 # store H"
    (Subv.Line "13/7 06/5 00/3 00/5 48/12 # store H" "13/7 06/5 00/3 00/5 48/12 "
       (Some " store H")
       (Subv.PInstr [Subv.Part (Subv.VInt 0x13) [Subv.VStr "7"];
                     Subv.Part (Subv.VInt 6) [Subv.VStr "5"];
                     Subv.Part (Subv.VInt 0) [Subv.VStr "3"];
                     Subv.Part (Subv.VInt 0) [Subv.VStr "5"];
                     Subv.Part (Subv.VInt 0x48) [Subv.VStr "12"]]))
    " store H" eq_refl eq_refl eq_refl ltac:(discriminate)) as (_ & _ & _ & Hs).
  exact (Hs ["== code 0x0"; "13/7 06/5 00/3 00/5 48/12 #  store H"] eq_refl).
Defined.

(** C9 as the claim states it fails: Survey yields nothing for a comment
    line, so the comment of the third line below is in no line of Survey's
    output. *)
Lemma survey_drops_comment_lines_counterexample :
  let iter := ["== code 0x80000000"; "main:"; "# load 0x10010000 (UART0) into t0";
               "37/7 05/5 10010/20"] in
  Subv.comment <$> Subv.parse "# load 0x10010000 (UART0) into t0"
  = OK (Some " load 0x10010000 (UART0) into t0")
  /\ Survey.survey iter = (["== code 0x80000000"; "37/7 05/5 10010/20"], None)
  /\ existsb (endswith " load 0x10010000 (UART0) into t0") (fst (Survey.survey iter)) = false.
Proof. repeat split; vm_compute; reflexivity. Qed.

(** ** End to end *)

(** C1.  On the example program (a [lui], six [opi]/[store] pairs and
    [6f/jal 0/rd/x0 main/off20], with [main] at the start of the segment
    [code] based at 0x80000000) the three stages run without an exception;
    Survey prints the [jal] line as [6f/7 00/5 ff/8 01/1 3e6/10 01/1] and
    Pack prints it as the four bytes [6f f0 df fc]. *)
Theorem uart_hello_jal :
  exists formatted surveyed packed,
    Format.format uart_hello = (formatted, None)
    /\ last formatted
       = Some "6f/7 00/5 main[19:12]/off8 main[11:11]/off1 main[10:1]/off10 main[20:20]/off1"
    /\ Survey.survey formatted = (surveyed, None)
    /\ surveyed
       = [ "== code 0x80000000";
           "37/7 05/5 10010/20";
           "13/7 06/5 00/3 00/5 48/12"; "23/7 00/5 02/3 05/5 06/5 00/7";
           "13/7 06/5 00/3 00/5 65/12"; "23/7 00/5 02/3 05/5 06/5 00/7";
           "13/7 06/5 00/3 00/5 6c/12"; "23/7 00/5 02/3 05/5 06/5 00/7";
           "13/7 06/5 00/3 00/5 6c/12"; "23/7 00/5 02/3 05/5 06/5 00/7";
           "13/7 06/5 00/3 00/5 6f/12"; "23/7 00/5 02/3 05/5 06/5 00/7";
           "13/7 06/5 00/3 00/5 0a/12"; "23/7 00/5 02/3 05/5 06/5 00/7";
           "6f/7 00/5 ff/8 01/1 3e6/10 01/1" ]
    /\ last surveyed = Some "6f/7 00/5 ff/8 01/1 3e6/10 01/1"
    /\ Pack.pack surveyed = (packed, None)
    /\ packed
       = [ "== code 0x80000000";
           "b7 02 01 10";
           "13 03 80 04"; "23 a0 62 00"; "13 03 50 06"; "23 a0 62 00";
           "13 03 c0 06"; "23 a0 62 00"; "13 03 c0 06"; "23 a0 62 00";
           "13 03 f0 06"; "23 a0 62 00"; "13 03 a0 00"; "23 a0 62 00";
           "6f f0 df fc" ]
    /\ last packed = Some "6f f0 df fc"
    /\ Subv.parse_instr "6f f0 df fc"
       = OK [Subv.Part (Subv.VInt 0x6f) []; Subv.Part (Subv.VInt 0xf0) [];
             Subv.Part (Subv.VInt 0xdf) []; Subv.Part (Subv.VInt 0xfc) []].
Proof.
  do 3 eexists.
  split; [vm_compute; reflexivity|].
  split; [vm_compute; reflexivity|].
  split; [vm_compute; reflexivity|].
  repeat split; vm_compute; reflexivity.
Qed.

(** The round trip on the line of [format]'s own doctest and on a line that
    [parse] itself produced: the parts come back, the comment does not. *)
Example print_parse_comment_examples :
  let doc := Subv.Line "" "" (Some "this does things.")
               (Subv.PInstr [Subv.Part (Subv.VInt 255) [Subv.VStr "op"];
                             Subv.Part (Subv.VInt 0) [Subv.VStr "subop"; Subv.VStr "add"];
                             Subv.Part (Subv.VInt 1) [Subv.VStr "rd"; Subv.VStr "x1"];
                             Subv.Part (Subv.VStr "label[11:0]") [Subv.VStr "imm12"]]) in
  Subv.format doc = OK "ff/op 00/subop/add 01/rd/x1 label[11:0]/imm12 # this does things."
  /\ (exists back,
        Subv.parse "ff/op 00/subop/add 01/rd/x1 label[11:0]/imm12 # this does things."
        = OK back
        /\ Subv.body back = Subv.body doc
        /\ Subv.comment back = Some " this does things."
        /\ Subv.comment back <> Subv.comment doc)
  /\ (exists ln printed back,
        Subv.parse "ff/op 1/rd/x1 # c" = OK ln
        /\ Subv.comment ln = Some " c"
        /\ Subv.format ln = OK printed
        /\ printed = "ff/op 01/rd/x1 #  c"
        /\ Subv.parse printed = OK back
        /\ Subv.body back = Subv.body ln
        /\ Subv.comment back = Some "  c"
        /\ back <> ln).
Proof.
  split; [vm_compute; reflexivity|]. split.
  - eexists. split; [vm_compute; reflexivity|].
    repeat split; try (vm_compute; reflexivity). discriminate.
  - do 3 eexists. split; [vm_compute; reflexivity|].
    repeat split; try (vm_compute; reflexivity). discriminate.
Qed.

Lemma format_rewrites_only_in_code_witness :
  fst (Format.format (["== data 0x1000"] ++ ["ff/bogus 1/x"])%list) !! 1%nat
  = Some "ff/bogus 1/x".
Proof.
  destruct (format_rewrites_only_in_code ["== data 0x1000"] [] "ff/bogus 1/x"
              eq_refl eq_refl) as (ln & parts & _ & _ & Hecho & _).
  apply Hecho. discriminate.
Defined.


(** ** Printing and parsing back *)

Section RoundTrip.
Import Subv.

Lemma digits_string_of_uint d : forall acc,
  digits 16 acc false (HexadecimalString.NilEmpty.string_of_uint d)
  = Some (hex_value acc d)
  /\ all_chars is_lower_hex (HexadecimalString.NilEmpty.string_of_uint d) = true.
Proof.
  induction d; intros acc; [split; reflexivity|..]; apply IHd.
Qed.

Lemma of_hex_uint_acc_value l : forall p,
  Z.pos (Pos.of_hex_uint_acc l p) = hex_value (Z.pos p) l.
Proof.
  induction l; intros p; simpl; rewrite ?IHl; [reflexivity|..]; f_equal; lia.
Qed.

Lemma of_hex_uint_value d : Z.of_N (Pos.of_hex_uint d) = hex_value 0 d.
Proof.
  induction d; simpl; [reflexivity|exact IHd|..];
    rewrite of_hex_uint_acc_value; reflexivity.
Qed.

Lemma hex_of_N_digits n :
  digits 16 0 false (hex_of_N n) = Some (Z.of_N n)
  /\ all_chars is_lower_hex (hex_of_N n) = true
  /\ nonempty (hex_of_N n) = true.
Proof.
  unfold hex_of_N, HexadecimalString.NilZero.string_of_uint.
  pose proof (HexadecimalN.Unsigned.of_to n) as Hn. unfold N.of_hex_uint in Hn.
  destruct (N.to_hex_uint n) as [|u|u|u|u|u|u|u|u|u|u|u|u|u|u|u|u] eqn:E;
    [simpl in Hn; subst n; repeat split|..];
    match goal with
    | |- context [HexadecimalString.NilEmpty.string_of_uint ?d] =>
        destruct (digits_string_of_uint d 0) as [Hd Ha]
    end;
    rewrite Hd, <- Hn, of_hex_uint_value; repeat split; assumption.
Qed.

Lemma all_chars_app p a b :
  all_chars p (a ++ b) = all_chars p a && all_chars p b.
Proof.
  induction a as [|c a IH]; [reflexivity|].
  change (String c a ++ b) with (String c (a ++ b)). simpl.
  now rewrite IH, andb_assoc.
Qed.

Lemma all_chars_impl (p q : ascii -> bool) s :
  (forall c, p c = true -> q c = true) -> all_chars p s = true -> all_chars q s = true.
Proof.
  intros Hpq. induction s as [|c s IH]; simpl; [reflexivity|].
  intros H. apply andb_true_iff in H as [Hc Hs]. now rewrite (Hpq c Hc), IH.
Qed.

Lemma span_all p s : all_chars p s = true -> span p s = (s, EmptyString).
Proof.
  induction s as [|c s IH]; simpl; [reflexivity|].
  intros H. apply andb_true_iff in H as [-> Hs]. now rewrite IH.
Qed.

Lemma append_nil_r (s : string) : s ++ EmptyString = s.
Proof.
  induction s as [|c s IH]; [reflexivity|].
  change (String c s ++ EmptyString) with (String c (s ++ EmptyString)). now rewrite IH.
Qed.

Lemma rstrip_all_lower_hex ds : all_chars is_lower_hex ds = true -> rstrip ds = ds.
Proof.
  intros H. rewrite <- (append_nil_r ds) at 1. now apply rstrip_lower_hex.
Qed.

Lemma int_rstrip_all_lower_hex ds :
  all_chars is_lower_hex ds = true -> int_rstrip ds = ds.
Proof.
  intros H. rewrite <- (append_nil_r ds) at 1. now apply int_rstrip_lower_hex.
Qed.

(** A non-empty string of lower-case hexadecimal digits matches [hex] and
    is read by [int(s, 16)] digit by digit. *)
Lemma lower_hex_literal ds :
  all_chars is_lower_hex ds = true -> nonempty ds = true ->
  hex_unsigned ds = true
  /\ py_uint 16 ds = digits 16 0 false ds
  /\ int_strip ds = ds
  /\ exists c r, ds = String c r /\ (code c =? 45) = false /\ (code c =? 43) = false.
Proof.
  intros Hall Hne. destruct ds as [|c ds]; [discriminate|].
  pose proof Hall as Hall'. simpl in Hall'.
  apply andb_true_iff in Hall' as [Hc Hds].
  destruct (lower_hex_char c Hc) as (Hsp & Hus & Hm & Hp & _).
  assert (hex_body (String c ds) = true) as Hbody.
  { unfold hex_body. now rewrite span_all. }
  repeat split.
  - unfold hex_unsigned. destruct ds as [|x r]; [exact Hbody|].
    simpl in Hds. apply andb_true_iff in Hds as [Hx _].
    destruct (lower_hex_char x Hx) as (_ & _ & _ & _ & -> & _).
    now rewrite andb_false_r.
  - unfold py_uint. destruct ds as [|x r]; [now rewrite Hus|].
    simpl in Hds. apply andb_true_iff in Hds as [Hx _].
    destruct (lower_hex_char x Hx) as (_ & _ & _ & _ & -> & -> & _).
    rewrite !andb_false_r. now rewrite Hus.
  - unfold int_strip. simpl int_lstrip. rewrite (int_space_is_space c Hsp).
    now apply int_rstrip_all_lower_hex.
  - eauto.
Qed.

Lemma lower_hex_plain c : is_lower_hex c = true -> is_plain c = true.
Proof.
  unfold is_lower_hex, is_digit, is_plain, is_white, between.
  set (n := code c). intros H. apply orb_true_iff in H.
  rewrite !andb_true_iff, !Z.leb_le in H.
  rewrite !andb_true_iff, !negb_true_iff.
  repeat split; apply not_true_iff_false; intros Hs;
    rewrite ?orb_true_iff, ?Z.eqb_eq in Hs; lia.
Qed.

(** [int(format(n, '02x'), 16) == n], and the printed number matches [hex]. *)
Lemma format_02x_parse n :
  hex_match (format_02x n) = true
  /\ py_int 16 (format_02x n) = OK n
  /\ all_chars is_plain (format_02x n) = true
  /\ nonempty (format_02x n) = true.
Proof.
  unfold format_02x. destruct (Z.ltb_spec n 0) as [Hneg|Hpos].
  - destruct (hex_of_N_digits (Z.abs_N n)) as (Hd & Hall & Hne).
    destruct (lower_hex_literal _ Hall Hne) as (Hm & Hu & Hs & _).
    change ("-" ++ hex_of_N (Z.abs_N n)) with (String "-" (hex_of_N (Z.abs_N n))).
    repeat split.
    + exact Hm.
    + unfold py_int, int_strip. simpl int_lstrip. rewrite int_rstrip_cons by reflexivity.
      rewrite int_rstrip_all_lower_hex by assumption.
      change (code "-" =? 45) with true. cbv iota beta.
      rewrite Hu, Hd. f_equal. rewrite N2Z.inj_abs_N. lia.
    + simpl. eapply all_chars_impl; [apply lower_hex_plain|exact Hall].
  - destruct (hex_of_N_digits (Z.to_N n)) as (Hd & Hall & Hne).
    rewrite Z2N.id in Hd by assumption.
    assert (forall h, all_chars is_lower_hex h = true -> nonempty h = true ->
              digits 16 0 false h = Some n ->
              hex_match h = true /\ py_int 16 h = OK n
              /\ all_chars is_plain h = true /\ nonempty h = true) as Hlit.
    { intros h Hh Hn Hv.
      destruct (lower_hex_literal _ Hh Hn) as (Hm & Hu & Hs & c & r & -> & Hc1 & Hc2).
      repeat split.
      - unfold hex_match. now rewrite Hc1.
      - unfold py_int. rewrite Hs, Hc1, Hc2, Hu, Hv. reflexivity.
      - eapply all_chars_impl; [apply lower_hex_plain|exact Hh]. }
    destruct (String.length (hex_of_N (Z.to_N n)) <? 2)%nat.
    + change ("0" ++ hex_of_N (Z.to_N n)) with (String "0" (hex_of_N (Z.to_N n))).
      apply Hlit; [simpl; exact Hall|reflexivity|exact Hd].
    + now apply Hlit.
Qed.

(** *** Splitting what was joined *)

Lemma plain_char c :
  is_plain c = true ->
  is_white c = false /\ Ascii.eqb c "/" = false /\ Ascii.eqb c "#" = false.
Proof.
  unfold is_plain. rewrite !andb_true_iff, !negb_true_iff. intros [[Hw Hs] Hh].
  split; [exact Hw|].
  split; apply not_true_iff_false; intros He; apply Ascii.eqb_eq in He; subst c;
    discriminate.
Qed.

Lemma split_plain x : all_chars is_plain x = true -> split "/" x = [x].
Proof.
  induction x as [|c x IH]; simpl; [reflexivity|].
  intros H. apply andb_true_iff in H as [Hc Hx].
  destruct (plain_char c Hc) as (_ & -> & _). now rewrite IH.
Qed.

Lemma split_plain_app x rest :
  all_chars is_plain x = true ->
  split "/" (x ++ String "/" rest) = x :: split "/" rest.
Proof.
  induction x as [|c x IH]; intros H.
  - reflexivity.
  - simpl in H. apply andb_true_iff in H as [Hc Hx].
    change (String c x ++ String "/" rest) with (String c (x ++ String "/" rest)).
    simpl. destruct (plain_char c Hc) as (_ & -> & _). now rewrite IH.
Qed.

Lemma split_join comps :
  comps <> [] -> forallb (all_chars is_plain) comps = true ->
  split "/" (join "/" comps) = comps.
Proof.
  induction comps as [|x [|y comps] IH]; intros Hne H; [contradiction| |].
  - simpl in *. apply andb_true_iff in H as [Hx _]. now apply split_plain.
  - change (join "/" (x :: y :: comps)) with (x ++ String "/" (join "/" (y :: comps))).
    apply andb_true_iff in H as [Hx H].
    rewrite split_plain_app by assumption. f_equal. now apply IH.
Qed.

Lemma white_split_token t : forall b rest,
  all_chars is_token_char t = true -> nonempty t = true ->
  white_split_from b (t ++ String " " rest) = t :: white_split_from true rest.
Proof.
  induction t as [|c t IH]; intros b rest Hall Hne; [discriminate|].
  simpl in Hall. apply andb_true_iff in Hall as [Hc Ht].
  assert (is_white c = false) as Hw.
  { unfold is_token_char in Hc. apply andb_true_iff in Hc as [Hc _].
    now apply negb_true_iff in Hc. }
  change (String c t ++ String " " rest) with (String c (t ++ String " " rest)).
  simpl. rewrite Hw. destruct t as [|d t].
  - reflexivity.
  - now rewrite (IH false rest Ht eq_refl).
Qed.

Lemma white_split_last t : forall b,
  all_chars is_token_char t = true -> nonempty t = true ->
  white_split_from b t = [t].
Proof.
  induction t as [|c t IH]; intros b Hall Hne; [discriminate|].
  simpl in Hall. apply andb_true_iff in Hall as [Hc Ht].
  assert (is_white c = false) as Hw.
  { unfold is_token_char in Hc. apply andb_true_iff in Hc as [Hc _].
    now apply negb_true_iff in Hc. }
  simpl. rewrite Hw. destruct t as [|d t]; [reflexivity|].
  now rewrite (IH false Ht eq_refl).
Qed.

Lemma filter_token t (l : list string) :
  nonempty t = true ->
  filter (fun p => p <> EmptyString) (t :: l) = t :: filter (fun p => p <> EmptyString) l.
Proof. intros H. apply filter_cons_True. now destruct t. Qed.

(** The tokens of a line of printed parts, also when one blank follows. *)
Lemma white_split_join tokens : forall b,
  tokens <> [] -> forallb token_ok tokens = true ->
  filter (fun p => p <> EmptyString) (white_split_from b (join " " tokens)) = tokens
  /\ filter (fun p => p <> EmptyString) (white_split_from b (join " " tokens ++ " ")) = tokens.
Proof.
  induction tokens as [|t [|t2 tokens] IH]; intros b Hne H; [contradiction| |].
  - simpl in H. rewrite andb_true_r in H. apply andb_true_iff in H as [Hall Hn].
    simpl join. split.
    + rewrite white_split_last by assumption. now rewrite filter_token.
    + change (t ++ " ") with (t ++ String " " EmptyString).
      rewrite white_split_token by assumption. now rewrite filter_token.
  - change (join " " (t :: t2 :: tokens)) with (t ++ String " " (join " " (t2 :: tokens))).
    apply andb_true_iff in H as [Ht H]. apply andb_true_iff in Ht as [Hall Hn].
    destruct (IH true ltac:(discriminate) H) as [IH1 IH2].
    split.
    + rewrite white_split_token, filter_token by assumption. now rewrite IH1.
    + replace ((t ++ String " " (join " " (t2 :: tokens))) ++ " ")
        with (t ++ String " " (join " " (t2 :: tokens) ++ " ")).
      * rewrite white_split_token, filter_token by assumption. now rewrite IH2.
      * clear. induction t as [|c t IHt]; [reflexivity|].
        change (String c t ++ ?x) with (String c (t ++ x)).
        cbn [String.append]. now rewrite IHt.
Qed.

(** *** One part *)

Lemma plain_token_char c : is_plain c = true -> is_token_char c = true.
Proof.
  unfold is_plain, is_token_char. rewrite !andb_true_iff. tauto.
Qed.

Lemma slash_token_char : is_token_char "/" = true.
Proof. reflexivity. Qed.

Lemma all_chars_join p sep l :
  all_chars p sep = true -> forallb (all_chars p) l = true ->
  all_chars p (join sep l) = true.
Proof.
  intros Hsep. induction l as [|x [|y l] IH]; intros H; [reflexivity| |].
  - simpl in *. now apply andb_true_iff in H as [-> _].
  - change (join sep (x :: y :: l)) with (x ++ sep ++ join sep (y :: l)).
    apply andb_true_iff in H as [Hx H].
    rewrite !all_chars_app, Hx, Hsep, IH by assumption. reflexivity.
Qed.

Lemma plain_tags tags :
  forallb plain_tag tags = true ->
  VStr <$> (str <$> tags) = tags
  /\ forallb (all_chars is_plain) (str <$> tags) = true.
Proof.
  induction tags as [|[n|t] tags IH]; simpl; [auto|discriminate|].
  intros H. apply andb_true_iff in H as [Ht H].
  destruct (IH H) as [E1 E2]. split.
  - f_equal. exact E1.
  - rewrite Ht. exact E2.
Qed.

Lemma forallb_impl {A} (p q : A -> bool) l :
  (forall x, p x = true -> q x = true) -> forallb p l = true -> forallb q l = true.
Proof.
  intros Hpq. induction l as [|x l IH]; simpl; [reflexivity|].
  intros H. apply andb_true_iff in H as [Hx Hl]. now rewrite (Hpq x Hx), IH.
Qed.

(** [parse_part(format_part(p)) == p], and the printed part is one token. *)
Lemma parse_format_part p :
  printable_part p = true ->
  parse_part (format_part p) = OK p /\ token_ok (format_part p) = true.
Proof.
  destruct p as [h tgs]. unfold printable_part, format_part, parse_part.
  cbn [Subv.head Subv.tags]. intros H. apply andb_true_iff in H as [H Hne]. apply andb_true_iff in H as [Hh Htags].
  destruct (plain_tags tgs Htags) as [Hback Hplain].
  set (first := match h with VStr s => s | VInt n => format_02x n end) in *.
  assert (all_chars is_plain first = true
          /\ (if hex_match first then n ← py_int 16 first; OK (Part (VInt n) tgs)
              else OK (Part (VStr first) tgs)) = OK (Part h tgs)) as [Hfirst Hhead].
  { subst first. destruct h as [n|t].
    - destruct (format_02x_parse n) as (-> & -> & Hp & _). auto.
    - apply andb_true_iff in Hh as [Hp Hm]. apply negb_true_iff in Hm.
      now rewrite Hm. }
  assert (forallb (all_chars is_plain) (first :: (str <$> tgs)) = true) as Hall.
  { simpl. now rewrite Hfirst, Hplain. }
  rewrite split_join by (assumption || discriminate). rewrite Hback.
  split; [exact Hhead|].
  unfold token_ok. rewrite Hne, andb_true_r.
  apply all_chars_join; [reflexivity|].
  eapply forallb_impl; [|exact Hall].
  intros x. apply all_chars_impl, plain_token_char.
Qed.

Lemma parse_format_parts parts :
  forallb printable_part parts = true ->
  mapM parse_part (format_part <$> parts) = OK parts
  /\ forallb token_ok (format_part <$> parts) = true.
Proof.
  induction parts as [|p parts IH]; intros H; [split; reflexivity|].
  simpl in H. apply andb_true_iff in H as [Hp H].
  destruct (parse_format_part p Hp) as [E1 E2]. destruct (IH H) as [E3 E4].
  rewrite fmap_cons. split.
  - cbn [mapM]. rewrite E1, bind_OK, E3, bind_OK. reflexivity.
  - cbn [forallb]. now rewrite E2, E4.
Qed.

(** *** A whole line *)

Lemma token_no_hash c : is_token_char c = true -> Ascii.eqb c "#" = false.
Proof.
  unfold is_token_char. rewrite andb_true_iff, !negb_true_iff. intros [_ Hh].
  apply not_true_iff_false. intros He. apply Ascii.eqb_eq in He. subst c. discriminate.
Qed.

Lemma split1_no_hash x :
  all_chars no_hash x = true ->
  split1 "#" x = (x, None) /\ forall r, split1 "#" (x ++ String "#" r) = (x, Some r).
Proof.
  induction x as [|c x IH]; intros H.
  - split; reflexivity.
  - simpl in H. apply andb_true_iff in H as [Hc Hx].
    unfold no_hash in Hc. apply negb_true_iff in Hc.
    destruct (IH Hx) as [IH1 IH2]. split.
    + simpl. now rewrite Hc, IH1.
    + intros r. change (String c x ++ String "#" r) with (String c (x ++ String "#" r)).
      simpl. now rewrite Hc, IH2.
Qed.

Lemma printed_no_hash parts :
  forallb token_ok (format_part <$> parts) = true ->
  all_chars no_hash (printed parts) = true
  /\ all_chars no_hash (printed parts ++ " ") = true.
Proof.
  intros H.
  assert (all_chars no_hash (printed parts) = true) as Hp.
  { apply all_chars_join; [reflexivity|].
    eapply forallb_impl; [|exact H].
    intros t Ht. apply andb_true_iff in Ht as [Ht _].
    eapply all_chars_impl; [|exact Ht].
    intros c Hc. unfold no_hash. now rewrite (token_no_hash c Hc). }
  split; [exact Hp|]. now rewrite all_chars_app, Hp.
Qed.

Lemma length_lstrip s : (String.length (lstrip s) <= String.length s)%nat.
Proof.
  induction s as [|c s IH]; simpl; [lia|]. destruct (is_space c); simpl; lia.
Qed.

Lemma length_rstrip s : (String.length (rstrip s) <= String.length s)%nat.
Proof.
  induction s as [|c s IH]; simpl; [lia|].
  destruct (rstrip s); [destruct (is_space c)|]; simpl in *; lia.
Qed.

Lemma strip_fixed_first c r : strip (String c r) = String c r -> is_space c = false.
Proof.
  unfold strip. simpl. destruct (is_space c); [|reflexivity].
  intros H. apply (f_equal String.length) in H. simpl in H.
  pose proof (length_rstrip (lstrip r)). pose proof (length_lstrip r). lia.
Qed.

Lemma append_assoc_string (a b c : string) : (a ++ b) ++ c = a ++ (b ++ c).
Proof.
  induction a as [|x a IH]; [reflexivity|].
  change ((String x a ++ b) ++ c) with (String x ((a ++ b) ++ c)).
  change (String x a ++ (b ++ c)) with (String x (a ++ (b ++ c))).
  now rewrite IH.
Qed.

Lemma rstrip_app_stable c : rstrip c = c -> nonempty c = true ->
  forall x, rstrip (x ++ c) = x ++ c.
Proof.
  intros Hc Hne. induction x as [|a x IH]; [exact Hc|].
  change (String a x ++ c) with (String a (x ++ c)). simpl. rewrite IH.
  destruct (x ++ c) eqn:E; [|reflexivity].
  destruct x; [|discriminate]. change (c = EmptyString) in E.
  rewrite E in Hne. discriminate.
Qed.

Lemma endswith_colon_blank x : endswith ":" (x ++ " ") = false.
Proof.
  induction x as [|a x IH]; [reflexivity|].
  change (String a x ++ " ") with (String a (x ++ " ")). simpl. rewrite IH.
  destruct (Ascii.eqb a ":"); [|reflexivity].
  destruct x; reflexivity.
Qed.

Lemma classify_blank text :
  classify text = instr -> classify (text ++ " ") = instr.
Proof.
  unfold classify, startswith. destruct text as [|c r]; [discriminate|].
  change (String c r ++ " ") with (String c (r ++ " ")).
  change (String.eqb (String c r) "") with false.
  change (String.eqb (String c (r ++ " ")) "") with false.
  cbv iota. intros H.
  assert (String.prefix "==" (String c (r ++ " ")) = false) as ->.
  { destruct (String.prefix "==" (String c r)) eqn:E; [discriminate|].
    cbn [String.prefix] in *. destruct (ascii_dec "=" c); [|reflexivity].
    destruct r as [|d r]; [reflexivity|].
    change (String d r ++ " ") with (String d (r ++ " ")).
    cbn [String.prefix] in *.
    destruct (ascii_dec "=" d); [destruct r; discriminate|reflexivity]. }
  change (String c (r ++ " ")) with (String c r ++ " ").
  now rewrite endswith_colon_blank.
Qed.

(** X9.  A printable line without comment is printed and parsed back as
    it was: [format] prints its parts separated by one space, and [parse]
    of that text returns the same parts, with the text as [raw] and [line]
    and no comment. *)
Theorem print_parse_without_comment (parts : list part) (raw0 line0 : string) :
  printable_line parts = true ->
  Subv.format (Line raw0 line0 None (PInstr parts)) = OK (printed parts)
  /\ parse (printed parts)
     = OK (Line (printed parts) (printed parts) None (PInstr parts)).
Proof.
  unfold printable_line. intros H.
  apply andb_true_iff in H as [H Hcls]. apply andb_true_iff in H as [Hparts Hstrip].
  apply String.eqb_eq in Hstrip.
  assert (classify (printed parts) = instr) as Hc by now destruct (classify (printed parts)).
  split; [reflexivity|].
  destruct (parse_format_parts parts Hparts) as [Hmap Htok].
  destruct (printed_no_hash parts Htok) as [Hnh _].
  unfold parse. rewrite Hstrip. destruct (split1_no_hash _ Hnh) as [-> _].
  rewrite Hc. unfold parse_instr, white_split.
  assert (format_part <$> parts <> []) as Hne.
  { destruct parts; [discriminate Hc|discriminate]. }
  destruct (white_split_join _ false Hne Htok) as [Hsplit _].
  unfold printed in *. rewrite Hsplit, Hmap. reflexivity.
Qed.

End RoundTrip.

(** C3 fails on the code, whose printer is documented as the opposite of
    the parser: [parse] keeps the text after [#] as it is and [format] puts
    [" # "] before it.  For every printable line with a non-empty comment
    (a comment as [parse] produces it ends in no white space) the parts
    come back unchanged and the comment comes back with one more blank in
    front. *)
Theorem print_parse_changes_comment
    (parts : list Subv.part) (c raw0 line0 : string) :
  printable_line parts = true ->
  nonempty c = true ->
  rstrip c = c ->
  let ln := Subv.Line raw0 line0 (Some c) (Subv.PInstr parts) in
  exists back,
    Subv.format ln = OK (printed parts ++ " # " ++ c)
    /\ Subv.parse (printed parts ++ " # " ++ c) = OK back
    /\ Subv.body back = Subv.body ln
    /\ Subv.comment back = Some (" " ++ c)
    /\ Subv.comment back <> Subv.comment ln.
Proof.
  unfold printable_line. intros H Hne Hrs. cbv zeta.
  apply andb_true_iff in H as [H Hcls]. apply andb_true_iff in H as [Hparts Hstrip].
  apply String.eqb_eq in Hstrip.
  assert (Subv.classify (printed parts) = Subv.instr) as Hc
    by now destruct (Subv.classify (printed parts)).
  destruct (parse_format_parts parts Hparts) as [Hmap Htok].
  destruct (printed_no_hash parts Htok) as [_ Hnh].
  assert (Subv.format_part <$> parts <> []) as Hnil.
  { destruct parts; [discriminate Hc|discriminate]. }
  destruct (white_split_join _ false Hnil Htok) as [_ Hsplit].
  exists (Subv.Line (printed parts ++ " # " ++ c) (printed parts ++ " ")
            (Some (" " ++ c)) (Subv.PInstr parts)).
  split.
  { unfold Subv.format. simpl. destruct c; [discriminate|reflexivity]. }
  split; [|split; [reflexivity|split; [reflexivity|]]].
  - unfold Subv.parse.
    assert (strip (printed parts ++ " # " ++ c) = printed parts ++ " # " ++ c) as ->.
    { destruct (printed parts) as [|a r] eqn:E; [discriminate Hc|].
      pose proof (strip_fixed_first a r Hstrip) as Ha.
      unfold strip. change (String a r ++ " # " ++ c) with (String a (r ++ " # " ++ c)).
      simpl lstrip. rewrite Ha.
      change (String a (r ++ " # " ++ c)) with (String a r ++ (" # " ++ c)).
      change (" # " ++ c) with (" # " ++ c).
      replace (String a r ++ " # " ++ c) with ((String a r ++ " # ") ++ c)
        by apply append_assoc_string.
      now apply rstrip_app_stable. }
    replace (printed parts ++ " # " ++ c)
      with ((printed parts ++ " ") ++ String "#" (" " ++ c))
      by (rewrite append_assoc_string; reflexivity).
    destruct (split1_no_hash _ Hnh) as [_ ->].
    rewrite (classify_blank _ Hc).
    unfold Subv.parse_instr, white_split. unfold printed in *.
    rewrite Hsplit, Hmap. simpl.
    rewrite append_assoc_string. reflexivity.
  - cbn [Subv.comment]. intros [= E]. change (String " " c = c) in E.
    apply (f_equal String.length) in E. cbn [String.length] in E. lia.
Qed.

Lemma print_parse_changes_comment_witness :
  exists back,
    Subv.parse "ff/op 00/subop/add 01/rd/x1 label[11:0]/imm12 # this does things."
    = OK back
    /\ Subv.comment back = Some " this does things.".
Proof.
  destruct (print_parse_changes_comment
              [Subv.Part (Subv.VInt 255) [Subv.VStr "op"];
               Subv.Part (Subv.VInt 0) [Subv.VStr "subop"; Subv.VStr "add"];
               Subv.Part (Subv.VInt 1) [Subv.VStr "rd"; Subv.VStr "x1"];
               Subv.Part (Subv.VStr "label[11:0]") [Subv.VStr "imm12"]]
              "this does things." "" "" eq_refl eq_refl eq_refl)
    as (back & _ & Hparse & _ & Hcomment & _).
  exists back. split; [exact Hparse|exact Hcomment].
Defined.

(** * Further properties of the code *)

(** ** bits.py *)

Section BitFields.

Lemma ones_land_mod a n : 0 <= n -> Z.land a (Z.ones n) = a mod 2 ^ n.
Proof. intros. now apply Z.land_ones. Qed.

Lemma slice_value val size hi lo :
  0 <= lo <= hi -> hi < size ->
  Bits.slice (val, size) hi lo
  = OK ((val / 2 ^ lo) mod 2 ^ (hi - lo + 1), hi - lo + 1).
Proof.
  intros H1 H2. rewrite slice_ok by assumption.
  rewrite Z.land_ones, Z.shiftr_div_pow2 by lia. reflexivity.
Qed.

Lemma lor_shiftl_add a b s :
  0 <= s -> 0 <= a < 2 ^ s -> Z.lor a (Z.shiftl b s) = a + 2 ^ s * b.
Proof.
  intros Hs Ha.
  assert (Z.land a (Z.shiftl b s) = 0) as Hland.
  { apply Z.bits_inj'. intros k Hk. rewrite Z.land_spec, Z.bits_0.
    destruct (Z.lt_ge_cases k s) as [Hlt|Hge].
    - rewrite Z.shiftl_spec_low by assumption. apply andb_false_r.
    - destruct (Z.eq_dec a 0) as [->|Hnz]; [now rewrite Z.bits_0|].
      rewrite (Z.bits_above_log2 a k); [reflexivity|lia|].
      apply Z.log2_lt_pow2; [lia|].
      apply Z.lt_le_trans with (2 ^ s); [lia|].
      apply Z.pow_le_mono_r; lia. }
  pose proof (Z.add_lor_land a (Z.shiftl b s)) as Hadd.
  rewrite Hland in Hadd. rewrite (Z.shiftl_mul_pow2 b s) in Hadd at 2 by lia. lia.
Qed.

Lemma total_width_nonneg parts : Forall well_formed parts -> 0 <= total_width parts.
Proof.
  induction 1 as [|p parts [Hw _] _ IH]; simpl; [lia|]. lia.
Qed.

Lemma total_value_bound parts :
  Forall well_formed parts -> 0 <= total_value parts < 2 ^ total_width parts.
Proof.
  induction 1 as [|[v w] parts [Hw Hv] Hall IH]; simpl in *; [lia|].
  pose proof (total_width_nonneg parts Hall) as Htw.
  rewrite Z.pow_add_r by lia.
  assert (0 < 2 ^ w) by (apply Z.pow_pos_nonneg; lia). nia.
Qed.

Lemma concat_loop_value parts : forall val size,
  Forall well_formed parts -> 0 <= size -> 0 <= val < 2 ^ size ->
  Bits.concat_loop val size parts
  = OK (val + 2 ^ size * total_value parts, size + total_width parts).
Proof.
  induction parts as [|[v w] parts IH]; intros val size Hall Hs Hv; simpl.
  - f_equal. f_equal; lia.
  - apply List.Forall_cons_iff in Hall as [[Hw Hvw] Hall]. simpl in Hw, Hvw.
    rewrite shl_nonneg, bind_OK by lia.
    rewrite lor_shiftl_add by lia.
    rewrite IH; [|assumption|lia|].
    + f_equal. f_equal; [|lia]. rewrite Z.pow_add_r by lia. lia.
    + rewrite Z.pow_add_r by lia.
      assert (0 < 2 ^ size) by (apply Z.pow_pos_nonneg; lia). nia.
Qed.

Lemma concat_value parts :
  Forall well_formed parts ->
  Bits.concat parts = OK (total_value parts, total_width parts).
Proof.
  intros Hall. unfold Bits.concat.
  rewrite concat_loop_value by (assumption || simpl; lia).
  f_equal. f_equal; simpl; lia.
Qed.

Lemma total_width_app xs ys : total_width (xs ++ ys) = total_width xs + total_width ys.
Proof. induction xs as [|x xs IH]; simpl; [reflexivity|]. unfold total_width in *. lia. Qed.

Lemma total_value_app xs ys :
  Forall well_formed xs ->
  total_value (xs ++ ys) = total_value xs + 2 ^ total_width xs * total_value ys.
Proof.
  induction 1 as [|[v w] xs [Hw _] Hall IH]; simpl in *; [lia|].
  pose proof (total_width_nonneg xs Hall).
  unfold total_value in *. rewrite IH, Z.pow_add_r by lia. lia.
Qed.

End BitFields.

(** X1.  [slice(bits, hi, lo)] raises "cant slice reverse range" when
    [hi < lo], raises "out of range" when [lo < 0] or [hi >= size], and
    otherwise returns the bits [lo..hi] of the value as a field of width
    [hi - lo + 1] whose value fits in that width (also for a negative or
    oversized input value). *)
Theorem slice_outcome (val size hi lo : Z) :
  (hi < lo -> Bits.slice (val, size) hi lo = Err ReverseRange)
  /\ (lo <= hi -> lo < 0 \/ size <= hi ->
      Bits.slice (val, size) hi lo = Err (SliceOutOfRange hi lo size))
  /\ (0 <= lo -> lo <= hi -> hi < size ->
      Bits.slice (val, size) hi lo
      = OK ((val / 2 ^ lo) mod 2 ^ (hi - lo + 1), hi - lo + 1)
      /\ well_formed ((val / 2 ^ lo) mod 2 ^ (hi - lo + 1), hi - lo + 1)).
Proof.
  split; [|split].
  - intros H. unfold Bits.slice. destruct (Z.ltb_spec hi lo); [reflexivity|lia].
  - intros H1 H2. unfold Bits.slice.
    destruct (Z.ltb_spec hi lo); [lia|].
    destruct (Z.ltb_spec lo 0), (Z.geb_spec hi size); simpl; try reflexivity; lia.
  - intros H0 H1 H2. split; [apply slice_value; lia|].
    split; simpl; [lia|]. apply Z.mod_pos_bound, Z.pow_pos_nonneg; lia.
Qed.

(** X2.  On well-formed fields [concat] never raises: the width of the
    result is the sum of the widths, its value is the sum of the values each
    shifted by the widths before it (the fields do not overlap), and the
    result is well formed again. *)
Theorem concat_well_formed (parts : list Bits.bitfield) :
  Forall well_formed parts ->
  Bits.concat parts = OK (total_value parts, total_width parts)
  /\ well_formed (total_value parts, total_width parts).
Proof.
  intros Hall. split; [now apply concat_value|].
  split; simpl; [now apply total_width_nonneg|now apply total_value_bound].
Qed.

Lemma concat_well_formed_witness :
  Bits.concat [(1, 1); (6, 4); (6, 3)] = OK (1 + 2 ^ 1 * (6 + 2 ^ 4 * (6 + 2 ^ 3 * 0)), 8).
Proof.
  apply (concat_well_formed [(1, 1); (6, 4); (6, 3)]).
  repeat constructor; simpl; lia.
Defined.

(** X3.  [concat] is associative on well-formed fields: concatenating two
    lists at once is concatenating the two fields that each list gives. *)
Theorem concat_app (xs ys : list Bits.bitfield) :
  Forall well_formed xs -> Forall well_formed ys ->
  Bits.concat (xs ++ ys)
  = (a ← Bits.concat xs; b ← Bits.concat ys; Bits.concat [a; b]).
Proof.
  intros Hx Hy.
  assert (Forall well_formed (xs ++ ys)) as Hxy by (apply Forall_app; auto).
  rewrite !concat_value by assumption. rewrite !bind_OK.
  destruct (concat_well_formed xs Hx) as [_ Hwx].
  destruct (concat_well_formed ys Hy) as [_ Hwy].
  rewrite concat_value
    by (apply List.Forall_cons; [assumption|];
        apply List.Forall_cons; [assumption|apply List.Forall_nil]).
  simpl. rewrite total_value_app, total_width_app by assumption.
  f_equal. f_equal; lia.
Qed.

Lemma concat_app_witness :
  Bits.concat ([(1, 1); (6, 4)] ++ [(6, 3)])
  = (a ← Bits.concat [(1, 1); (6, 4)]; b ← Bits.concat [(6, 3)]; Bits.concat [a; b]).
Proof.
  apply concat_app; repeat constructor; simpl; lia.
Defined.

(** X4.  Every field can be read back out of a concatenation: slicing the
    result at the position of a field (the sum of the widths before it)
    returns that field. *)
Theorem slice_of_concat (pre post : list Bits.bitfield) (p : Bits.bitfield) :
  Forall well_formed pre -> well_formed p -> Forall well_formed post ->
  1 <= snd p ->
  exists word,
    Bits.concat (pre ++ p :: post) = OK word
    /\ Bits.slice word (total_width pre + snd p - 1) (total_width pre) = OK p.
Proof.
  intros Hpre Hp Hpost Hw. destruct p as [v w]. simpl in Hw.
  assert (Forall well_formed ((v, w) :: post)) as Hrest by (constructor; assumption).
  assert (Forall well_formed (pre ++ (v, w) :: post)) as Hall by (apply Forall_app; auto).
  eexists. split; [now apply concat_value|].
  pose proof (total_width_nonneg pre Hpre) as Hwp.
  pose proof (total_width_nonneg post Hpost) as Hwq.
  pose proof (total_value_bound pre Hpre) as Hvp.
  destruct Hp as [_ Hv]. simpl in Hv. cbn [snd].
  rewrite slice_value; [|lia|rewrite total_width_app; simpl; lia].
  rewrite total_value_app by assumption. cbn [total_value foldr fst snd].
  replace (total_width pre + w - 1 - total_width pre + 1) with w by lia.
  f_equal. f_equal.
  rewrite (Z.mul_comm (2 ^ total_width pre)), Z.div_add by lia.
  rewrite Z.div_small by lia. rewrite Z.add_0_l.
  rewrite (Z.mul_comm (2 ^ w)), Z.mod_add by lia.
  apply Z.mod_small. lia.
Qed.

Lemma slice_of_concat_witness :
  exists word,
    Bits.concat ([(0x6f, 7); (0, 5)] ++ (0xff, 8) :: [(1, 1); (0x3e6, 10); (1, 1)]) = OK word
    /\ Bits.slice word (total_width [(0x6f, 7); (0, 5)] + 8 - 1) (total_width [(0x6f, 7); (0, 5)])
       = OK (0xff, 8).
Proof.
  apply (slice_of_concat [(0x6f, 7); (0, 5)] [(1, 1); (0x3e6, 10); (1, 1)] (0xff, 8));
    repeat constructor; simpl; lia.
Defined.

Lemma slice_compose (val size H L hi lo : Z) :
  0 <= L -> H < size -> 0 <= lo -> lo <= hi -> hi <= H - L ->
  exists inner,
    Bits.slice (val, size) H L = OK inner
    /\ Bits.slice inner hi lo = Bits.slice (val, size) (L + hi) (L + lo).
Proof.
  intros HL HH Hlo Hhi Hin.
  rewrite !slice_ok by lia.
  eexists. split; [reflexivity|].
  rewrite slice_ok by lia.
  replace (L + hi - (L + lo) + 1) with (hi - lo + 1) by lia.
  f_equal. f_equal.
  apply Z.bits_inj'. intros k Hk.
  rewrite !Z.land_spec, !Z.shiftr_spec, Z.land_spec, Z.shiftr_spec by lia.
  rewrite !Z.testbit_ones_nonneg by lia.
  replace (k + lo + L) with (k + (L + lo)) by lia.
  destruct (Z.ltb_spec k (hi - lo + 1)); [|now rewrite !andb_false_r].
  destruct (Z.ltb_spec (k + lo) (H - L + 1)); [|lia].
  now rewrite !andb_true_r.
Qed.

(** X5.  Slices compose: a slice of a slice is the slice of the original
    field at the shifted indices. *)
Theorem slice_of_slice (val size H L hi lo : Z) :
  0 <= L -> H < size -> 0 <= lo -> lo <= hi -> hi <= H - L ->
  exists inner,
    Bits.slice (val, size) H L = OK inner
    /\ Bits.slice inner hi lo = Bits.slice (val, size) (L + hi) (L + lo).
Proof. apply slice_compose. Qed.

Lemma slice_of_slice_witness :
  exists inner,
    Bits.slice (0xffffffcc, 32) 20 1 = OK inner
    /\ Bits.slice inner 18 11 = Bits.slice (0xffffffcc, 32) (1 + 18) (1 + 11).
Proof. apply slice_of_slice; lia. Defined.

Lemma i_ok_of_range n w :
  1 <= w -> - 2 ^ (w - 1) <= n < 2 ^ (w - 1) ->
  Bits.i n w = OK (n mod 2 ^ w, w).
Proof.
  intros Hw Hn.
  assert (2 ^ w = 2 * 2 ^ (w - 1)) as Hpow.
  { rewrite <- Z.pow_succ_r by lia. f_equal. lia. }
  unfold Bits.i, shl. destruct (Z.ltb_spec (w - 1) 0); [lia|].
  rewrite bind_OK, Z.shiftl_1_l.
  destruct (Z.gtb_spec n (-1 - - 2 ^ (w - 1))); [lia|].
  destruct (Z.ltb_spec n (- 2 ^ (w - 1))); [lia|].
  cbn [orb]. destruct (Z.ltb_spec n 0).
  - destruct (Z.ltb_spec w 0); [lia|]. rewrite !bind_OK, Z.shiftl_1_l.
    replace (n mod 2 ^ w) with (2 ^ w + n)
      by (apply (Z.mod_unique_pos _ _ (-1)); lia).
    apply u_ok_iff. split; [lia|]. apply bit_length_le_iff; lia.
  - rewrite bind_OK, Z.mod_small by lia.
    apply u_ok_iff. split; [lia|]. apply bit_length_le_iff; lia.
Qed.

Lemma i_in_range n w r :
  Bits.i n w = OK r ->
  1 <= w /\ - 2 ^ (w - 1) <= n <= 2 ^ (w - 1) - 1
  /\ r = ((if n <? 0 then 2 ^ w + n else n), w).
Proof.
  unfold Bits.i, shl. destruct (Z.ltb_spec (w - 1) 0) as [|Hw]; [discriminate|].
  rewrite bind_OK, Z.shiftl_1_l.
  destruct (Z.gtb_spec n (-1 - - 2 ^ (w - 1))) as [|Hmax]; [discriminate|].
  destruct (Z.ltb_spec n (- 2 ^ (w - 1))) as [|Hmin]; [discriminate|].
  cbn [orb]. destruct (Z.ltb_spec n 0) as [Hn|Hn].
  - destruct (Z.ltb_spec w 0); [lia|]. rewrite !bind_OK, Z.shiftl_1_l.
    intros Hu. apply u_ok_inv in Hu as [-> _]. repeat split; lia.
  - rewrite bind_OK. intros Hu. apply u_ok_inv in Hu as [-> _]. repeat split; lia.
Qed.

(** X6.  A value [i] accepts can be read back: the field it returns has the
    requested width and fits in it, and its signed reading is the number
    that went in; so [i] maps different numbers to different fields. *)
Theorem i_signed_round_trip (n w v w' : Z) :
  Bits.i n w = OK (v, w') ->
  w' = w /\ 1 <= w /\ 0 <= v < 2 ^ w /\ signed v w = n.
Proof.
  intros Hi. destruct (i_in_range _ _ _ Hi) as (Hw & Hr & [= -> ->]).
  assert (2 ^ w = 2 * 2 ^ (w - 1)) as Hpow.
  { replace w with (Z.succ (w - 1)) at 1 by lia. apply Z.pow_succ_r. lia. }
  assert (0 < 2 ^ (w - 1)) by (apply Z.pow_pos_nonneg; lia).
  unfold signed.
  destruct (Z.ltb_spec n 0);
    [destruct (Z.ltb_spec (2 ^ w + n) (2 ^ (w - 1)))
    |destruct (Z.ltb_spec n (2 ^ (w - 1)))]; repeat split; lia.
Qed.

Lemma i_signed_round_trip_witness : signed 252 8 = -4.
Proof.
  destruct (i_signed_round_trip (-4) 8 252 8 eq_refl) as (_ & _ & _ & H). exact H.
Defined.

(** ** pack.py *)

Section Byteify.

Lemma le_bytes_value val count : forall from,
  total_value ((fun b => (b, 8)) <$> le_bytes val from count)
  = (val / 2 ^ (8 * Z.of_nat from)) mod 2 ^ (8 * Z.of_nat count)
  /\ total_width ((fun b => (b, 8)) <$> le_bytes val from count) = 8 * Z.of_nat count
  /\ Forall well_formed ((fun b => (b, 8)) <$> le_bytes val from count).
Proof.
  induction count as [|count IH]; intros from.
  - simpl. rewrite Z.mod_1_r. repeat split; constructor.
  - destruct (IH (S from)) as (Hv & Hw & Hall).
    unfold le_bytes in *. cbn [seq fmap list_fmap total_value total_width foldr fst snd].
    cbn [fmap] in Hv, Hw, Hall. unfold total_value, total_width in Hv, Hw.
    rewrite Hv, Hw. split; [|split].
    + set (x := val / 2 ^ (8 * Z.of_nat from)).
      replace (val / 2 ^ (8 * Z.of_nat (S from))) with (x / 256).
      2:{ subst x. rewrite Z.div_div by (try apply Z.pow_pos_nonneg; lia).
          f_equal. replace (8 * Z.of_nat (S from)) with (8 * Z.of_nat from + 8) by lia.
          rewrite Z.pow_add_r by lia. reflexivity. }
      replace (2 ^ (8 * Z.of_nat (S count))) with (256 * 2 ^ (8 * Z.of_nat count)).
      2:{ replace (8 * Z.of_nat (S count)) with (8 + 8 * Z.of_nat count) by lia.
          rewrite Z.pow_add_r by lia. reflexivity. }
      change (2 ^ 8) with 256.
      assert (0 < 2 ^ (8 * Z.of_nat count)) by (apply Z.pow_pos_nonneg; lia).
      rewrite Z.rem_mul_r by lia. reflexivity.
    + lia.
    + apply List.Forall_cons; [|exact Hall].
      split; simpl; [lia|]. apply Z.mod_pos_bound. lia.
Qed.

Lemma byteify_loop val size count : forall from,
  8 * Z.of_nat (from + count) <= size ->
  mapM (fun i => byte ← Bits.slice (val, size) (i + 7) i;
                 OK (Subv.Part (Subv.VInt (fst byte)) []))
       ((fun k => 8 * Z.of_nat k) <$> seq from count)
  = OK (byte_part <$> le_bytes val from count).
Proof.
  induction count as [|count IH]; intros from Hle; [reflexivity|].
  unfold le_bytes in *. cbn [seq fmap list_fmap mapM].
  rewrite slice_value by lia. rewrite bind_OK. cbn [fst].
  replace (8 * Z.of_nat from + 7 - 8 * Z.of_nat from + 1) with 8 by lia.
  change (2 ^ 8) with 256. rewrite bind_OK.
  cbn [fmap] in IH. rewrite IH by lia. reflexivity.
Qed.

End Byteify.

(** X7.  [byteify] raises "not byte aligned" exactly when the width is not
    a multiple of 8.  Otherwise it returns [size/8] untagged parts, the bytes
    of the value least significant first, each in 0..255, and concatenating
    them as 8-bit fields gives back the value (reduced to its width). *)
Theorem byteify_little_endian (val size : Z) :
  (size mod 8 <> 0 -> Pack.byteify (val, size) = Err (NotByteAligned size))
  /\ (0 <= size -> size mod 8 = 0 ->
      let bytes := le_bytes val 0 (Z.to_nat (size / 8)) in
      Pack.byteify (val, size) = OK (byte_part <$> bytes)
      /\ Z.of_nat (length bytes) = size / 8
      /\ Forall (fun b => 0 <= b < 256) bytes
      /\ Bits.concat ((fun b => (b, 8)) <$> bytes) = OK (val mod 2 ^ size, size)).
Proof.
  unfold Pack.byteify. split.
  - intros H. destruct (Z.eqb_spec (size mod 8) 0); [contradiction|reflexivity].
  - intros Hs Hm. cbv zeta. set (bytes := le_bytes val 0 (Z.to_nat (size / 8))).
    rewrite Hm. cbn [Z.eqb negb].
    assert (size = 8 * (size / 8)) as Hsize by (apply Z.div_exact; lia).
    assert (0 <= size / 8) as Hk by (apply Z.div_pos; lia).
    assert ((size + 7) / 8 = size / 8) as Hceil.
    { rewrite Hsize at 1. rewrite Z.mul_comm, Z.div_add_l by lia.
      rewrite (Z.div_small 7 8) by lia. lia. }
    unfold Pack.range8. rewrite Hceil.
    split; [|split; [|split]].
    + apply byteify_loop. simpl. lia.
    + subst bytes. unfold le_bytes. rewrite length_fmap, length_seq. lia.
    + subst bytes. unfold le_bytes. apply Forall_fmap, Forall_forall.
      intros j _. simpl. apply Z.mod_pos_bound. lia.
    + destruct (le_bytes_value val (Z.to_nat (size / 8)) 0) as (Hv & Hw & Hall).
      rewrite concat_value by exact Hall. subst bytes. rewrite Hv, Hw.
      rewrite Z2Nat.id by lia. rewrite <- Hsize.
      simpl (8 * Z.of_nat 0). rewrite Z.pow_0_r, Z.div_1_r. reflexivity.
Qed.

(** ** subv.py *)

Section Decimal.

Lemma digits_dec_string d : forall acc,
  digits 10 acc false (DecimalString.NilEmpty.string_of_uint d) = Some (dec_value acc d)
  /\ all_chars is_digit (DecimalString.NilEmpty.string_of_uint d) = true.
Proof.
  induction d; intros acc; [split; reflexivity|..]; apply IHd.
Qed.

Lemma of_uint_acc_dec l : forall p,
  Z.pos (Pos.of_uint_acc l p) = dec_value (Z.pos p) l.
Proof.
  induction l; intros p; simpl; rewrite ?IHl; [reflexivity|..]; f_equal; lia.
Qed.

Lemma of_uint_dec d : Z.of_N (Pos.of_uint d) = dec_value 0 d.
Proof.
  induction d; simpl; [reflexivity|exact IHd|..];
    rewrite of_uint_acc_dec; reflexivity.
Qed.

Lemma digit_lower_hex c : is_digit c = true -> is_lower_hex c = true.
Proof. unfold is_lower_hex. now intros ->. Qed.

(** The decimal digits of a positive number. *)
Lemma pos_digits p :
  let s := DecimalString.NilZero.string_of_uint (Pos.to_uint p) in
  digits 10 0 false s = Some (Z.pos p)
  /\ all_chars is_digit s = true /\ nonempty s = true.
Proof.
  cbv zeta. unfold DecimalString.NilZero.string_of_uint.
  pose proof (DecimalPos.Unsigned.of_to p) as Hp.
  pose proof (DecimalPos.Unsigned.to_uint_nonnil p) as Hnil.
  destruct (Pos.to_uint p) as [|u|u|u|u|u|u|u|u|u|u] eqn:E; [contradiction|..];
    match goal with
    | |- context [DecimalString.NilEmpty.string_of_uint ?d] =>
        destruct (digits_dec_string d 0) as [Hd Ha]
    end;
    rewrite Hd, <- of_uint_dec, Hp; repeat split; assumption.
Qed.

Lemma digit_string_int s n :
  all_chars is_digit s = true -> nonempty s = true ->
  digits 10 0 false s = Some n ->
  py_int 10 s = OK n.
Proof.
  intros Hall Hne Hd.
  assert (all_chars is_lower_hex s = true) as Hhex
    by (eapply all_chars_impl; [apply digit_lower_hex|exact Hall]).
  destruct s as [|c s]; [discriminate|].
  simpl in Hhex. apply andb_true_iff in Hhex as [Hc Hs].
  destruct (lower_hex_char c Hc) as (Hsp & Hus & Hm & Hp & _).
  unfold py_int, int_strip. simpl int_lstrip. rewrite (int_space_is_space c Hsp).
  rewrite int_rstrip_all_lower_hex by (simpl; now rewrite Hc).
  rewrite Hm, Hp. unfold py_uint.
  destruct s as [|x r].
  - rewrite Hus, Hd. reflexivity.
  - change (10 =? 16) with false. rewrite andb_false_r. cbn [andb].
    rewrite Hus, Hd. reflexivity.
Qed.

(** [int(str(n)) == n], and [str(n)] of a natural number is made of digits. *)
Lemma str_of_int_parse n :
  py_int 10 (str_of_int n) = OK n
  /\ (0 <= n -> all_chars is_digit (str_of_int n) = true
               /\ nonempty (str_of_int n) = true).
Proof.
  unfold str_of_int. destruct n as [|p|p]; simpl Z.to_int.
  - split; [reflexivity|]. intros _. split; reflexivity.
  - destruct (pos_digits p) as (Hd & Ha & Hn).
    split; [now apply digit_string_int|auto].
  - destruct (pos_digits p) as (Hd & Ha & Hn). split; [|lia].
    cbn [DecimalString.NilZero.string_of_int].
    assert (all_chars is_lower_hex (DecimalString.NilZero.string_of_uint (Pos.to_uint p)) = true)
      as Hhex by (eapply all_chars_impl; [apply digit_lower_hex|exact Ha]).
    unfold py_int, int_strip. simpl int_lstrip. rewrite int_rstrip_cons by reflexivity.
    rewrite int_rstrip_all_lower_hex by assumption.
    change (code "-" =? 45) with true. cbv iota beta.
    destruct (DecimalString.NilZero.string_of_uint (Pos.to_uint p)) as [|c s] eqn:E;
      [discriminate|].
    simpl in Hhex. apply andb_true_iff in Hhex as [Hc Hs].
    destruct (lower_hex_char c Hc) as (_ & Hus & _).
    unfold py_uint. destruct s as [|x r].
    + rewrite Hus, Hd. reflexivity.
    + change (10 =? 16) with false. rewrite andb_false_r. cbn [andb].
      rewrite Hus, Hd. reflexivity.
Qed.

End Decimal.

Section References.
Import Subv.

Lemma span_app_stop p a c r :
  all_chars p a = true -> p c = false ->
  span p (a ++ String c r) = (a, String c r).
Proof.
  intros Ha Hc. induction a as [|x a IH].
  - simpl. now rewrite Hc.
  - simpl in Ha. apply andb_true_iff in Ha as [Hx Ha].
    change (String x a ++ String c r) with (String x (a ++ String c r)).
    simpl. now rewrite Hx, IH.
Qed.

Lemma slice_re_match_render lbl dh dl :
  label_ok lbl = true ->
  all_chars is_digit dh = true -> nonempty dh = true ->
  all_chars is_digit dl = true -> nonempty dl = true ->
  slice_re_match (lbl ++ "[" ++ dh ++ ":" ++ dl ++ "]") = Some (lbl, Some (dh, dl)).
Proof.
  intros Hl Hh Hhn Hd Hdn. apply andb_true_iff in Hl as [Hln Hlb].
  unfold slice_re_match.
  change (lbl ++ "[" ++ dh ++ ":" ++ dl ++ "]")
    with (lbl ++ String "[" (dh ++ String ":" (dl ++ String "]" ""))).
  rewrite (span_app_stop (fun c => negb (code c =? 91))) by (assumption || reflexivity).
  rewrite Hln. cbn [negb].
  rewrite (span_app_stop is_digit) by (assumption || reflexivity).
  rewrite (span_app_stop is_digit) by (assumption || reflexivity).
  now rewrite Hhn, Hdn.
Qed.

Lemma field_re_match_render md ds :
  md = "imm" \/ md = "off" ->
  all_chars is_digit ds = true -> nonempty ds = true ->
  field_re_match (md ++ ds) = Some (md, ds).
Proof.
  intros [-> | ->] Hd Hn; unfold field_re_match;
    [change ("imm" ++ ds) with (String "i" (String "m" (String "m" ds)))
    |change ("off" ++ ds) with (String "o" (String "f" (String "f" ds)))];
    cbn [String.eqb Ascii.eqb Bool.eqb orb andb];
    rewrite span_all by assumption; now rewrite Hn.
Qed.

(** A reference as [format.py] renders it is read back by
    [parse_reference]. *)
Lemma parse_reference_rendered lbl md sz hi lo meta :
  label_ok lbl = true -> md = "imm" \/ md = "off" ->
  0 <= sz -> 0 <= hi -> 0 <= lo ->
  parse_reference (Part (VStr (Format.render_ref lbl hi lo))
                        (VStr (md ++ str_of_int sz) :: meta))
  = OK (Reference lbl md sz meta (Some (hi, lo))).
Proof.
  intros Hl Hm Hsz Hhi Hlo.
  destruct (str_of_int_parse sz) as [Hps [Hds Hns]]; [assumption|].
  destruct (str_of_int_parse hi) as [Hph [Hdh Hnh]]; [assumption|].
  destruct (str_of_int_parse lo) as [Hpl [Hdl Hnl]]; [assumption|].
  unfold parse_reference, Format.render_ref. cbn [head tags].
  rewrite slice_re_match_render, field_re_match_render by assumption.
  rewrite Hps, bind_OK, Hph, bind_OK, Hpl, !bind_OK. reflexivity.
Qed.

End References.

Section Parser.
Import Subv.

Lemma split1_spec sep s : forall a b,
  split1 sep s = (a, b) ->
  all_chars (fun c => negb (Ascii.eqb c sep)) a = true
  /\ s = a ++ match b with Some r => String sep r | None => EmptyString end.
Proof.
  induction s as [|c s IH]; simpl; intros a b H.
  - injection H as <- <-. split; reflexivity.
  - destruct (Ascii.eqb c sep) eqn:Hc.
    + injection H as <- <-. apply Ascii.eqb_eq in Hc. subst c. split; reflexivity.
    + destruct (split1 sep s) as [a' b'] eqn:E. injection H as <- <-.
      destruct (IH a' b' eq_refl) as [Hall Hs]. split.
      * simpl. now rewrite Hc, Hall.
      * rewrite Hs at 1. reflexivity.
Qed.

Lemma py_int_error base s e : py_int base s = Err e -> e = InvalidLiteral base s.
Proof.
  unfold py_int. destruct (int_strip s) as [|c r].
  - destruct (py_uint base ""); [discriminate|now intros [= <-]].
  - destruct (code c =? 45); [|destruct (code c =? 43)];
      destruct (py_uint base _); try discriminate; now intros [= <-].
Qed.

Lemma parse_segment_error l e :
  parse_segment l = Err e ->
  e = InvalidSegmentLine \/ exists t, e = InvalidLiteral 16 t.
Proof.
  unfold parse_segment.
  destruct (white_split l) as [|a [|name [|base [|]]]]; try (intros [= <-]; now left).
  destruct (py_int 16 base) eqn:E; [discriminate|].
  intros [= <-]. right. apply py_int_error in E. eauto.
Qed.

End Parser.

(** X8.  [parse_part] undoes [format_part]: a part whose items hold no
    separator, whose tags are strings and whose head, if a string, is not a
    hexadecimal literal, is printed to a text that parses back to the same
    part; an integer head is printed in hexadecimal and read back as the
    same integer, whatever its sign. *)
Theorem parse_part_format_part (p : Subv.part) :
  printable_part p = true ->
  Subv.parse_part (Subv.format_part p) = OK p.
Proof. intros H. now apply parse_format_part. Qed.

Lemma parse_part_format_part_witness :
  Subv.parse_part (Subv.format_part (Subv.Part (Subv.VInt (-18)) [Subv.VStr "and"; Subv.VStr "tag"]))
  = OK (Subv.Part (Subv.VInt (-18)) [Subv.VStr "and"; Subv.VStr "tag"]).
Proof. apply parse_part_format_part. reflexivity. Defined.

Lemma print_parse_without_comment_witness :
  Subv.parse "ff/op 00/subop/add 01/rd/x1 label[11:0]/imm12"
  = OK (Subv.Line "ff/op 00/subop/add 01/rd/x1 label[11:0]/imm12"
          "ff/op 00/subop/add 01/rd/x1 label[11:0]/imm12" None
          (Subv.PInstr [Subv.Part (Subv.VInt 255) [Subv.VStr "op"];
                        Subv.Part (Subv.VInt 0) [Subv.VStr "subop"; Subv.VStr "add"];
                        Subv.Part (Subv.VInt 1) [Subv.VStr "rd"; Subv.VStr "x1"];
                        Subv.Part (Subv.VStr "label[11:0]") [Subv.VStr "imm12"]])).
Proof.
  apply (print_parse_without_comment
           [Subv.Part (Subv.VInt 255) [Subv.VStr "op"];
            Subv.Part (Subv.VInt 0) [Subv.VStr "subop"; Subv.VStr "add"];
            Subv.Part (Subv.VInt 1) [Subv.VStr "rd"; Subv.VStr "x1"];
            Subv.Part (Subv.VStr "label[11:0]") [Subv.VStr "imm12"]] "" "").
  reflexivity.
Defined.

(** X10.  [parse] raises only on a malformed segment header.  A line whose
    cleaned text is not classified as a segment is always parsed, to a line
    of the type [classify] gives, with the stripped text as [raw]; and the
    only exceptions of [parse] are "invalid segment line" and the
    [ValueError] of [int(base, 16)]. *)
Theorem parse_raises_only_on_headers (l : string) :
  (Subv.classify (clean_text l) <> Subv.segment ->
     exists ln, Subv.parse l = OK ln
                /\ Subv.type ln = Subv.classify (clean_text l)
                /\ Subv.raw ln = strip l
                /\ Subv.line ln = clean_text l)
  /\ (forall e, Subv.parse l = Err e ->
        Subv.classify (clean_text l) = Subv.segment
        /\ (e = InvalidSegmentLine \/ exists t, e = InvalidLiteral 16 t)).
Proof.
  unfold clean_text, Subv.parse.
  destruct (split1 "#" (strip l)) as [clean cm]. cbn [fst].
  destruct (Subv.classify clean) eqn:Hc.
  - split; [intros _; eexists; repeat split|intros e [=]].
  - split; [intros H; contradiction|].
    intros e H. split; [reflexivity|].
    destruct (Subv.parse_segment clean) as [[name base]|e'] eqn:E; [discriminate|].
    injection H as <-. now apply parse_segment_error in E.
  - split; [intros _; eexists; repeat split|intros e [=]].
  - destruct (parse_instr_total clean) as [parts Hp]. rewrite Hp.
    split; [intros _; eexists; repeat split|intros e [=]].
Qed.

(** X11.  [parse] loses nothing of the stripped line: [line] is the text
    before the first [#] and holds no [#], [comment] is the text after it,
    and [raw] is the two put together again. *)
Theorem parse_splits_at_first_hash (l : string) (ln : Subv.pline) :
  Subv.parse l = OK ln ->
  Subv.raw ln = strip l
  /\ all_chars no_hash (Subv.line ln) = true
  /\ Subv.raw ln
     = Subv.line ln ++ match Subv.comment ln with
                       | Some c => "#" ++ c
                       | None => EmptyString
                       end.
Proof.
  intros Hp. apply parse_fields in Hp as [Hraw Hs].
  apply split1_spec in Hs as [Hall Heq].
  split; [exact Hraw|]. split; [exact Hall|].
  rewrite Hraw, Heq at 1. now destruct (Subv.comment ln).
Qed.

Lemma parse_splits_at_first_hash_witness :
  all_chars no_hash "13/7 06/5 # a # b" = false
  /\ all_chars no_hash "13/7 06/5 " = true.
Proof.
  split; [reflexivity|].
  apply (parse_splits_at_first_hash "  13/7 06/5 # a # b "
           (Subv.Line "13/7 06/5 # a # b" "13/7 06/5 " (Some " a # b")
              (Subv.PInstr [Subv.Part (Subv.VInt 0x13) [Subv.VStr "7"];
                            Subv.Part (Subv.VInt 6) [Subv.VStr "5"]]))).
  reflexivity.
Defined.

(** X12.  A reference as [format.py] renders it, [label[hi:lo]] tagged
    [immN] or [offN], is read back by [parse_reference] with the same label,
    mode, size and bounds, and with the further tags as [meta]. *)
Theorem parse_reference_of_rendered
    (lbl md : string) (sz hi lo : Z) (meta : list Subv.atom) :
  label_ok lbl = true -> md = "imm" \/ md = "off" ->
  0 <= sz -> 0 <= hi -> 0 <= lo ->
  Subv.parse_reference
    (Subv.Part (Subv.VStr (Format.render_ref lbl hi lo))
               (Subv.VStr (md ++ str_of_int sz) :: meta))
  = OK (Subv.Reference lbl md sz meta (Some (hi, lo))).
Proof. apply parse_reference_rendered. Qed.

Lemma parse_reference_of_rendered_witness :
  Subv.parse_reference (Subv.Part (Subv.VStr "x[11:0]") [Subv.VStr "off12"])
  = OK (Subv.Reference "x" "off" 12 [] (Some (11, 0))).
Proof.
  apply (parse_reference_of_rendered "x" "off" 12 11 0 []); try reflexivity; try lia.
  now right.
Defined.

(** ** format.py *)

Section PackersConcrete.
Import Subv Format.

Lemma untag_i_value p e b q :
  untag_i p e b = OK q -> exists v, q = to_pair (v, b) /\ well_formed (v, b) /\ 1 <= b.
Proof.
  unfold untag_i. intros H. inv_ok H. inv_ok H. inv_ok H. subst q.
  destruct (i_in_range _ _ _ Hx1) as (Hb & Hr & ->).
  eexists. split; [reflexivity|]. split; [|assumption].
  assert (2 ^ b = 2 * 2 ^ (b - 1)) as Hpow.
  { replace b with (Z.succ (b - 1)) at 1 by lia. apply Z.pow_succ_r. lia. }
  assert (0 < 2 ^ (b - 1)) by (apply Z.pow_pos_nonneg; lia).
  split; simpl; [lia|]. destruct (Z.ltb_spec x0 0); lia.
Qed.

Lemma untag_u_value p e b q :
  0 <= b -> untag_u p e b = OK q -> exists v, q = to_pair (v, b) /\ well_formed (v, b).
Proof.
  intros Hb H. apply untag_u_ok in H as (n & _ & -> & Hn).
  exists n. split; [reflexivity|]. split; simpl; lia.
Qed.

Lemma slice_bit_or_ref_concrete v w hi lo :
  slice_bit_or_ref (to_pair (v, w)) hi lo = to_pair <$> Bits.slice (v, w) hi lo.
Proof. reflexivity. Qed.

Lemma slice_bit_or_ref_reference val hi lo q :
  is_reference val = true -> slice_bit_or_ref val hi lo = OK q -> is_reference q = true.
Proof.
  unfold slice_bit_or_ref. intros ->. cbn [negb]. intros H. inv_ok H.
  destruct (bounds x) as [[h l]|]; [|discriminate].
  destruct (negb _); [discriminate|]. now injection H as <-.
Qed.

(** A field sliced out of a concrete immediate. *)
Lemma slice_bit_or_ref_value v w hi lo q :
  0 <= lo -> lo <= hi -> hi < w ->
  slice_bit_or_ref (to_pair (v, w)) hi lo = OK q ->
  q = to_pair ((v / 2 ^ lo) mod 2 ^ (hi - lo + 1), hi - lo + 1)
  /\ well_formed ((v / 2 ^ lo) mod 2 ^ (hi - lo + 1), hi - lo + 1).
Proof.
  intros H0 H1 H2. rewrite slice_bit_or_ref_concrete, slice_value by lia.
  intros [= <-]. split; [reflexivity|].
  split; simpl; [lia|]. apply Z.mod_pos_bound, Z.pow_pos_nonneg; lia.
Qed.

Ltac concrete_packer H Hc :=
  repeat inv_ok H; injection H as <-;
  repeat match goal with
  | H : untag_u _ _ _ = OK _ |- _ =>
      apply untag_u_value in H as (? & -> & ?); [|lia]
  end;
  match goal with
  | H : (if is_reference ?imm then _ else _) = OK _ |- _ =>
      destruct (is_reference imm);
      [ apply default_slice_ok in H;
        repeat match goal with
        | Hs : slice_bit_or_ref _ _ _ = OK _ |- _ =>
            apply (slice_bit_or_ref_reference _ _ _ _ H) in Hs
        end;
        exfalso;
        repeat (apply List.Forall_cons_iff in Hc as [? Hc]); simpl in *; congruence
      | apply untag_i_value in H as (? & -> & ? & ?) ]
  end;
  repeat match goal with
  | Hs : slice_bit_or_ref (to_pair _) _ _ = OK _ |- _ =>
      apply slice_bit_or_ref_value in Hs as [-> ?]; [|lia..]
  end;
  unfold concrete_fields;
  repeat (apply List.Forall2_cons; [eexists; split; [reflexivity|eassumption]|]);
  apply List.Forall2_nil.

Lemma pack_u_concrete instr ps :
  pack_u instr = OK ps -> Forall (fun p => is_reference p = false) ps ->
  concrete_fields ps [7; 5; 20].
Proof.
  intros H Hc. unfold pack_u in H.
  destruct instr as [|op [|rd [|imm [|]]]]; try discriminate.
  concrete_packer H Hc.
Qed.

Lemma pack_i_concrete instr ps :
  pack_i instr = OK ps -> Forall (fun p => is_reference p = false) ps ->
  concrete_fields ps [7; 5; 3; 5; 12].
Proof.
  intros H Hc. unfold pack_i in H.
  destruct instr as [|op [|sub [|rd [|rs [|imm [|]]]]]]; try discriminate.
  concrete_packer H Hc.
Qed.

Lemma pack_s_concrete instr ps :
  pack_s instr = OK ps -> Forall (fun p => is_reference p = false) ps ->
  concrete_fields ps [7; 5; 3; 5; 5; 7].
Proof.
  intros H Hc. unfold pack_s in H.
  destruct instr as [|op [|sub [|rd [|rs [|imm [|]]]]]]; try discriminate.
  concrete_packer H Hc.
Qed.

Lemma pack_j_concrete instr ps :
  pack_j instr = OK ps -> Forall (fun p => is_reference p = false) ps ->
  concrete_fields ps [7; 5; 8; 1; 10; 1].
Proof.
  intros H Hc. unfold pack_j in H.
  destruct instr as [|op [|rd [|imm [|]]]]; try discriminate.
  concrete_packer H Hc.
Qed.

Lemma pack_b_concrete instr ps :
  pack_b instr = OK ps -> Forall (fun p => is_reference p = false) ps ->
  concrete_fields ps [7; 1; 4; 3; 5; 5; 6; 1].
Proof.
  intros H Hc. unfold pack_b in H.
  destruct instr as [|op [|sub [|rd [|rs [|imm [|]]]]]]; try discriminate.
  concrete_packer H Hc.
Qed.

Lemma concrete_fields_list ps widths :
  concrete_fields ps widths ->
  exists fields,
    ps = to_pair <$> fields /\ Forall well_formed fields /\ snd <$> fields = widths.
Proof.
  induction 1 as [|p w ps widths (v & -> & Hwf) _ (fields & -> & Hall & <-)].
  - exists []. repeat split. constructor.
  - exists ((v, w) :: fields). repeat split. now constructor.
Qed.

End PackersConcrete.

Section ReferenceShape.
Import Subv Format.

Lemma digits_all_digits s : forall acc,
  all_chars is_digit s = true ->
  exists v, digits 10 acc false s = Some v /\ (0 <= acc -> 0 <= v).
Proof.
  induction s as [|c s IH]; intros acc H; simpl.
  - eauto.
  - simpl in H. apply andb_true_iff in H as [Hc Hs].
    destruct (lower_hex_char c (digit_lower_hex c Hc)) as (_ & -> & _).
    unfold digit_val. unfold is_digit in Hc. rewrite Hc.
    unfold between in Hc. apply andb_true_iff in Hc as [H1 H2].
    apply Z.leb_le in H1, H2.
    destruct (Z.ltb_spec (code c - 48) 10); [|lia].
    destruct (IH (acc * 10 + (code c - 48)) Hs) as (v & -> & Hv).
    exists v. split; [reflexivity|]. intros Hacc. apply Hv. lia.
Qed.

Lemma digit_string_value s n :
  all_chars is_digit s = true -> nonempty s = true ->
  py_int 10 s = OK n -> 0 <= n.
Proof.
  intros Hall Hne Hp.
  destruct (digits_all_digits s 0 Hall) as (v & Hd & Hv).
  rewrite (digit_string_int s v Hall Hne Hd) in Hp. injection Hp as <-. lia.
Qed.

Lemma field_re_match_spec field md ds :
  field_re_match field = Some (md, ds) ->
  (md = "imm" \/ md = "off") /\ all_chars is_digit ds = true /\ nonempty ds = true.
Proof.
  unfold field_re_match. destruct field as [|a [|b [|c rest]]]; try discriminate.
  destruct (String.eqb _ "imm" || String.eqb _ "off") eqn:E; [|discriminate].
  destruct (span is_digit rest) as [d r] eqn:Hs.
  destruct (nonempty d && at_dollar r) eqn:E2; [|discriminate].
  intros H. inversion H; subst. apply andb_true_iff in E2 as [Hn _].
  apply span_spec in Hs as [_ Hd].
  apply orb_true_iff in E. rewrite !String.eqb_eq in E. auto.
Qed.

Lemma slice_re_match_spec ref lbl o :
  slice_re_match ref = Some (lbl, o) ->
  label_ok lbl = true
  /\ forall dh dl, o = Some (dh, dl) ->
       all_chars is_digit dh = true /\ nonempty dh = true
       /\ all_chars is_digit dl = true /\ nonempty dl = true.
Proof.
  unfold slice_re_match.
  destruct (span (fun c => negb (code c =? 91)) ref) as [l rest] eqn:Hs.
  apply span_spec in Hs as [_ Hl].
  destruct (nonempty l) eqn:Hn; [|discriminate]. cbn [negb].
  assert (label_ok l = true) as Hok by (unfold label_ok; now rewrite Hn).
  destruct rest as [|c rest]; [intros [= <- <-]; split; [assumption|discriminate]|].
  destruct (span is_digit rest) as [dh r1] eqn:H1.
  destruct r1 as [|colon r1]; [discriminate|].
  destruct (span is_digit r1) as [dl r2] eqn:H2.
  destruct r2 as [|br r2]; [discriminate|].
  destruct (_ && _) eqn:E; [|discriminate].
  intros [= <- <-]. split; [assumption|]. intros ? ? [= <- <-].
  apply span_spec in H1 as [_ H1]. apply span_spec in H2 as [_ H2].
  repeat (apply andb_true_iff in E as [E ?]). auto.
Qed.

(** What a successfully parsed reference is made of. *)
Lemma parse_reference_inv val r :
  parse_reference val = OK r ->
  exists ref field ds,
    head val = VStr ref /\ tags val = VStr field :: meta r
    /\ field_re_match field = Some (mode r, ds) /\ py_int 10 ds = OK (size r)
    /\ label_ok (ref_label r) = true
    /\ (mode r = "imm" \/ mode r = "off")
    /\ 0 <= size r
    /\ (forall h l, bounds r = Some (h, l) -> 0 <= h /\ 0 <= l).
Proof.
  unfold parse_reference.
  destruct (head val) as [n|ref]; destruct (tags val) as [|tag rest];
    try discriminate.
  destruct (slice_re_match ref) as [[lbl o]|] eqn:Hs; [|discriminate].
  destruct tag as [m|field]; [discriminate|].
  destruct (field_re_match field) as [[md ds]|] eqn:Hf; [|discriminate].
  intros H. inv_ok H. inv_ok H. injection H as <-. cbn.
  destruct (field_re_match_spec _ _ _ Hf) as (Hmd & Hd & Hn).
  destruct (slice_re_match_spec _ _ _ Hs) as (Hl & Ho).
  exists ref, field, ds. repeat split; auto.
  - eapply digit_string_value; eauto.
  - destruct o as [[dh dl]|]; [|injection Hx0 as <-; discriminate].
    destruct (Ho dh dl eq_refl) as (Hh1 & Hh2 & Hl1 & Hl2).
    inv_ok Hx0. inv_ok Hx0. injection Hx0 as <-.
    injection H as <- <-. now apply (digit_string_value dh).
  - destruct o as [[dh dl]|]; [|injection Hx0 as <-; discriminate].
    destruct (Ho dh dl eq_refl) as (Hh1 & Hh2 & Hl1 & Hl2).
    inv_ok Hx0. inv_ok Hx0. injection Hx0 as <-.
    injection H as <- <-. now apply (digit_string_value dl).
Qed.

(** The same tags under a re-rendered head. *)
Lemma parse_reference_rehead lbl field md ds sz hi lo meta :
  label_ok lbl = true ->
  field_re_match field = Some (md, ds) -> py_int 10 ds = OK sz ->
  0 <= hi -> 0 <= lo ->
  parse_reference (Part (VStr (render_ref lbl hi lo)) (VStr field :: meta))
  = OK (Reference lbl md sz meta (Some (hi, lo))).
Proof.
  intros Hl Hf Hs Hhi Hlo.
  destruct (str_of_int_parse hi) as [Hph [Hdh Hnh]]; [assumption|].
  destruct (str_of_int_parse lo) as [Hpl [Hdl Hnl]]; [assumption|].
  unfold parse_reference, render_ref. cbn [head tags].
  rewrite slice_re_match_render by assumption. rewrite Hf.
  rewrite Hs, bind_OK, Hph, bind_OK, Hpl, !bind_OK. reflexivity.
Qed.

Lemma total_width_sum fields : total_width fields = foldr Z.add 0 (snd <$> fields).
Proof.
  unfold total_width. induction fields as [|x l IH]; [reflexivity|].
  rewrite fmap_cons. cbn [foldr]. now rewrite IH.
Qed.

Lemma instr_map_packers m f e :
  instr_map m = Some (f, e) ->
  f = pack_u \/ f = pack_i \/ f = pack_s \/ f = pack_j \/ f = pack_b.
Proof.
  unfold instr_map.
  repeat (destruct (String.eqb m _); [intros [= <- _]; tauto|]).
  discriminate.
Qed.

End ReferenceShape.

(** X13.  When none of the fields Format emits for an instruction is
    symbolic, every field is well formed (its value fits its width), the
    widths are those of one of the five formats, U, I, S, J or B, and the
    fields concatenate to a 32-bit word. *)
Theorem format_emits_32_bit_word (parts ps : list Subv.part) :
  Format.format_instr parts = OK ps ->
  Forall (fun p => Subv.is_reference p = false) ps ->
  exists fields,
    ps = to_pair <$> fields
    /\ Forall well_formed fields
    /\ In (snd <$> fields)
         [[7; 5; 20]; [7; 5; 3; 5; 12]; [7; 5; 3; 5; 5; 7];
          [7; 5; 8; 1; 10; 1]; [7; 1; 4; 3; 5; 5; 6; 1]]
    /\ Bits.concat fields = OK (total_value fields, 32)
    /\ 0 <= total_value fields < 2 ^ 32.
Proof.
  intros Hf Hc. unfold Format.format_instr in Hf.
  destruct parts as [|op rest]; [discriminate|].
  destruct (Subv.tags op) as [|lbl [|]]; try discriminate.
  destruct lbl as [n|m]; [discriminate|].
  destruct (Format.instr_map m) as [[f e]|] eqn:Hm; [|discriminate].
  destruct (negb _); [discriminate|].
  assert (exists widths,
            concrete_fields ps widths
            /\ In widths [[7; 5; 20]; [7; 5; 3; 5; 12]; [7; 5; 3; 5; 5; 7];
                          [7; 5; 8; 1; 10; 1]; [7; 1; 4; 3; 5; 5; 6; 1]]) as (widths & Hw & Hin).
  { destruct (instr_map_packers _ _ _ Hm) as [-> | [-> | [-> | [-> | ->]]]];
      eexists; (split; [eauto using pack_u_concrete, pack_i_concrete, pack_s_concrete,
                          pack_j_concrete, pack_b_concrete|]); simpl; tauto. }
  destruct (concrete_fields_list _ _ Hw) as (fields & -> & Hall & Hsnd).
  exists fields. rewrite Hsnd. repeat split; auto.
  - rewrite concat_value by assumption. f_equal. f_equal.
    rewrite total_width_sum, Hsnd. simpl in Hin.
    destruct Hin as [<- | [<- | [<- | [<- | [<- | []]]]]]; reflexivity.
  - apply (total_value_bound fields Hall).
  - assert (total_width fields = 32) as <-.
    { rewrite total_width_sum, Hsnd. simpl in Hin.
      destruct Hin as [<- | [<- | [<- | [<- | [<- | []]]]]]; reflexivity. }
    apply (total_value_bound fields Hall).
Qed.

Lemma format_emits_32_bit_word_witness :
  exists fields,
    [to_pair (0x6f, 7); to_pair (0, 5); to_pair (255, 8); to_pair (1, 1);
     to_pair (1022, 10); to_pair (1, 1)] = to_pair <$> fields
    /\ Bits.concat fields = OK (total_value fields, 32).
Proof.
  destruct (format_emits_32_bit_word
              [Subv.Part (Subv.VInt 0x6f) [Subv.VStr "jal"];
               Subv.Part (Subv.VInt 0) [Subv.VStr "rd"; Subv.VStr "x0"];
               Subv.Part (Subv.VInt (-2)) [Subv.VStr "off20"]]
              [to_pair (0x6f, 7); to_pair (0, 5); to_pair (255, 8); to_pair (1, 1);
               to_pair (1022, 10); to_pair (1, 1)]
              eq_refl) as (fields & Hps & _ & _ & Hcat & _).
  { repeat constructor. }
  exists fields. split; assumption.
Defined.

(** ** survey.py *)

Section Observe.
Import Subv Survey.

Lemma observe_reference p r rel map :
  parse_reference p = OK r ->
  observe p rel map
  = (addr ← resolve r rel map;
     match bounds r with
     | None => Err (KeyError "hi")
     | Some (hi, lo) => to_pair <$> Bits.slice addr hi lo
     end).
Proof.
  intros Hr. unfold observe, resolve.
  rewrite (parse_reference_is_reference _ _ Hr), Hr. cbn [negb]. rewrite bind_OK.
  destruct (map !! ref_label r); reflexivity.
Qed.

Lemma resolve_width r rel map a : resolve r rel map = OK a -> snd a = 32.
Proof.
  unfold resolve. destruct (map !! ref_label r); [|discriminate].
  destruct (String.eqb _ _); intros H.
  - now apply u_ok_inv in H as [-> _].
  - now apply i_ok_inv in H as [-> _].
Qed.

End Observe.

(** X14.  Slicing commutes with resolution.  For a reference [label[H:L]]
    and a sub-range [[hi:lo]] inside it, [slice_bit_or_ref] gives a
    reference that [observe] resolves to the same field (or the same
    exception) as resolving the whole reference first and slicing the
    resulting bits: the bit scatter of the packers can be done before the
    labels are known. *)
Theorem observe_commutes_with_slice
    (val : Subv.part) (r : Subv.reference) (H L hi lo rel : Z) (map : gmap string Z) :
  Subv.parse_reference val = OK r ->
  Subv.bounds r = Some (H, L) ->
  0 <= lo -> lo <= hi -> L + hi <= H -> H < 32 ->
  exists sub,
    Format.slice_bit_or_ref val hi lo = OK sub
    /\ Subv.is_reference sub = true
    /\ Survey.observe sub rel map
       = (whole ← Survey.observe val rel map; Format.slice_bit_or_ref whole hi lo).
Proof.
  intros Hr Hb Hlo Hhi Hin H32.
  destruct (parse_reference_inv _ _ Hr)
    as (ref & field & ds & Hhead & Htags & Hf & Hsz & Hlbl & Hmode & Hsize & Hbnd).
  destruct (Hbnd H L Hb) as [HH HL].
  eexists. split; [|split].
  - unfold Format.slice_bit_or_ref.
    rewrite (parse_reference_is_reference _ _ Hr), Hr. cbn [negb]. rewrite bind_OK, Hb.
    destruct (Z.leb_spec (L + lo + (hi - lo)) H); [|lia]. reflexivity.
  - reflexivity.
  - rewrite Htags. cbn [drop]. rewrite drop_0.
    assert (0 <= hi - lo + 1 /\ 0 <= L + lo + (hi - lo) /\ 0 <= L + lo)
      as (Hs1 & Hs2 & Hs3) by lia.
    rewrite (observe_reference _ _ rel map
               (parse_reference_rendered (Subv.ref_label r) (Subv.mode r) _ _ _
                  (Subv.meta r) Hlbl Hmode Hs1 Hs2 Hs3)).
    rewrite (observe_reference _ _ rel map Hr), Hb.
    assert (resolve (Subv.Reference (Subv.ref_label r) (Subv.mode r) (hi - lo + 1)
                       (Subv.meta r) (Some (L + lo + (hi - lo), L + lo))) rel map
            = resolve r rel map) as -> by reflexivity.
    destruct (resolve r rel map) as [[v w]|e] eqn:Hres; [|reflexivity].
    apply resolve_width in Hres. simpl in Hres. subst w. rewrite !bind_OK.
    destruct (slice_compose v 32 H L hi lo) as (inner & Hin1 & Hin2); try lia.
    rewrite Hin1. cbn [fmap result_fmap]. rewrite bind_OK.
    destruct inner as [x wx]. rewrite slice_bit_or_ref_concrete, Hin2.
    replace (L + lo + (hi - lo)) with (L + hi) by lia. reflexivity.
Qed.

Lemma observe_commutes_with_slice_witness :
  exists sub,
    Format.slice_bit_or_ref (Subv.Part (Subv.VStr "main[20:1]") [Subv.VStr "off20"]) 18 11
    = OK sub
    /\ Subv.is_reference sub = true
    /\ Survey.observe sub 0x80000034 {[ "main" := 0x80000000 ]}
       = (whole ← Survey.observe (Subv.Part (Subv.VStr "main[20:1]") [Subv.VStr "off20"])
                   0x80000034 {[ "main" := 0x80000000 ]};
          Format.slice_bit_or_ref whole 18 11).
Proof.
  apply (observe_commutes_with_slice
           (Subv.Part (Subv.VStr "main[20:1]") [Subv.VStr "off20"])
           (Subv.Reference "main" "off" 20 [] (Some (20, 1))) 20 1 18 11);
    try reflexivity; lia.
Defined.

(** X15.  [default_slice] is idempotent: what it returns is a reference with
    an explicit slice whose width is the declared size, and applying
    [default_slice] to it again, with any default range, returns it
    unchanged.  A bare label gets the default range passed in. *)
Theorem default_slice_idempotent (val q : Subv.part) (hi lo : Z) :
  0 <= lo -> 0 <= hi ->
  Format.default_slice val hi lo = OK q ->
  (exists r h l,
     Subv.parse_reference q = OK r /\ Subv.bounds r = Some (h, l)
     /\ Subv.size r = h - l + 1
     /\ (forall r0, Subv.parse_reference val = OK r0 -> Subv.bounds r0 = None ->
           h = hi /\ l = lo))
  /\ forall hi' lo', Format.default_slice q hi' lo' = OK q.
Proof.
  intros Hlo Hhi Hd. unfold Format.default_slice in Hd. inv_ok Hd.
  destruct (parse_reference_inv _ _ Hx)
    as (ref & field & ds & Hhead & Htags & Hf & Hsz & Hlbl & Hmode & Hsize & Hbnd).
  set (b := match Subv.bounds x with Some b => b | None => (hi, lo) end) in *.
  assert (0 <= fst b /\ 0 <= snd b) as [Hb1 Hb2].
  { subst b. destruct (Subv.bounds x) as [[h l]|]; [apply (Hbnd h l eq_refl)|simpl; lia]. }
  destruct b as [h l] eqn:Eb. simpl in Hb1, Hb2.
  destruct (Z.eqb_spec (Subv.size x) (h - l + 1)) as [Heq|]; [|discriminate].
  cbn [negb] in Hd. injection Hd as <-.
  assert (Subv.parse_reference
            (Subv.Part (Subv.VStr (Format.render_ref (Subv.ref_label x) h l)) (Subv.tags val))
          = OK (Subv.Reference (Subv.ref_label x) (Subv.mode x) (Subv.size x)
                  (Subv.meta x) (Some (h, l)))) as Hq.
  { rewrite Htags. now apply parse_reference_rehead with ds. }
  split.
  - eexists _, h, l. split; [exact Hq|]. split; [reflexivity|]. split; [exact Heq|].
    intros r0 Hr0 Hnone. assert (r0 = x) as -> by congruence.
    subst b. rewrite Hnone in Eb. now injection Eb as <- <-.
  - intros hi' lo'. unfold Format.default_slice. rewrite Hq, bind_OK. cbn.
    destruct (Z.eqb_spec (Subv.size x) (h - l + 1)); [reflexivity|contradiction].
Qed.

Lemma default_slice_idempotent_witness :
  Format.default_slice (Subv.Part (Subv.VStr "label[12:1]") [Subv.VStr "imm12"]) 31 12
  = OK (Subv.Part (Subv.VStr "label[12:1]") [Subv.VStr "imm12"]).
Proof.
  destruct (default_slice_idempotent
              (Subv.Part (Subv.VStr "label") [Subv.VStr "imm12"])
              (Subv.Part (Subv.VStr "label[12:1]") [Subv.VStr "imm12"]) 12 1
              ltac:(lia) ltac:(lia) eq_refl) as [_ H].
  apply H.
Defined.

(** X16.  What [observe] returns.  A part that is no reference is returned
    as it is.  A reference to a label that the table lacks raises "undefined
    label".  A reference [label[H:L]] with [0 <= L <= H < 32] resolves, in
    mode [imm], to bits [L..H] of the address when the address is an
    unsigned 32-bit number, and in mode [off] to bits [L..H] of the offset
    from the instruction reduced modulo [2^32] when the offset is a signed
    32-bit number.  The result is never a reference. *)
Theorem observe_outcome (p : Subv.part) (rel : Z) (map : gmap string Z) :
  (Subv.is_reference p = false -> Survey.observe p rel map = OK p)
  /\ (forall q, Survey.observe p rel map = OK q -> Subv.is_reference q = false)
  /\ (forall r, Subv.parse_reference p = OK r ->
        (map !! Subv.ref_label r = None ->
           Survey.observe p rel map = Err (UndefinedLabel (Subv.ref_label r)))
        /\ (forall addr H L,
              map !! Subv.ref_label r = Some addr ->
              Subv.bounds r = Some (H, L) -> L <= H -> H < 32 ->
              (Subv.mode r = "imm" -> 0 <= addr < 2 ^ 32 ->
                 Survey.observe p rel map
                 = OK (to_pair ((addr / 2 ^ L) mod 2 ^ (H - L + 1), H - L + 1)))
              /\ (Subv.mode r = "off" -> - 2 ^ 31 <= addr - rel < 2 ^ 31 ->
                 Survey.observe p rel map
                 = OK (to_pair ((((addr - rel) mod 2 ^ 32) / 2 ^ L) mod 2 ^ (H - L + 1),
                                H - L + 1))))).
Proof.
  split; [|split].
  - intros Hp. unfold Survey.observe. now rewrite Hp.
  - intros q. unfold Survey.observe.
    destruct (Subv.is_reference p) eqn:Hp; cbn [negb]; [|now intros [= <-]].
    intros H. inv_ok H. destruct (map !! Subv.ref_label x); [|discriminate].
    inv_ok H. destruct (Subv.bounds x) as [[hi lo]|]; [|discriminate].
    inv_ok H. now subst q.
  - intros r Hr.
    destruct (parse_reference_inv _ _ Hr) as (_ & _ & _ & _ & _ & _ & _ & _ & _ & _ & Hbnd).
    rewrite (observe_reference _ _ rel map Hr). unfold resolve. split.
    + now intros ->.
    + intros addr H L Ha Hb HLH H32. destruct (Hbnd H L Hb) as [_ HL].
      rewrite Ha, Hb. split.
      * intros -> Haddr. cbn [String.eqb Ascii.eqb Bool.eqb].
        assert (Bits.u addr 32 = OK (addr, 32)) as ->.
        { apply u_ok_iff. split; [lia|]. apply bit_length_le_iff; lia. }
        rewrite bind_OK, slice_value by lia. reflexivity.
      * intros -> Hoff. cbn [String.eqb Ascii.eqb Bool.eqb].
        rewrite (i_ok_of_range (addr - rel) 32) by (change (32 - 1) with 31; lia).
        rewrite bind_OK, slice_value by lia. reflexivity.
Qed.

(** ** The Pack stage on one line *)

Section PackStage.
Import Subv.

Lemma byteify_ok val size :
  0 <= size -> size mod 8 = 0 ->
  Pack.byteify (val, size) = OK (byte_part <$> le_bytes val 0 (Z.to_nat (size / 8))).
Proof.
  intros Hs Hm. unfold Pack.byteify. rewrite Hm. cbn [Z.eqb negb].
  assert (size = 8 * (size / 8)) as Hsize by (apply Z.div_exact; lia).
  assert (0 <= size / 8) as Hk by (apply Z.div_pos; lia).
  assert ((size + 7) / 8 = size / 8) as Hceil.
  { rewrite Hsize at 1. rewrite Z.mul_comm, Z.div_add_l by lia.
    rewrite (Z.div_small 7 8) by lia. lia. }
  unfold Pack.range8. rewrite Hceil. apply byteify_loop. simpl. lia.
Qed.

Lemma format_set_instr ln parts :
  Subv.format (set_instr ln parts)
  = OK (with_comment (join " " (format_part <$> parts)) (comment ln)).
Proof.
  unfold Subv.format, set_instr, type, get_instr, with_comment. simpl.
  destruct (comment ln) as [[|c cs]|]; reflexivity.
Qed.

Lemma format_byte_parts (bytes : list Z) :
  format_part <$> (byte_part <$> bytes) = format_02x <$> bytes.
Proof.
  induction bytes as [|b bytes IH]; [reflexivity|].
  cbn [fmap list_fmap]. f_equal. exact IH.
Qed.

Lemma mapM_ok_length {A B} (f : A -> result B) (l : list A) : forall ys,
  mapM f l = OK ys -> length ys = length l.
Proof.
  induction l as [|x l IH]; intros ys H; simpl in H.
  - now injection H as <-.
  - inv_ok H. inv_ok H. injection H as <-. simpl. f_equal. now apply IH.
Qed.

Lemma concat_loop_size parts : forall val size r,
  Bits.concat_loop val size parts = OK r -> snd r = size + total_width parts.
Proof.
  induction parts as [|[v w] parts IH]; intros val size r H; simpl in H.
  - injection H as <-. simpl. lia.
  - inv_ok H. apply IH in H. rewrite H. simpl. lia.
Qed.

Lemma width_loop_fields parts : forall bits fields w,
  Forall (fun p => is_reference p = false) parts ->
  mapM Pack.from_part parts = OK fields ->
  Survey.width_loop bits parts = OK w ->
  w = bits + total_width fields.
Proof.
  induction parts as [|p parts IH]; intros bits fields w Hall Hf Hw; simpl in Hf, Hw.
  - injection Hf as <-. injection Hw as <-. simpl. lia.
  - apply List.Forall_cons_iff in Hall as [Hp Hall].
    inv_ok Hf. inv_ok Hf. injection Hf as <-.
    rewrite Hp in Hw. inv_ok Hw.
    unfold Pack.from_part in Hx. inv_ok Hx.
    destruct (tags p) as [|t ts]; [discriminate|].
    inv_ok Hx. injection Hx as <-.
    assert (x1 = x3) as -> by congruence.
    rewrite (IH _ _ _ Hall Hx0 Hw). simpl. lia.
Qed.

End PackStage.

(** X17.  Pack on an instruction line.  When the parts of the line are
    well-formed size-tagged fields whose widths add up to a multiple of 8,
    the line Pack yields is the bytes of their concatenation, least
    significant byte first, each printed as two hex digits and separated by
    one space, followed by the comment of the line if it has one. *)
Theorem pack_line_little_endian (seg : option string) (l : string) (ln : Subv.pline)
    (parts : list Subv.part) (fields : list Bits.bitfield) :
  Subv.parse l = OK ln -> Subv.body ln = Subv.PInstr parts ->
  mapM Pack.from_part parts = OK fields ->
  Forall well_formed fields -> total_width fields mod 8 = 0 ->
  Pack.pack_step seg l
  = OK (with_comment
          (join " " (format_02x <$> le_bytes (total_value fields) 0
                                      (Z.to_nat (total_width fields / 8))))
          (Subv.comment ln), seg).
Proof.
  intros Hp Hb Hf Hwf Hm. unfold Pack.pack_step.
  rewrite Hp, bind_OK. unfold Subv.type, Subv.get_instr. rewrite Hb.
  cbn [Subv.ltype_eqb]. rewrite bind_OK, Hf, bind_OK.
  rewrite (concat_value _ Hwf), bind_OK.
  rewrite byteify_ok by (try apply total_width_nonneg; assumption).
  rewrite bind_OK, format_set_instr, bind_OK, format_byte_parts. reflexivity.
Qed.

Lemma pack_line_little_endian_witness :
  Pack.pack_step (Some "code") "13/7 06/5 00/3 00/5 48/12 # H"
  = OK ("13 03 80 04 #  H", Some "code").
Proof.
  pose (parts := [Subv.Part (Subv.VInt 0x13) [Subv.VStr "7"];
                  Subv.Part (Subv.VInt 0x06) [Subv.VStr "5"];
                  Subv.Part (Subv.VInt 0x00) [Subv.VStr "3"];
                  Subv.Part (Subv.VInt 0x00) [Subv.VStr "5"];
                  Subv.Part (Subv.VInt 0x48) [Subv.VStr "12"]]).
  apply (pack_line_little_endian (Some "code") "13/7 06/5 00/3 00/5 48/12 # H"
           (Subv.Line "13/7 06/5 00/3 00/5 48/12 # H" "13/7 06/5 00/3 00/5 48/12 "
              (Some " H") (Subv.PInstr parts))
           parts [(0x13, 7); (0x06, 5); (0x00, 3); (0x00, 5); (0x48, 12)]);
    try reflexivity.
  repeat (apply List.Forall_cons; [split; simpl; lia|]). apply List.Forall_nil.
Defined.

(** X18.  Survey and Pack agree on the size of an instruction.  For an
    instruction without references that both accept, the width Survey adds
    up from the size tags is the width of the concatenated word, and Pack
    emits [width / 8] bytes for it, the amount by which Survey advances the
    address; when the tags add up to a negative width Pack emits no byte
    although Survey steps the address back. *)
Theorem survey_width_matches_pack
    (parts : list Subv.part) (bits : Z) (fields : list Bits.bitfield)
    (total : Bits.bitfield) (bytes : list Subv.part) :
  Forall (fun p => Subv.is_reference p = false) parts ->
  Survey.width_loop 0 parts = OK bits ->
  mapM Pack.from_part parts = OK fields ->
  Bits.concat fields = OK total ->
  Pack.byteify total = OK bytes ->
  snd total = bits /\ bits mod 8 = 0
  /\ Z.of_nat (length bytes) = Z.max 0 (bits / 8).
Proof.
  intros Hall Hw Hf Hc Hb.
  apply (width_loop_fields _ _ _ _ Hall Hf) in Hw. simpl in Hw.
  unfold Bits.concat in Hc. apply concat_loop_size in Hc. simpl in Hc.
  destruct total as [val size]. simpl in Hc.
  assert (size = bits) as -> by lia. clear Hc Hw.
  unfold Pack.byteify in Hb. cbn [snd].
  destruct (Z.eqb_spec (bits mod 8) 0) as [Hm|]; [|discriminate]. cbn [negb] in Hb.
  apply mapM_ok_length in Hb. rewrite Hb. unfold Pack.range8.
  rewrite length_fmap, length_seq.
  assert (bits = 8 * (bits / 8)) as Hsize by (apply Z.div_exact; lia).
  assert ((bits + 7) / 8 = bits / 8) as ->.
  { rewrite Hsize at 1. rewrite Z.mul_comm, Z.div_add_l by lia.
    rewrite (Z.div_small 7 8) by lia. lia. }
  repeat split; [assumption|lia].
Qed.

Lemma survey_width_matches_pack_witness :
  snd (0x4801813, 32) = 32 /\ 32 mod 8 = 0
  /\ Z.of_nat (length (byte_part <$> [19; 24; 128; 4])) = Z.max 0 (32 / 8).
Proof.
  apply (survey_width_matches_pack
           [Subv.Part (Subv.VInt 0x13) [Subv.VStr "7"];
            Subv.Part (Subv.VInt 0x10) [Subv.VStr "5"];
            Subv.Part (Subv.VInt 0x01) [Subv.VStr "3"];
            Subv.Part (Subv.VInt 0x00) [Subv.VStr "5"];
            Subv.Part (Subv.VInt 0x48) [Subv.VStr "12"]]
           32 [(0x13, 7); (0x10, 5); (0x01, 3); (0x00, 5); (0x48, 12)]);
    try reflexivity.
  repeat (apply List.Forall_cons; [reflexivity|]). apply List.Forall_nil.
Defined.

(** ** The loops of Pack and Survey *)

Section Loops.
Import Subv.

Lemma pack_step_other seg l ln o seg' :
  parse l = OK ln -> type ln <> instr ->
  Pack.pack_step seg l = OK (o, seg') -> o = strip l.
Proof.
  intros Hp Ht. unfold Pack.pack_step. rewrite Hp, bind_OK.
  destruct (parse_fields _ _ Hp) as [<- _].
  destruct (type ln) eqn:E; try contradiction; cbn [ltype_eqb].
  - now intros [= <- _].
  - intros H. inv_ok H. destruct x. now injection H as <- _.
  - now intros [= <- _].
Qed.

Lemma observe_not_reference p rel map q :
  Survey.observe p rel map = OK q -> is_reference q = false.
Proof.
  unfold Survey.observe.
  destruct (is_reference p) eqn:Hp; cbn [negb]; [|now intros [= <-]].
  intros H. inv_ok H. destruct (map !! ref_label x); [|discriminate].
  inv_ok H. destruct (bounds x) as [[hi lo]|]; [|discriminate].
  inv_ok H. now subst q.
Qed.

Lemma observe_all parts rel map : forall ps,
  mapM (fun p => Survey.observe p rel map) parts = OK ps ->
  length ps = length parts /\ Forall (fun p => is_reference p = false) ps.
Proof.
  induction parts as [|p parts IH]; intros ps H; simpl in H.
  - injection H as <-. split; [reflexivity|apply List.Forall_nil].
  - inv_ok H. inv_ok H. injection H as <-. destruct (IH _ Hx0) as [Hlen Hall].
    split; [simpl; now f_equal|].
    apply List.Forall_cons; [|assumption]. eapply observe_not_reference; eauto.
Qed.

Lemma pass1_app pre : forall st post,
  Survey.pass1 st (pre ++ post) = (st1 ← Survey.pass1 st pre; Survey.pass1 st1 post).
Proof.
  induction pre as [|l pre IH]; intros st post; simpl; [reflexivity|].
  destruct (Survey.pass1_step st l) as [st1|e]; [|reflexivity].
  rewrite !bind_OK. apply IH.
Qed.

Lemma pass1_step_map st l st' name :
  Survey.pass1_step st l = OK st' -> ~ defines name l ->
  Survey.map st' !! name = Survey.map st !! name.
Proof.
  unfold Survey.pass1_step. intros H Hn. inv_ok H.
  destruct (body x) as [|seg [base|]|lbl|parts] eqn:Hb; try discriminate;
    try (now injection H as <-).
  - injection H as <-. cbn [Survey.map]. apply lookup_insert_ne.
    intros ->. apply Hn. now exists x.
  - inv_ok H. destruct (negb _); [discriminate|]. now injection H as <-.
Qed.

Lemma pass1_map_other ls name : forall st st',
  Survey.pass1 st ls = OK st' -> Forall (fun l => ~ defines name l) ls ->
  Survey.map st' !! name = Survey.map st !! name.
Proof.
  induction ls as [|l ls IH]; intros st st' H Hall; simpl in H.
  - now injection H as <-.
  - apply List.Forall_cons_iff in Hall as [Hl Hall]. inv_ok H.
    rewrite (IH _ _ H Hall). eapply pass1_step_map; eauto.
Qed.

End Loops.

(** X19.  Pack yields one line for every line it reads, in order: when
    it finishes, a line that is no instruction comes out as it went in, with
    the white space around it removed; when it raises, it has yielded fewer
    lines than it was given. *)
Theorem pack_one_line_per_line (iter out : list string) (r : option exn) :
  Pack.pack iter = (out, r) ->
  (r = None ->
   Forall2 (fun l o => forall ln, Subv.parse l = OK ln ->
                                  Subv.type ln <> Subv.instr -> o = strip l)
           iter out)
  /\ (r <> None -> (length out < length iter)%nat).
Proof.
  unfold Pack.pack. generalize (@None string) as seg. revert out.
  induction iter as [|l iter IH]; intros out seg H; simpl in H.
  - injection H as <- <-. split; [constructor|congruence].
  - destruct (Pack.pack_step seg l) as [[o seg']|e] eqn:Hstep.
    + destruct (Pack.pack_loop seg' iter) as [out' r'] eqn:Hrest.
      injection H as <- <-. destruct (IH _ _ Hrest) as [Hok Hfail]. split.
      * intros Hr. constructor; [|now apply Hok].
        intros ln Hp Ht. eapply pack_step_other; eauto.
      * intros Hr. simpl. apply Hfail in Hr. lia.
    + injection H as <- <-. split; [discriminate|]. simpl. lia.
Qed.

Lemma pack_one_line_per_line_witness :
  Forall2 (fun l o => forall ln, Subv.parse l = OK ln ->
                                 Subv.type ln <> Subv.instr -> o = strip l)
          ["== code 0x80000000"; "  # a comment  "; "23/7 00/5 02/3 05/5 06/5 00/7"]
          ["== code 0x80000000"; "# a comment"; "23 a0 62 00"].
Proof.
  apply (pack_one_line_per_line
           ["== code 0x80000000"; "  # a comment  "; "23/7 00/5 02/3 05/5 06/5 00/7"]
           ["== code 0x80000000"; "# a comment"; "23 a0 62 00"] None);
    reflexivity.
Defined.

(** X20.  What Survey yields.  When it finishes, its output has one line
    for every instruction line and every segment header of the input, in
    order, and none for the others.  A header comes out as it went in, with
    the white space around it removed.  An instruction comes out with as many
    parts as it had, none of them a label reference, printed by
    [subv.format] with the comment of the line. *)
Theorem survey_yields_kept_lines (iter out : list string) :
  Survey.survey iter = (out, None) ->
  Forall2 (fun l o =>
             exists ln, Subv.parse l = OK ln
               /\ match Subv.body ln with
                  | Subv.PSegment _ _ => o = strip l
                  | Subv.PInstr parts =>
                      exists ps, length ps = length parts
                        /\ Forall (fun p => Subv.is_reference p = false) ps
                        /\ o = with_comment (join " " (Subv.format_part <$> ps))
                                            (Subv.comment ln)
                  | _ => False
                  end)
          (List.filter survey_keeps iter) out.
Proof.
  unfold Survey.survey.
  destruct (Survey.pass1 Survey.initial iter) as [st|e] eqn:H1; [|discriminate].
  destruct (pass1_entries _ _ _ H1) as (entries & Hq & Hall).
  simpl in Hq. rewrite Hq. clear H1 Hq. generalize (Survey.map st) as map. intros map.
  revert out. induction Hall as [|l [ln a] ls entries Hp Hall IH]; intros out H2.
  - simpl in H2. injection H2 as <-. constructor.
  - simpl in Hp. cbn [Survey.pass2] in H2. cbn [List.filter].
    unfold survey_keeps at 1. rewrite Hp. unfold Subv.type.
    unfold Survey.pass2_step in H2.
    destruct (Subv.body ln) as [|seg base|lbl|parts] eqn:Hb; cbn [Subv.ltype_eqb orb].
    + now apply IH.
    + destruct (Survey.pass2 map entries) as [out' r] eqn:Hrest.
      injection H2 as <- ->. constructor; [|now apply IH].
      exists ln. split; [assumption|]. rewrite Hb.
      now destruct (parse_fields _ _ Hp) as [-> _].
    + now apply IH.
    + destruct (mapM (fun p => Survey.observe p a map) parts) as [ps|e] eqn:Hobs;
        [|discriminate].
      rewrite bind_OK, format_set_instr in H2. cbn [fmap result_fmap] in H2.
      destruct (Survey.pass2 map entries) as [out' r] eqn:Hrest.
      injection H2 as <- ->. constructor; [|now apply IH].
      exists ln. split; [assumption|]. rewrite Hb.
      destruct (observe_all _ _ _ _ Hobs) as [Hlen Hnr]. eauto.
Qed.

Lemma survey_yields_kept_lines_witness :
  Forall2 (fun l o =>
             exists ln, Subv.parse l = OK ln
               /\ match Subv.body ln with
                  | Subv.PSegment _ _ => o = strip l
                  | Subv.PInstr parts =>
                      exists ps, length ps = length parts
                        /\ Forall (fun p => Subv.is_reference p = false) ps
                        /\ o = with_comment (join " " (Subv.format_part <$> ps))
                                            (Subv.comment ln)
                  | _ => False
                  end)
          (List.filter survey_keeps
             ["== code 0x80000000"; "main:"; "# jump"; "13/7 06/5 00/3 00/5 48/12";
              "6f/7 00/5 main[31:12]/off20"])
          ["== code 0x80000000"; "13/7 06/5 00/3 00/5 48/12"; "6f/7 00/5 fffff/20"].
Proof.
  apply (survey_yields_kept_lines
           ["== code 0x80000000"; "main:"; "# jump"; "13/7 06/5 00/3 00/5 48/12";
            "6f/7 00/5 main[31:12]/off20"]).
  reflexivity.
Defined.

(** X21.  The address of a label.  After the first pass of Survey, a label
    stands for the address reached just before its last definition: the
    lines after that definition do not change it, whatever they are, and an
    earlier definition of the same name is overwritten. *)
Theorem label_gets_address_of_last_definition
    (st st1 st' : Survey.state) (pre post : list string) (l name : string) :
  Survey.pass1 st pre = OK st1 ->
  defines name l ->
  Forall (fun l' => ~ defines name l') post ->
  Survey.pass1 st (pre ++ l :: post) = OK st' ->
  Survey.map st' !! name = Some (Survey.addr st1).
Proof.
  intros Hpre (ln & Hp & Hb) Hpost Hrun.
  rewrite pass1_app, Hpre, bind_OK in Hrun. simpl in Hrun. inv_ok Hrun.
  rewrite (pass1_map_other _ _ _ _ Hrun Hpost).
  unfold Survey.pass1_step in Hx. rewrite Hp, bind_OK, Hb in Hx.
  injection Hx as <-. cbn [Survey.map]. apply lookup_insert_eq.
Qed.

Lemma label_gets_address_of_last_definition_witness :
  exists st',
    Survey.pass1 Survey.initial
      ["== code 0x80000000"; "main:"; "13/7 06/5 00/3 00/5 48/12"; "main:";
       "6f/7 00/5 main[31:12]/off20"] = OK st'
    /\ Survey.map st' !! "main" = Some 0x80000004.
Proof.
  eexists. split; [reflexivity|].
  eapply eq_trans;
    [eapply (label_gets_address_of_last_definition Survey.initial _ _
               ["== code 0x80000000"; "main:"; "13/7 06/5 00/3 00/5 48/12"]
               ["6f/7 00/5 main[31:12]/off20"] "main:" "main")|].
  - reflexivity.
  - eexists. split; reflexivity.
  - apply List.Forall_cons; [|apply List.Forall_nil].
    intros (ln & Hp & Hb). vm_compute in Hp. injection Hp as <-. discriminate Hb.
  - reflexivity.
  - reflexivity.
Defined.

(** ** elf.py *)

Example elf_sample :
  match Elf.main ["== code 0x80000000"; "b7 02 01 10"; "13 03 80 04";
                  "== data 0x80001000"; "01 02"] with
  | Elf.Done out =>
      Elf.len out = 12290
      /\ take 52 out
         = [127; 69; 76; 70; 1; 1; 1; 0; 0; 0; 0; 0; 0; 0; 0; 0; 2; 0; 243; 0;
            1; 0; 0; 0; 0; 0; 0; 128; 52; 0; 0; 0; 0; 0; 0; 0; 4; 0; 0; 0; 52;
            0; 32; 0; 2; 0; 40; 0; 0; 0; 0; 0]
      /\ bytes_at out 52 32
         = [1; 0; 0; 0; 0; 32; 0; 0; 0; 0; 0; 128; 0; 0; 0; 128; 8; 0; 0; 0;
            8; 0; 0; 0; 5; 0; 0; 0; 0; 16; 0; 0]
      /\ bytes_at out 84 32
         = [1; 0; 0; 0; 0; 48; 0; 0; 0; 16; 0; 128; 0; 16; 0; 128; 2; 0; 0; 0;
            2; 0; 0; 0; 6; 0; 0; 0; 0; 16; 0; 0]
      /\ bytes_at out 0x2000 8 = [183; 2; 1; 16; 19; 3; 128; 4]
      /\ bytes_at out 0x3000 2 = [1; 2]
  | Elf.Raise _ => False
  end.
Proof. vm_compute. repeat split. Qed.

Example elf_errors :
  Elf.main ["== code 0x80000000"; "b7 zz"] = Elf.Raise (Elf.NoToBytes "zz")
  /\ Elf.main ["== code 0x80000010"; "b7"] = Elf.Raise Elf.ImproperAlignment
  /\ Elf.main ["== code"; "b7"] = Elf.Raise (Elf.Py (UnpackError 2 1))
  /\ Elf.main ["b7"] = Elf.Raise Elf.OutsideSegment
  /\ Elf.main ["== code 0x80000000"; ""] = Elf.Raise Elf.NotSegmentOrInstr
  /\ Elf.main ["== data 0x80000000"] = Elf.Raise Elf.StopIteration.
Proof. vm_compute. repeat split. Qed.

Section ElfWriter.
Import Subv.

Lemma le_bytes_length val from count : length (le_bytes val from count) = count.
Proof. unfold le_bytes. now rewrite length_fmap, length_seq. Qed.

Lemma le_bytes_range val from count :
  Forall (fun b => 0 <= b < 256) (le_bytes val from count).
Proof.
  unfold le_bytes. apply Forall_fmap, Forall_forall. intros j _. simpl.
  apply Z.mod_pos_bound. lia.
Qed.

Lemma pow_256 size : 0 <= size -> 256 ^ size = 2 ^ (8 * size).
Proof. intros H. now rewrite Z.pow_mul_r by lia. Qed.

Lemma wi_ok num size :
  0 <= size -> 0 <= num < 256 ^ size ->
  Elf.wi num size = Elf.Done (size, le_bytes num 0 (Z.to_nat size)).
Proof.
  intros Hs Hn. unfold Elf.wi, Elf.to_bytes.
  destruct (Z.ltb_spec size 0); [lia|].
  destruct (Z.ltb_spec num 0); [lia|].
  destruct (Z.geb_spec num (256 ^ size)); [lia|]. reflexivity.
Qed.

Lemma wi_inv num size n b :
  Elf.wi num size = Elf.Done (n, b) ->
  n = size /\ 0 <= size /\ 0 <= num < 256 ^ size
  /\ b = le_bytes num 0 (Z.to_nat size).
Proof.
  unfold Elf.wi, Elf.to_bytes.
  destruct (Z.ltb_spec size 0); [discriminate|].
  destruct (Z.ltb_spec num 0); [discriminate|].
  destruct (Z.geb_spec num (256 ^ size)); [discriminate|].
  cbn [orb]. intros [= <- <-]. repeat split; lia.
Qed.

Lemma wi_fails num size :
  0 <= size -> num < 0 \/ 256 ^ size <= num ->
  Elf.wi num size = Elf.Raise (Elf.OverflowError num size).
Proof.
  intros Hs Hn. unfold Elf.wi, Elf.to_bytes.
  destruct (Z.ltb_spec size 0); [lia|].
  destruct (Z.ltb_spec num 0); [reflexivity|].
  destruct (Z.geb_spec num (256 ^ size)); [reflexivity|lia].
Qed.

Lemma writer_bind_done {A B} (m : Elf.writer A) (f : A -> Elf.writer B) a o :
  m = Elf.Done (a, o) ->
  (m ≫= f) = match f a with
             | Elf.Done (b, o') => Elf.Done (b, (o ++ o')%list)
             | Elf.Raise e => Elf.Raise e
             end.
Proof. now intros ->. Qed.

Lemma writer_bind_inv {A B} (m : Elf.writer A) (f : A -> Elf.writer B) b out :
  (m ≫= f) = Elf.Done (b, out) ->
  exists a o1 o2, m = Elf.Done (a, o1) /\ f a = Elf.Done (b, o2) /\ out = (o1 ++ o2)%list.
Proof.
  destruct m as [[a o1]|e]; [|discriminate]. cbn [mbind Elf.writer_bind].
  destruct (f a) as [[b' o2]|e] eqn:Hf; [|discriminate].
  intros [= <- <-]. eauto 6.
Qed.

Lemma writer_bind_raise {A B} (m : Elf.writer A) (f : A -> Elf.writer B) e :
  m = Elf.Raise e -> (m ≫= f) = Elf.Raise e.
Proof. now intros ->. Qed.

Lemma write_elf_header_ok segments code :
  List.find Elf.is_code segments = Some code ->
  0 <= Elf.addr code < 2 ^ 32 -> Elf.len segments < 65536 ->
  exists hdr,
    Elf.write_elf_header segments = Elf.Done (52, hdr)
    /\ Elf.len hdr = 52
    /\ bytes_at hdr 0 4 = [0x7f; 0x45; 0x4c; 0x46]
    /\ bytes_at hdr 24 4 = le_bytes (Elf.addr code) 0 4
    /\ bytes_at hdr 28 4 = le_bytes 52 0 4
    /\ bytes_at hdr 42 2 = le_bytes 32 0 2
    /\ bytes_at hdr 44 2 = le_bytes (Elf.len segments) 0 2.
Proof.
  intros Hf Ha Hn. unfold Elf.write_elf_header. rewrite Hf.
  assert (0 <= Elf.len segments) as Hlen by (unfold Elf.len; lia).
  rewrite (wi_ok (Elf.addr code) 4) by (change (256 ^ 4) with (2 ^ 32); lia).
  rewrite (wi_ok (Elf.len segments) 2) by (change (256 ^ 2) with 65536; lia).
  eexists. split; [reflexivity|]. repeat split.
Qed.

Lemma write_elf_header_inv segments c hdr :
  Elf.write_elf_header segments = Elf.Done (c, hdr) ->
  c = 52 /\ Elf.len hdr = 52
  /\ exists code, List.find Elf.is_code segments = Some code.
Proof.
  intros Hhdr. unfold Elf.write_elf_header in Hhdr.
  destruct (List.find Elf.is_code segments) as [code|]; [|discriminate].
  repeat (apply writer_bind_inv in Hhdr as (? & ? & ? & Hw & Hhdr & ->);
          first [apply wi_inv in Hw as (-> & _ & _ & ->)
                |injection Hw as <- <-]).
  injection Hhdr as <- <-. split; [reflexivity|]. split; [reflexivity|]. eauto.
Qed.

End ElfWriter.

(** X22.  [wi] writes an unsigned number in [size] bytes, least
    significant first: it succeeds exactly on the numbers from 0 to
    [256^size - 1], returns [size], and the bytes written, read back as
    base-256 digits, give the number.  A negative number, or one that does
    not fit, raises [OverflowError]. *)
Theorem wi_little_endian (num size : Z) :
  (size < 0 -> Elf.wi num size = Elf.Raise Elf.NegativeLength)
  /\ (0 <= size -> num < 0 \/ 256 ^ size <= num ->
      Elf.wi num size = Elf.Raise (Elf.OverflowError num size))
  /\ (0 <= size -> 0 <= num < 256 ^ size ->
      exists b, Elf.wi num size = Elf.Done (size, b)
        /\ Elf.len b = size
        /\ Forall (fun x => 0 <= x < 256) b
        /\ total_value ((fun x => (x, 8)) <$> b) = num).
Proof.
  split; [|split].
  - intros Hs. unfold Elf.wi, Elf.to_bytes. destruct (Z.ltb_spec size 0); [reflexivity|lia].
  - apply wi_fails.
  - intros Hs Hn. eexists. split; [now apply wi_ok|]. split; [|split].
    + unfold Elf.len. rewrite le_bytes_length. lia.
    + apply le_bytes_range.
    + destruct (le_bytes_value num (Z.to_nat size) 0) as (-> & _).
      simpl (8 * Z.of_nat 0). rewrite Z.pow_0_r, Z.div_1_r, Z2Nat.id by lia.
      rewrite <- pow_256 by lia. apply Z.mod_small. lia.
Qed.

(** X23.  The ELF header.  [write_elf_header] raises [StopIteration] when no
    segment is named [code].  Otherwise the entry point is the address of
    the first segment named [code]; the header is written when that address
    is an unsigned 32-bit number and there are fewer than 65536 segments,
    and [OverflowError] is raised if not.  The header is 52 bytes long, the
    value returned, which is also what it announces as the offset of the
    program headers; it starts with the ELF magic and announces program
    headers of 32 bytes, one for each segment. *)
Theorem elf_header_layout (segments : list Elf.segment) :
  (List.find Elf.is_code segments = None ->
   Elf.write_elf_header segments = Elf.Raise Elf.StopIteration)
  /\ (forall code, List.find Elf.is_code segments = Some code ->
        (~ 0 <= Elf.addr code < 2 ^ 32 ->
         Elf.write_elf_header segments
         = Elf.Raise (Elf.OverflowError (Elf.addr code) 4))
        /\ (0 <= Elf.addr code < 2 ^ 32 -> 65536 <= Elf.len segments ->
            Elf.write_elf_header segments
            = Elf.Raise (Elf.OverflowError (Elf.len segments) 2))
        /\ (0 <= Elf.addr code < 2 ^ 32 -> Elf.len segments < 65536 ->
            exists hdr,
              Elf.write_elf_header segments = Elf.Done (52, hdr)
              /\ Elf.len hdr = 52
              /\ bytes_at hdr 0 4 = [0x7f; 0x45; 0x4c; 0x46]
              /\ bytes_at hdr 24 4 = le_bytes (Elf.addr code) 0 4
              /\ bytes_at hdr 28 4 = le_bytes 52 0 4
              /\ bytes_at hdr 42 2 = le_bytes 32 0 2
              /\ bytes_at hdr 44 2 = le_bytes (Elf.len segments) 0 2)).
Proof.
  split.
  - intros Hf. unfold Elf.write_elf_header. now rewrite Hf.
  - intros code Hf.
    assert (0 <= Elf.len segments) as Hlen by (unfold Elf.len; lia).
    split; [|split]; [unfold Elf.write_elf_header; rewrite Hf..|].
    + intros Ha. rewrite (wi_fails (Elf.addr code) 4) by (change (256 ^ 4) with (2 ^ 32); lia).
      reflexivity.
    + intros Ha Hn.
      rewrite (wi_ok (Elf.addr code) 4) by (change (256 ^ 4) with (2 ^ 32); lia).
      rewrite (wi_fails (Elf.len segments) 2) by (change (256 ^ 2) with 65536; lia).
      reflexivity.
    + intros Ha Hn. now apply write_elf_header_ok.
Qed.

Section ElfProgramHeader.

Lemma page_offset start :
  ((1 + start / 4096) * 4096) mod 4096 = 0
  /\ start < (1 + start / 4096) * 4096 <= start + 4096.
Proof.
  split; [apply Z.mod_mul; lia|].
  pose proof (Z.div_mod start 4096 ltac:(lia)).
  pose proof (Z.mod_pos_bound start 4096 ltac:(lia)). lia.
Qed.

Lemma write_program_header_ok seg c start :
  Elf.addr seg mod 4096 = 0 -> 0 <= Elf.addr seg < 2 ^ 32 ->
  0 <= (1 + start / 4096) * 4096 < 2 ^ 32 -> Elf.len (Elf.content seg) < 2 ^ 32 ->
  Elf.write_program_header seg c start
  = Elf.Done
      ((c + 32,
        Elf.Segment (Elf.name seg) (Elf.addr seg) (Elf.content seg)
                    (Some ((1 + start / 4096) * 4096))),
       (le_bytes 1 0 4 ++ le_bytes ((1 + start / 4096) * 4096) 0 4
        ++ le_bytes (Elf.addr seg) 0 4 ++ le_bytes (Elf.addr seg) 0 4
        ++ le_bytes (Elf.len (Elf.content seg)) 0 4
        ++ le_bytes (Elf.len (Elf.content seg)) 0 4
        ++ le_bytes (if Elf.is_code seg then 5 else 6) 0 4
        ++ le_bytes 4096 0 4)%list).
Proof.
  intros Hal Ha Ho Hn. unfold Elf.write_program_header. cbv zeta.
  cbn [Elf.addr Elf.content Elf.name].
  destruct (page_offset start) as [Hm _]. change 0x1000 with 4096. rewrite Hm, Hal.
  cbn [Z.eqb negb].
  assert (0 <= Elf.len (Elf.content seg)) by (unfold Elf.len; lia).
  rewrite (wi_ok ((1 + start / 4096) * 4096) 4) by (change (256 ^ 4) with (2 ^ 32); lia).
  rewrite (wi_ok (Elf.addr seg) 4) by (change (256 ^ 4) with (2 ^ 32); lia).
  rewrite (wi_ok (Elf.len (Elf.content seg)) 4) by (change (256 ^ 4) with (2 ^ 32); lia).
  unfold Elf.is_code.
  replace (c + 32) with (c + 4 + 4 + 4 + 4 + 4 + 4 + 4 + 4) by lia.
  destruct (String.eqb (Elf.name seg) "code"); reflexivity.
Qed.

End ElfProgramHeader.

(** X24.  A program header.  The file offset chosen for a segment is the
    first multiple of 4096 above the end of what precedes it.  The header
    is refused with "improper alignment" exactly when the address of the
    segment is not a multiple of 4096.  Otherwise, when the numbers fit in
    32 bits, it is 32 bytes long and announces the offset, the address (as
    virtual and as physical address), the number of parts of the content
    (as size in the file and in memory), the flags 5 for the segment named
    [code] and 6 for any other, and the alignment 4096. *)
Theorem program_header_alignment (seg : Elf.segment) (c start : Z) :
  let off := (1 + start / 4096) * 4096 in
  off mod 4096 = 0 /\ start < off <= start + 4096
  /\ (Elf.addr seg mod 4096 <> 0 ->
      Elf.write_program_header seg c start = Elf.Raise Elf.ImproperAlignment)
  /\ (Elf.addr seg mod 4096 = 0 -> 0 <= Elf.addr seg < 2 ^ 32 ->
      0 <= off < 2 ^ 32 -> Elf.len (Elf.content seg) < 2 ^ 32 ->
      exists b,
        Elf.write_program_header seg c start
        = Elf.Done ((c + 32, Elf.Segment (Elf.name seg) (Elf.addr seg) (Elf.content seg)
                               (Some off)), b)
        /\ Elf.len b = 32
        /\ bytes_at b 0 4 = le_bytes 1 0 4
        /\ bytes_at b 4 4 = le_bytes off 0 4
        /\ bytes_at b 8 4 = le_bytes (Elf.addr seg) 0 4
        /\ bytes_at b 12 4 = le_bytes (Elf.addr seg) 0 4
        /\ bytes_at b 16 4 = le_bytes (Elf.len (Elf.content seg)) 0 4
        /\ bytes_at b 20 4 = le_bytes (Elf.len (Elf.content seg)) 0 4
        /\ bytes_at b 24 4 = le_bytes (if Elf.is_code seg then 5 else 6) 0 4
        /\ bytes_at b 28 4 = le_bytes 4096 0 4).
Proof.
  cbv zeta. destruct (page_offset start) as [Hm Hr].
  split; [assumption|]. split; [assumption|]. split.
  - intros Hal. unfold Elf.write_program_header. cbv zeta. cbn [Elf.addr].
    change 0x1000 with 4096. rewrite Hm.
    destruct (Z.eqb_spec 0 (Elf.addr seg mod 4096)); [congruence|reflexivity].
  - intros Hal Ha Ho Hn. eexists. split; [now apply write_program_header_ok|].
    repeat split.
Qed.

Section ElfLayout.
Import Subv.

Lemma bytes_at_app (pre x rest : list Z) pos n :
  Elf.len pre = pos -> length x = n -> bytes_at (pre ++ x ++ rest) pos n = x.
Proof.
  intros Hp Hn. unfold bytes_at, Elf.len in *.
  rewrite drop_app_length' by lia. now apply take_app_length'.
Qed.

Lemma bytes_at_skip (pre rest : list Z) pos k n :
  Elf.len pre = pos -> 0 <= k ->
  bytes_at (pre ++ rest) (pos + k) n = bytes_at rest k n.
Proof.
  intros Hp Hk. unfold bytes_at, Elf.len in *.
  rewrite Z2Nat.inj_add by lia. rewrite drop_app_add' by lia. reflexivity.
Qed.

Lemma len_app {A} (x y : list A) : Elf.len (x ++ y) = Elf.len x + Elf.len y.
Proof. unfold Elf.len. rewrite length_app. lia. Qed.

Lemma len_cons {A} (x : A) (l : list A) : Elf.len (x :: l) = 1 + Elf.len l.
Proof. unfold Elf.len. simpl. lia. Qed.

Lemma len_nonneg {A} (l : list A) : 0 <= Elf.len l.
Proof. unfold Elf.len. lia. Qed.

Lemma one_byte num : 0 <= num < 256 -> le_bytes num 0 (Z.to_nat 1) = [num].
Proof.
  intros H. unfold le_bytes. simpl. now rewrite Z.div_1_r, Z.mod_small.
Qed.

Lemma content_bytes_cons p parts n :
  head p = VInt n -> content_bytes (p :: parts) = n :: content_bytes parts.
Proof. intros H. unfold content_bytes. cbn [omap list_omap]. now rewrite H. Qed.

Lemma write_content_inv parts : forall c c' b,
  Elf.write_content parts c = Elf.Done (c', b) ->
  c' = c + Elf.len parts /\ b = content_bytes parts /\ length b = length parts
  /\ Forall is_byte parts.
Proof.
  induction parts as [|p parts IH]; intros c c' b H; simpl in H.
  - injection H as <- <-. unfold Elf.len. simpl. repeat split; [lia|constructor].
  - apply writer_bind_inv in H as (n & o1 & o2 & Hw & H & ->).
    destruct (head p) as [num|str] eqn:Hh; [|discriminate].
    apply wi_inv in Hw as (-> & _ & Hr & ->). change (256 ^ 1) with 256 in Hr.
    rewrite one_byte by assumption.
    destruct (IH _ _ _ H) as (-> & -> & Hlen & Hall).
    rewrite len_cons. rewrite (content_bytes_cons p parts num Hh).
    repeat split; [lia|simpl; now f_equal|].
    apply List.Forall_cons; [|assumption]. now exists num.
Qed.

Lemma write_content_ok parts : forall c,
  Forall is_byte parts ->
  Elf.write_content parts c = Elf.Done (c + Elf.len parts, content_bytes parts).
Proof.
  induction parts as [|p parts IH]; intros c Hall.
  - unfold Elf.len. simpl. now rewrite Z.add_0_r.
  - cbn [Elf.write_content].
    apply List.Forall_cons_iff in Hall as [(n & Hh & Hn) Hall]. rewrite Hh.
    rewrite (wi_ok n 1) by (change (256 ^ 1) with 256; lia).
    rewrite one_byte by assumption.
    cbn [mbind Elf.writer_bind]. rewrite (IH _ Hall).
    rewrite (content_bytes_cons p parts n Hh), len_cons. f_equal. f_equal. lia.
Qed.

Lemma padto_ok o c :
  c <= o -> Elf.padto o c = Elf.Done (o, repeat 0 (Z.to_nat (o - c))).
Proof.
  intros H. unfold Elf.padto. destruct (Z.ltb_spec (o - c) 0); [lia|].
  cbn. now rewrite app_nil_r.
Qed.

Lemma padto_past o c :
  o < c -> Elf.padto o c = Elf.Raise (Elf.CursorPast c o).
Proof.
  intros H. unfold Elf.padto. destruct (Z.ltb_spec (o - c) 0); [reflexivity|lia].
Qed.

Lemma padto_inv o c c' b :
  Elf.padto o c = Elf.Done (c', b) ->
  c <= o /\ c' = o /\ b = repeat 0 (Z.to_nat (o - c)).
Proof.
  destruct (Z.le_gt_cases c o) as [H|H].
  - rewrite padto_ok by assumption. now intros [= <- <-].
  - rewrite padto_past by lia. discriminate.
Qed.

Lemma write_program_header_inv seg c start c' p b :
  Elf.write_program_header seg c start = Elf.Done ((c', p), b) ->
  Elf.addr seg mod 4096 = 0 /\ 0 <= Elf.addr seg < 2 ^ 32
  /\ 0 <= (1 + start / 4096) * 4096 < 2 ^ 32
  /\ Elf.len (Elf.content seg) < 2 ^ 32.
Proof.
  unfold Elf.write_program_header. cbv zeta. cbn [Elf.addr Elf.content Elf.name].
  destruct (page_offset start) as [Hm _]. change 0x1000 with 4096. rewrite Hm.
  destruct (Z.eqb_spec 0 (Elf.addr seg mod 4096)) as [Hal|]; [|discriminate].
  cbn [negb]. intros H.
  apply writer_bind_inv in H as (n1 & o1 & r1 & _ & H & _).
  apply writer_bind_inv in H as (n2 & o2 & r2 & H2 & H & _).
  apply writer_bind_inv in H as (n3 & o3 & r3 & H3 & H & _).
  apply writer_bind_inv in H as (n4 & o4 & r4 & _ & H & _).
  apply writer_bind_inv in H as (n5 & o5 & r5 & H5 & _ & _).
  apply wi_inv in H2 as (_ & _ & R2 & _).
  apply wi_inv in H3 as (_ & _ & R3 & _).
  apply wi_inv in H5 as (_ & _ & R5 & _).
  change (256 ^ 4) with (2 ^ 32) in *. repeat split; lia.
Qed.

Lemma program_headers_inv segs : forall c start c' placed b,
  Elf.program_headers segs c start = Elf.Done ((c', placed), b) ->
  c' = c + 32 * Elf.len segs /\ Elf.len b = 32 * Elf.len segs
  /\ laid_out start placed
  /\ Forall2 (fun seg p => Elf.content p = Elf.content seg) segs placed
  /\ forall k seg, segs !! k = Some seg ->
       exists off p,
         placed !! k = Some p /\ Elf.offset p = Some off
         /\ Elf.content p = Elf.content seg
         /\ (Elf.addr seg mod 4096 = 0 /\ 0 <= Elf.addr seg < 2 ^ 32)
         /\ start < off /\ off mod 4096 = 0
         /\ forall rest,
              bytes_at (b ++ rest) (32 * Z.of_nat k + 4) 4 = le_bytes off 0 4
              /\ bytes_at (b ++ rest) (32 * Z.of_nat k + 8) 4
                 = le_bytes (Elf.addr seg) 0 4
              /\ bytes_at (b ++ rest) (32 * Z.of_nat k + 16) 4
                 = le_bytes (Elf.len (Elf.content seg)) 0 4.
Proof.
  induction segs as [|seg segs IH]; intros c start c' placed b H; simpl in H.
  - injection H as <- <- <-. unfold Elf.len. simpl.
    repeat split; [lia|constructor|]. intros k seg Hk. discriminate.
  - apply writer_bind_inv in H as ([c1 p] & o1 & o2 & Hw & H & ->).
    destruct (write_program_header_inv _ _ _ _ _ _ Hw) as (Hal & Ha & Ho & Hn).
    pose proof (write_program_header_ok seg c start Hal Ha Ho Hn) as Hok.
    set (ph := (le_bytes 1 0 4 ++ _)%list) in Hok.
    assert (Elf.len ph = 32) as Hph by reflexivity.
    assert (forall rest,
              bytes_at (ph ++ rest) (32 * Z.of_nat 0 + 4) 4
              = le_bytes ((1 + start / 4096) * 4096) 0 4
              /\ bytes_at (ph ++ rest) (32 * Z.of_nat 0 + 8) 4
                 = le_bytes (Elf.addr seg) 0 4
              /\ bytes_at (ph ++ rest) (32 * Z.of_nat 0 + 16) 4
                 = le_bytes (Elf.len (Elf.content seg)) 0 4) as Hfields
      by (intros rest; subst ph; repeat split).
    clearbody ph. rewrite Hok in Hw.
    injection Hw as <- <- <-. cbn [Elf.offset Elf.content] in H.
    apply writer_bind_inv in H as ([c2 placed'] & o3 & o4 & Hrest & H & ->).
    injection H as <- <- <-.
    destruct (IH _ _ _ _ _ Hrest) as (-> & Hlen & Hlaid & Hsame & Hat).
    destruct (page_offset start) as [Hm Hr].
    rewrite app_nil_r, len_app, !len_cons, Hlen, Hph.
    split; [lia|]. split; [lia|]. split; [split; [reflexivity|exact Hlaid]|].
    split; [now constructor|].
    intros [|k] seg' Hk.
    + injection Hk as <-. eexists ((1 + start / 4096) * 4096), _.
      split; [reflexivity|]. split; [reflexivity|]. split; [reflexivity|].
      split; [now split|]. split; [lia|]. split; [assumption|]. intros rest.
      rewrite <- app_assoc. apply Hfields.
    + destruct (Hat k seg' Hk) as (off & q & Hq & Hoq & Hcq & Halq & Hgt & Hmod & Hb).
      exists off, q. split; [assumption|]. split; [assumption|]. split; [assumption|].
      split; [assumption|].
      split; [pose proof (len_nonneg (Elf.content seg)); lia|].
      split; [assumption|]. intros rest. rewrite <- app_assoc.
      replace (32 * Z.of_nat (S k) + 4) with (32 + (32 * Z.of_nat k + 4)) by lia.
      replace (32 * Z.of_nat (S k) + 8) with (32 + (32 * Z.of_nat k + 8)) by lia.
      replace (32 * Z.of_nat (S k) + 16) with (32 + (32 * Z.of_nat k + 16)) by lia.
      rewrite !(bytes_at_skip ph) by (assumption || lia). apply Hb.
Qed.

Lemma write_segments_at placed : forall start c c' b pre,
  Elf.write_segments placed c = Elf.Done (c', b) ->
  laid_out start placed -> Elf.len pre = c ->
  c' = Elf.len (pre ++ b)
  /\ Forall (fun p => Forall is_byte (Elf.content p)) placed
  /\ (match placed with [] => True | _ => c <= (1 + start / 4096) * 4096 end)
  /\ forall k p, placed !! k = Some p ->
       exists off,
         Elf.offset p = Some off /\ start < off
         /\ bytes_at (pre ++ b) off (length (Elf.content p))
            = content_bytes (Elf.content p)
         /\ length (content_bytes (Elf.content p)) = length (Elf.content p).
Proof.
  induction placed as [|p placed IH]; intros start c c' b pre H Hlaid Hpre; simpl in H.
  - injection H as <- <-. rewrite app_nil_r.
    repeat split; [now symmetry|constructor|]. intros k p Hk. discriminate.
  - destruct Hlaid as [Hoff Hlaid]. rewrite Hoff in H.
    set (off := (1 + start / 4096) * 4096) in *.
    apply writer_bind_inv in H as (c1 & pad & o2 & Hpad & H & ->).
    apply padto_inv in Hpad as (Hle & -> & ->).
    apply writer_bind_inv in H as (c2 & data & b' & Hdata & H & ->).
    apply write_content_inv in Hdata as (-> & -> & Hlen & Hbytes).
    destruct (page_offset start) as [_ Hr]. fold off in Hr.
    set (pad := repeat 0 (Z.to_nat (off - c))).
    assert (Elf.len (pre ++ pad) = off) as Hpp.
    { rewrite len_app, Hpre. subst pad. unfold Elf.len at 1. rewrite repeat_length. lia. }
    destruct (IH (off + Elf.len (Elf.content p)) _ _ _
                 ((pre ++ pad) ++ content_bytes (Elf.content p))%list H Hlaid)
      as (Hc' & Hall & _ & Hat).
    { rewrite len_app, Hpp. unfold Elf.len. rewrite Hlen. reflexivity. }
    replace (pre ++ pad ++ content_bytes (Elf.content p) ++ b')%list
      with (((pre ++ pad) ++ content_bytes (Elf.content p)) ++ b')%list
      by now rewrite <- !app_assoc.
    split; [assumption|]. split; [now apply List.Forall_cons|]. split; [assumption|].
    intros [|k] q Hk.
    + injection Hk as <-. exists off. split; [assumption|]. split; [lia|].
      split; [|assumption].
      rewrite <- (app_assoc (pre ++ pad)). now apply bytes_at_app.
    + destruct (Hat k q Hk) as (o & Ho & Hgt & Hb & Hl).
      exists o. split; [assumption|]. split; [|now split].
      pose proof (len_nonneg (Elf.content p)). lia.
Qed.

End ElfLayout.

(** X25.  The layout of the image.  When the writer finishes, the cursor it
    kept is the number of bytes written.  The program header of the k-th
    segment is at byte [52 + 32 k]; the file offset it announces is a
    multiple of 4096 beyond the first page, the address it announces is the
    address of the segment, which is a multiple of 4096 too, and the size it
    announces is the number of parts of the content.  The bytes at the
    announced offset are the content of the segment, one byte for each
    part. *)
Theorem elf_layout (segments : list Elf.segment) (c : Z) (out : list Z) :
  Elf.emit segments = Elf.Done (c, out) ->
  c = Elf.len out
  /\ forall k seg, segments !! k = Some seg ->
       exists off,
         bytes_at out (52 + 32 * Z.of_nat k + 4) 4 = le_bytes off 0 4
         /\ bytes_at out (52 + 32 * Z.of_nat k + 8) 4 = le_bytes (Elf.addr seg) 0 4
         /\ bytes_at out (52 + 32 * Z.of_nat k + 16) 4
            = le_bytes (Elf.len (Elf.content seg)) 0 4
         /\ off mod 4096 = 0 /\ 4096 < off
         /\ Elf.addr seg mod 4096 = 0
         /\ bytes_at out off (length (Elf.content seg))
            = content_bytes (Elf.content seg)
         /\ length (content_bytes (Elf.content seg)) = length (Elf.content seg).
Proof.
  intros H. unfold Elf.emit in H.
  apply writer_bind_inv in H as (c0 & hdr & o1 & Hhdr & H & ->).
  apply writer_bind_inv in H as ([c1 placed] & phs & body & Hph & H & ->).
  apply write_elf_header_inv in Hhdr as (-> & Hlen0 & _).
  destruct (program_headers_inv _ _ _ _ _ _ Hph) as (-> & Hlen1 & Hlaid & _ & Hat).
  destruct (write_segments_at _ 0x1000 _ _ _ (hdr ++ phs)%list H Hlaid)
    as (Hc & _ & _ & Hbody).
  { rewrite len_app, Hlen0, Hlen1. reflexivity. }
  rewrite <- app_assoc in Hc, Hbody. split; [assumption|].
  intros k seg Hk.
  destruct (Hat k seg Hk)
    as (off & p & Hp & Hoff & Hcont & [Hal _] & Hgt & Hmod & Hfields).
  destruct (Hbody k p Hp) as (off' & Hoff' & _ & Hdata & Hl).
  assert (off' = off) as -> by congruence.
  exists off. destruct (Hfields body) as (F1 & F2 & F3).
  rewrite <- !Z.add_assoc, !(bytes_at_skip hdr) by (assumption || lia).
  rewrite Hcont in Hdata, Hl. repeat split; assumption || lia.
Qed.

Lemma elf_layout_witness :
  let out := ([127; 69; 76; 70; 1; 1; 1; 0; 0; 0; 0; 0; 0; 0; 0; 0; 2; 0; 243; 0;
               1; 0; 0; 0; 0; 0; 0; 128; 52; 0; 0; 0; 0; 0; 0; 0; 4; 0; 0; 0; 52;
               0; 32; 0; 1; 0; 40; 0; 0; 0; 0; 0; 1; 0; 0; 0; 0; 32; 0; 0; 0; 0; 0;
               128; 0; 0; 0; 128; 2; 0; 0; 0; 2; 0; 0; 0; 5; 0; 0; 0; 0; 16; 0; 0]
              ++ repeat 0 (Z.to_nat (8192 - 84)) ++ [183; 2])%list in
  Elf.emit [Elf.Segment "code" 0x80000000 [byte_part 0xb7; byte_part 0x02] None]
  = Elf.Done (8194, out)
  /\ 8194 = Elf.len out.
Proof.
  cbv zeta.
  assert (Elf.emit [Elf.Segment "code" 0x80000000 [byte_part 0xb7; byte_part 0x02] None]
          = Elf.Done (8194,
              ([127; 69; 76; 70; 1; 1; 1; 0; 0; 0; 0; 0; 0; 0; 0; 0; 2; 0; 243; 0;
                1; 0; 0; 0; 0; 0; 0; 128; 52; 0; 0; 0; 0; 0; 0; 0; 4; 0; 0; 0; 52;
                0; 32; 0; 1; 0; 40; 0; 0; 0; 0; 0; 1; 0; 0; 0; 0; 32; 0; 0; 0; 0; 0;
                128; 0; 0; 0; 128; 2; 0; 0; 0; 2; 0; 0; 0; 5; 0; 0; 0; 0; 16; 0; 0]
               ++ repeat 0 (Z.to_nat (8192 - 84)) ++ [183; 2])%list)) as H
    by (vm_compute; reflexivity).
  split; [exact H|]. exact (proj1 (elf_layout _ _ _ H)).
Defined.

Section ElfSuccess.

Lemma file_bound_cons start seg segs :
  file_bound start (seg :: segs)
  = file_bound (start + Elf.len (Elf.content seg) + 4096) segs.
Proof. unfold file_bound. simpl. lia. Qed.

Lemma file_bound_ge start segs : start <= file_bound start segs.
Proof.
  revert start. induction segs as [|seg segs IH]; intros start.
  - unfold file_bound. simpl. lia.
  - rewrite file_bound_cons. pose proof (IH (start + Elf.len (Elf.content seg) + 4096)).
    pose proof (len_nonneg (Elf.content seg)). lia.
Qed.

Lemma program_headers_ok segs : forall c start,
  0 <= start -> Forall loadable segs -> file_bound start segs < 2 ^ 32 ->
  exists r b, Elf.program_headers segs c start = Elf.Done (r, b).
Proof.
  induction segs as [|seg segs IH]; intros c start Hs Hall Hb.
  - simpl. eexists _, _. reflexivity.
  - apply List.Forall_cons_iff in Hall as [(Hal & Ha & Hbytes) Hall].
    rewrite file_bound_cons in Hb.
    pose proof (file_bound_ge (start + Elf.len (Elf.content seg) + 4096) segs) as Hge.
    pose proof (len_nonneg (Elf.content seg)) as Hl.
    destruct (page_offset start) as [_ Hr].
    cbn [Elf.program_headers].
    rewrite write_program_header_ok by (assumption || lia).
    cbn [mbind Elf.writer_bind Elf.offset Elf.content].
    destruct (IH (c + 32) ((1 + start / 4096) * 4096 + Elf.len (Elf.content seg)))
      as ([c' placed] & b & ->); [lia|assumption| |].
    + unfold file_bound in *. lia.
    + cbn. eexists _, _. reflexivity.
Qed.

Lemma write_segments_ok placed : forall start c,
  laid_out start placed ->
  Forall (fun p => Forall is_byte (Elf.content p)) placed ->
  c <= (1 + start / 4096) * 4096 ->
  exists c' b, Elf.write_segments placed c = Elf.Done (c', b).
Proof.
  induction placed as [|p placed IH]; intros start c Hlaid Hall Hc.
  - simpl. eexists _, _. reflexivity.
  - destruct Hlaid as [Hoff Hlaid].
    apply List.Forall_cons_iff in Hall as [Hbytes Hall].
    cbn [Elf.write_segments]. rewrite Hoff, padto_ok by assumption.
    cbn [mbind Elf.writer_bind]. rewrite (write_content_ok _ _ Hbytes).
    cbn [mbind Elf.writer_bind].
    destruct (IH ((1 + start / 4096) * 4096 + Elf.len (Elf.content p))
                 ((1 + start / 4096) * 4096 + Elf.len (Elf.content p)) Hlaid Hall)
      as (c' & b & ->).
    + destruct (page_offset ((1 + start / 4096) * 4096 + Elf.len (Elf.content p))). lia.
    + eexists _, _. reflexivity.
Qed.

Lemma find_in {A} (f : A -> bool) l x : List.find f l = Some x -> In x l.
Proof. intros H. now apply List.find_some in H. Qed.

End ElfSuccess.

(** X26.  When the image is written.  With 255 segments or more the
    writer always raises: the headers then reach beyond the first page,
    where the content of the first segment is to start.  With at most 254
    segments, one of them named [code], each at a page-aligned 32-bit
    address with a content of bytes, and a file that stays below 4 GiB, the
    writer finishes. *)
Theorem elf_emit_succeeds (segments : list Elf.segment) :
  ((254 < length segments)%nat -> exists e, Elf.emit segments = Elf.Raise e)
  /\ ((length segments <= 254)%nat ->
      (exists code, List.find Elf.is_code segments = Some code) ->
      Forall loadable segments ->
      file_bound 4096 segments < 2 ^ 32 ->
      exists c out, Elf.emit segments = Elf.Done (c, out)).
Proof.
  split.
  - intros Hn. unfold Elf.emit.
    destruct (Elf.write_elf_header segments) as [[c0 hdr]|e] eqn:Hhdr;
      [|exists e; reflexivity].
    apply write_elf_header_inv in Hhdr as (-> & _ & _).
    cbn [mbind Elf.writer_bind].
    destruct (Elf.program_headers segments 52 4096) as [[[c1 placed] phs]|e] eqn:Hph;
      [|exists e; reflexivity].
    destruct (program_headers_inv _ _ _ _ _ _ Hph) as (-> & _ & Hlaid & Hsame & _).
    destruct Hsame as [|seg p segs placed _ _]; [simpl in Hn; lia|].
    destruct Hlaid as [Hoff _]. cbn [mbind Elf.writer_bind Elf.write_segments].
    rewrite Hoff.
    rewrite padto_past
      by (unfold Elf.len; simpl in Hn; change ((1 + 4096 / 4096) * 4096) with 8192;
          cbn [length]; lia).
    eexists. reflexivity.
  - intros Hn [code Hf] Hall Hb. unfold Elf.emit.
    assert (0 <= Elf.addr code < 2 ^ 32) as Ha.
    { apply find_in in Hf. rewrite List.Forall_forall in Hall. apply (Hall code Hf). }
    destruct (write_elf_header_ok segments code Hf Ha) as (hdr & -> & _).
    { unfold Elf.len. lia. }
    cbn [mbind Elf.writer_bind].
    destruct (program_headers_ok segments 52 4096 ltac:(lia) Hall Hb)
      as ([c1 placed] & phs & Hph).
    rewrite Hph.
    destruct (program_headers_inv _ _ _ _ _ _ Hph) as (-> & _ & Hlaid & Hsame & _).
    cbn [mbind Elf.writer_bind].
    destruct (write_segments_ok placed 4096 (52 + 32 * Elf.len segments) Hlaid)
      as (c' & body & ->).
    + clear - Hsame Hall. induction Hsame as [|seg p segs placed Hc _ IH]; [constructor|].
      apply List.Forall_cons_iff in Hall as [(_ & _ & Hbytes) Hall].
      apply List.Forall_cons; [now rewrite Hc|now apply IH].
    + unfold Elf.len. change ((1 + 4096 / 4096) * 4096) with 8192. lia.
    + eexists _, _. reflexivity.
Qed.

Lemma elf_emit_succeeds_witness :
  exists c out,
    Elf.emit [Elf.Segment "data" 0x80001000 [byte_part 1] None;
              Elf.Segment "code" 0x80000000 [byte_part 0xb7; byte_part 0x02] None]
    = Elf.Done (c, out).
Proof.
  apply (proj2 (elf_emit_succeeds
                  [Elf.Segment "data" 0x80001000 [byte_part 1] None;
                   Elf.Segment "code" 0x80000000 [byte_part 0xb7; byte_part 0x02] None])).
  - simpl. lia.
  - eexists. reflexivity.
  - assert (forall n, 0 <= n < 256 -> is_byte (byte_part n)) as Hbyte
      by (intros n Hn; exists n; split; [reflexivity|exact Hn]).
    apply List.Forall_cons; [|apply List.Forall_cons; [|apply List.Forall_nil]].
    + split; [reflexivity|]. split; [cbn [Elf.addr]; lia|].
      apply List.Forall_cons; [apply Hbyte; lia|apply List.Forall_nil].
    + split; [reflexivity|]. split; [cbn [Elf.addr]; lia|].
      apply List.Forall_cons; [apply Hbyte; lia|].
      apply List.Forall_cons; [apply Hbyte; lia|apply List.Forall_nil].
  - vm_compute. reflexivity.
Defined.

Section ElfRead.
Import Subv.

Lemma emit_inv segments c out :
  Elf.emit segments = Elf.Done (c, out) ->
  Forall loadable segments
  /\ exists code, In code segments /\ Elf.name code = "code".
Proof.
  intros H. unfold Elf.emit in H.
  apply writer_bind_inv in H as (c0 & hdr & o1 & Hhdr & H & ->).
  apply writer_bind_inv in H as ([c1 placed] & phs & body & Hph & H & ->).
  apply write_elf_header_inv in Hhdr as (-> & Hlen0 & code & Hf).
  destruct (program_headers_inv _ _ _ _ _ _ Hph) as (-> & Hlen1 & Hlaid & Hsame & Hat).
  destruct (write_segments_at _ 0x1000 _ _ _ (hdr ++ phs)%list H Hlaid)
    as (_ & Hbytes & _); [|split].
  - rewrite len_app, Hlen0, Hlen1. reflexivity.
  - apply Forall_lookup. intros k seg Hk.
    destruct (Hat k seg Hk) as (off & p & Hp & _ & Hcont & [Hal Ha] & _).
    split; [assumption|]. split; [assumption|]. rewrite <- Hcont.
    rewrite Forall_lookup in Hbytes. apply (Hbytes k p Hp).
  - exists code. apply List.find_some in Hf as [Hin Hc]. split; [assumption|].
    now apply String.eqb_eq in Hc.
Qed.

(** Adding content keeps the segments and their order; the parts go to
    one of them. *)
Lemma add_content_spec segs parts : forall segs',
  Elf.add_content segs parts = Some segs' ->
  Forall2 (fun a b => Elf.name b = Elf.name a /\ Elf.addr b = Elf.addr a
                      /\ forall p, In p (Elf.content a) -> In p (Elf.content b))
          segs segs'
  /\ exists s', In s' segs' /\ forall p, In p parts -> In p (Elf.content s').
Proof.
  induction segs as [|s segs IH]; intros segs' H; [discriminate|].
  destruct segs as [|s2 segs].
  - simpl in H. injection H as <-. split.
    + constructor; [|constructor]. cbn. repeat split. intros p Hp.
      apply in_or_app. now left.
    + eexists. split; [now left|]. cbn. intros p Hp. apply in_or_app. now right.
  - change (Elf.add_content (s :: s2 :: segs) parts)
      with (cons s <$> Elf.add_content (s2 :: segs) parts) in H.
    destruct (Elf.add_content (s2 :: segs) parts) as [rest|] eqn:E; [|discriminate].
    injection H as <-. destruct (IH rest eq_refl) as (Hall & s' & Hin & Hparts).
    split; [constructor; [auto|assumption]|].
    exists s'. split; [now right|assumption].
Qed.

Lemma Forall2_in_l {A B} (R : A -> B -> Prop) l k x :
  Forall2 R l k -> In x l -> exists y, In y k /\ R x y.
Proof.
  induction 1 as [|a b l k Hab _ IH]; intros Hin; [destruct Hin|].
  destruct Hin as [->|Hin]; [exists b; split; [now left|assumption]|].
  destruct (IH Hin) as (y & Hy & Hr). exists y. split; [now right|assumption].
Qed.

Lemma Forall2_in_r {A B} (R : A -> B -> Prop) l k y :
  Forall2 R l k -> In y k -> exists x, In x l /\ R x y.
Proof.
  induction 1 as [|a b l k Hab _ IH]; intros Hin; [destruct Hin|].
  destruct Hin as [->|Hin]; [exists a; split; [now left|assumption]|].
  destruct (IH Hin) as (x & Hx & Hr). exists x. split; [now right|assumption].
Qed.

Lemma read_line_inv segs l segs' :
  Elf.read_line segs l = Elf.Done segs' ->
  exists ln, parse l = OK ln
    /\ ((exists n a, body ln = PSegment n (Some a)
                     /\ segs' = (segs ++ [Elf.Segment n a [] None])%list)
        \/ (exists parts, body ln = PInstr parts
                          /\ Elf.add_content segs parts = Some segs')).
Proof.
  unfold Elf.read_line. destruct (parse l) as [ln|e]; [|discriminate].
  intros H. exists ln. split; [reflexivity|].
  destruct (body ln) as [|n [a|]|lbl|parts]; try discriminate.
  - injection H as <-. left. eauto.
  - destruct (Elf.add_content segs parts) as [s1|] eqn:E; [|discriminate].
    injection H as <-. right. eauto.
Qed.

Lemma read_inv stdin : forall segs segs',
  Elf.read segs stdin = Elf.Done segs' ->
  Forall (fun l => exists ln, parse l = OK ln
            /\ ((exists n a, body ln = PSegment n (Some a)
                   /\ exists s', In s' segs' /\ Elf.name s' = n /\ Elf.addr s' = a)
                \/ (exists parts, body ln = PInstr parts
                      /\ exists s', In s' segs'
                           /\ forall p, In p parts -> In p (Elf.content s'))))
         stdin
  /\ (forall s, In s segs ->
        exists s', In s' segs' /\ Elf.name s' = Elf.name s /\ Elf.addr s' = Elf.addr s
                   /\ forall p, In p (Elf.content s) -> In p (Elf.content s'))
  /\ (forall s', In s' segs' ->
        (exists s, In s segs /\ Elf.name s = Elf.name s')
        \/ exists l ln a, In l stdin /\ parse l = OK ln
                          /\ body ln = PSegment (Elf.name s') (Some a))
  /\ (segs = [] ->
      stdin = [] \/ exists l rest ln, stdin = l :: rest /\ parse l = OK ln
                                      /\ type ln = segment).
Proof.
  induction stdin as [|l stdin IH]; intros segs segs' H; simpl in H.
  - injection H as <-. split; [constructor|]. split; [|split].
    + intros s Hs. exists s. auto.
    + intros s' Hs. left. exists s'. auto.
    + intros _. now left.
  - destruct (Elf.read_line segs l) as [segs1|e] eqn:Hline; [|discriminate].
    destruct (IH _ _ H) as (Hall & Hmono & Horigin & _).
    destruct (read_line_inv _ _ _ Hline)
      as (ln & Hp & [(n & a & Hb & ->)|(parts & Hb & Hadd)]).
    + (* a segment header *)
      split; [|split; [|split]].
      * constructor; [|assumption]. exists ln. split; [assumption|]. left.
        exists n, a. split; [assumption|].
        destruct (Hmono (Elf.Segment n a [] None)) as (s' & Hin & Hn & Ha & _).
        { apply in_or_app. right. now left. }
        exists s'. auto.
      * intros s Hs. apply Hmono, in_or_app. now left.
      * intros s' Hs'. destruct (Horigin s' Hs') as [(s & Hin & Hn)|(l' & ln' & a' & Hin & Hr)].
        -- apply in_app_or in Hin as [Hin|[<-|[]]].
           ++ left. eauto.
           ++ right. exists l, ln, a. cbn in Hn. rewrite <- Hn.
              split; [now left|auto].
        -- right. exists l', ln', a'. split; [now right|assumption].
      * intros _. right. exists l, stdin, ln. unfold type. now rewrite Hb.
    + (* an instruction *)
      destruct (add_content_spec _ _ _ Hadd) as (Hgrow & s1 & Hin1 & Hparts).
      split; [|split; [|split]].
      * constructor; [|assumption]. exists ln. split; [assumption|]. right.
        exists parts. split; [assumption|].
        destruct (Hmono s1 Hin1) as (s' & Hin & _ & _ & Hc). exists s'. auto.
      * intros s Hs. destruct (Forall2_in_l _ _ _ _ Hgrow Hs) as (s1' & Hin & Hn & Ha & Hc).
        destruct (Hmono s1' Hin) as (s' & Hin' & Hn' & Ha' & Hc').
        exists s'. repeat split; [assumption|congruence|congruence|auto].
      * intros s' Hs'. destruct (Horigin s' Hs') as [(s & Hin & Hn)|(l' & ln' & a' & Hin & Hr)].
        -- destruct (Forall2_in_r _ _ _ _ Hgrow Hin) as (s0 & Hin0 & Hn0 & _).
           left. exists s0. split; [assumption|congruence].
        -- right. exists l', ln', a'. split; [now right|assumption].
      * intros ->. discriminate Hadd.
Qed.

End ElfRead.

(** X27.  The input the ELF writer accepts.  When the script finishes,
    every line of its input was a segment header with a base address that is
    a multiple of 4096 and an unsigned 32-bit number, or an instruction of
    which every part is a byte; the first line was a header, and some header
    named the segment [code].  So a label, a comment line, a blank line, a
    header without a base address and a part that is no byte each stop the
    script with an exception. *)
Theorem elf_accepts_headers_and_bytes (stdin : list string) (out : list Z) :
  Elf.main stdin = Elf.Done out ->
  Forall (fun l => exists ln, Subv.parse l = OK ln
            /\ match Subv.body ln with
               | Subv.PSegment _ (Some a) => a mod 4096 = 0 /\ 0 <= a < 2 ^ 32
               | Subv.PInstr parts => Forall is_byte parts
               | _ => False
               end) stdin
  /\ (exists l rest ln, stdin = l :: rest /\ Subv.parse l = OK ln
                        /\ Subv.type ln = Subv.segment)
  /\ (exists l ln a, In l stdin /\ Subv.parse l = OK ln
                     /\ Subv.body ln = Subv.PSegment "code" (Some a)).
Proof.
  unfold Elf.main. intros H.
  destruct (Elf.read [] stdin) as [segs|e] eqn:Hread; [|discriminate].
  destruct (Elf.emit segs) as [[c out']|e] eqn:Hemit; [|discriminate].
  destruct (emit_inv _ _ _ Hemit) as (Hload & code & Hcode & Hname).
  destruct (read_inv _ _ _ Hread) as (Hall & _ & Horigin & Hfirst).
  rewrite List.Forall_forall in Hload. split; [|split].
  - eapply List.Forall_impl; [|exact Hall]. cbv beta.
    intros l (ln & Hp & [(n & a & Hb & s' & Hin & _ & Ha)|(parts & Hb & s' & Hin & Hc)]);
      exists ln; (split; [assumption|]); rewrite Hb;
      destruct (Hload s' Hin) as (Hal & Hr & Hbytes).
    + rewrite <- Ha. now split.
    + rewrite List.Forall_forall in Hbytes. apply List.Forall_forall.
      intros p Hp'. apply Hbytes, Hc, Hp'.
  - destruct (Hfirst eq_refl) as [->|Hf]; [|assumption].
    simpl in Hread. injection Hread as <-. destruct Hcode.
  - destruct (Horigin code Hcode) as [(s & [] & _)|(l & ln & a & Hin & Hp & Hb)].
    rewrite Hname in Hb. eauto 6.
Qed.

Lemma elf_accepts_headers_and_bytes_witness :
  Forall (fun l => exists ln, Subv.parse l = OK ln
            /\ match Subv.body ln with
               | Subv.PSegment _ (Some a) => a mod 4096 = 0 /\ 0 <= a < 2 ^ 32
               | Subv.PInstr parts => Forall is_byte parts
               | _ => False
               end) ["== code 0x80000000"; "b7 02 01 10"].
Proof.
  refine (proj1 (elf_accepts_headers_and_bytes
                   ["== code 0x80000000"; "b7 02 01 10"]
                   ([127; 69; 76; 70; 1; 1; 1; 0; 0; 0; 0; 0; 0; 0; 0; 0; 2; 0; 243; 0;
                     1; 0; 0; 0; 0; 0; 0; 128; 52; 0; 0; 0; 0; 0; 0; 0; 4; 0; 0; 0; 52;
                     0; 32; 0; 1; 0; 40; 0; 0; 0; 0; 0; 1; 0; 0; 0; 0; 32; 0; 0; 0; 0; 0;
                     128; 0; 0; 0; 128; 4; 0; 0; 0; 4; 0; 0; 0; 5; 0; 0; 0; 0; 16; 0; 0]
                    ++ repeat 0 (Z.to_nat (8192 - 84)) ++ [183; 2; 1; 16])%list _)).
  vm_compute. reflexivity.
Defined.

(** ** From Pack to the ELF writer *)

Section PackToElf.
Import Subv.

Lemma format_02x_lower_hex n :
  0 <= n ->
  all_chars is_lower_hex (format_02x n) = true /\ nonempty (format_02x n) = true.
Proof.
  intros Hn. unfold format_02x. destruct (Z.ltb_spec n 0); [lia|].
  destruct (hex_of_N_digits (Z.to_N n)) as (_ & Hall & Hne). cbv zeta.
  destruct (String.length (hex_of_N (Z.to_N n)) <? 2)%nat; [|auto].
  change ("0" ++ hex_of_N (Z.to_N n)) with (String "0" (hex_of_N (Z.to_N n))).
  split; [|reflexivity]. cbn [all_chars]. now rewrite Hall.
Qed.

Lemma endswith_colon_hex s :
  all_chars is_hex_or_blank s = true -> endswith ":" s = false.
Proof.
  induction s as [|c s IH]; [reflexivity|].
  cbn [all_chars endswith]. intros H. apply andb_true_iff in H as [Hc Hs].
  rewrite (IH Hs), orb_false_r.
  cbn [String.eqb]. destruct (Ascii.eqb_spec c ":") as [->|]; [discriminate Hc|reflexivity].
Qed.

Lemma hex_line tokens :
  tokens <> [] ->
  Forall (fun t => all_chars is_lower_hex t = true /\ nonempty t = true) tokens ->
  (exists c r, join " " tokens = String c r /\ is_lower_hex c = true)
  /\ all_chars is_hex_or_blank (join " " tokens) = true
  /\ rstrip (join " " tokens) = join " " tokens.
Proof.
  assert (forall t, all_chars is_lower_hex t = true ->
                    all_chars is_hex_or_blank t = true) as Hweak.
  { intros t. apply all_chars_impl. intros c Hc. unfold is_hex_or_blank. now rewrite Hc. }
  induction tokens as [|t [|t2 tokens] IH]; intros Hne Hall; [contradiction| |].
  - apply List.Forall_cons_iff in Hall as [[Ht Hn] _]. cbn [join].
    split; [|split; [now apply Hweak|now apply rstrip_all_lower_hex]].
    destruct t as [|c r]; [discriminate|]. exists c, r. split; [reflexivity|].
    cbn [all_chars] in Ht. now apply andb_true_iff in Ht as [-> _].
  - apply List.Forall_cons_iff in Hall as [[Ht Hn] Hall].
    destruct (IH ltac:(discriminate) Hall) as ((c2 & r2 & Hs & _) & Hchars & Hstrip).
    change (join " " (t :: t2 :: tokens)) with (t ++ " " ++ join " " (t2 :: tokens)).
    split; [|split].
    + destruct t as [|c r]; [discriminate|]. eexists c, _. split; [reflexivity|].
      cbn [all_chars] in Ht. now apply andb_true_iff in Ht as [-> _].
    + rewrite !all_chars_app, (Hweak t Ht), Hchars. reflexivity.
    + rewrite <- append_assoc_string. apply rstrip_app_stable; [assumption|].
      now rewrite Hs.
Qed.

Lemma hex_line_instr s c r :
  s = String c r -> is_lower_hex c = true ->
  all_chars is_hex_or_blank s = true -> rstrip s = s ->
  strip s = s /\ classify s = instr.
Proof.
  intros -> Hc Hall Hstrip. split.
  - unfold strip. cbn [lstrip]. now rewrite (proj1 (lower_hex_char c Hc)).
  - unfold classify, startswith. rewrite (endswith_colon_hex _ Hall).
    change (String.eqb (String c r) "") with false. cbv iota.
    cbn [String.prefix]. destruct (ascii_dec "=" c) as [<-|]; [discriminate Hc|reflexivity].
Qed.

Lemma printable_bytes (bytes : list Z) :
  bytes <> [] -> Forall (fun b => 0 <= b) bytes ->
  printable_line (byte_part <$> bytes) = true.
Proof.
  intros Hne Hall. unfold printable_line, printed. rewrite format_byte_parts.
  assert (Forall (fun t => all_chars is_lower_hex t = true /\ nonempty t = true)
                 (format_02x <$> bytes)) as Htok.
  { apply Forall_fmap. eapply List.Forall_impl; [|exact Hall].
    intros b Hb. now apply format_02x_lower_hex. }
  destruct (hex_line (format_02x <$> bytes)) as ((c & r & Hs & Hc) & Hchars & Hstrip);
    [now destruct bytes|assumption|].
  destruct (hex_line_instr _ c r Hs Hc Hchars Hstrip) as [-> ->].
  rewrite String.eqb_refl. cbn [ltype_eqb]. rewrite !andb_true_r.
  clear - Hall. induction Hall as [|b bytes Hb _ IH]; [reflexivity|].
  cbn [fmap list_fmap forallb]. rewrite IH, andb_true_r.
  unfold printable_part, format_part. cbn [byte_part head tags fmap list_fmap forallb join].
  now destruct (format_02x_lower_hex b Hb) as [_ ->].
Qed.

Lemma parse_printed parts :
  printable_line parts = true ->
  parse (printed parts) = OK (Line (printed parts) (printed parts) None (PInstr parts)).
Proof.
  unfold printable_line. intros H.
  apply andb_true_iff in H as [H Hcls]. apply andb_true_iff in H as [Hparts Hstrip].
  apply String.eqb_eq in Hstrip.
  assert (classify (printed parts) = instr) as Hc by now destruct (classify (printed parts)).
  destruct (parse_format_parts parts Hparts) as [Hmap Htok].
  destruct (printed_no_hash parts Htok) as [Hnh _].
  unfold parse. rewrite Hstrip. destruct (split1_no_hash _ Hnh) as [-> _].
  rewrite Hc. unfold parse_instr, white_split.
  assert (format_part <$> parts <> []) as Hne.
  { destruct parts; [discriminate Hc|discriminate]. }
  destruct (white_split_join _ false Hne Htok) as [Hsplit _].
  unfold printed in *. rewrite Hsplit, Hmap. reflexivity.
Qed.

Lemma add_content_last segs seg parts :
  Elf.add_content (segs ++ [seg]) parts
  = Some (segs ++ [Elf.Segment (Elf.name seg) (Elf.addr seg)
                     (Elf.content seg ++ parts) (Elf.offset seg)])%list.
Proof.
  induction segs as [|s segs IH]; [reflexivity|].
  change ((s :: segs) ++ [seg])%list with (s :: (segs ++ [seg]))%list.
  destruct (segs ++ [seg])%list as [|s2 rest] eqn:E; [now destruct segs|].
  change (Elf.add_content (s :: s2 :: rest) parts)
    with (cons s <$> Elf.add_content (s2 :: rest) parts).
  rewrite IH. reflexivity.
Qed.

Lemma content_bytes_byte_parts (bytes : list Z) :
  content_bytes (byte_part <$> bytes) = bytes.
Proof.
  induction bytes as [|b bytes IH]; [reflexivity|].
  change (byte_part <$> b :: bytes) with (byte_part b :: (byte_part <$> bytes)).
  rewrite (content_bytes_cons (byte_part b) (byte_part <$> bytes) b eq_refl).
  f_equal. exact IH.
Qed.

End PackToElf.

(** X28.  What Pack yields is what the ELF writer reads.  A line of bytes
    printed as Pack prints them, two hex digits each and one space between
    them, is parsed back as an instruction whose parts are those bytes; the
    ELF writer adds them, in order, to the content of the segment whose
    header came last, and writes them as they are. *)
Theorem packed_line_is_elf_content
    (bytes : list Z) (segs : list Elf.segment) (seg : Elf.segment) :
  bytes <> [] -> Forall (fun b => 0 <= b < 256) bytes ->
  let l := join " " (format_02x <$> bytes) in
  Subv.parse l = OK (Subv.Line l l None (Subv.PInstr (byte_part <$> bytes)))
  /\ Elf.read_line (segs ++ [seg]) l
     = Elf.Done (segs ++ [Elf.Segment (Elf.name seg) (Elf.addr seg)
                            (Elf.content seg ++ (byte_part <$> bytes))
                            (Elf.offset seg)])%list
  /\ Forall is_byte (byte_part <$> bytes)
  /\ content_bytes (byte_part <$> bytes) = bytes.
Proof.
  intros Hne Hall. cbv zeta.
  assert (Subv.parse (join " " (format_02x <$> bytes))
          = OK (Subv.Line (join " " (format_02x <$> bytes))
                          (join " " (format_02x <$> bytes)) None
                          (Subv.PInstr (byte_part <$> bytes)))) as Hp.
  { rewrite <- format_byte_parts. apply parse_printed, printable_bytes; [assumption|].
    eapply List.Forall_impl; [|exact Hall]. cbv beta. intros b Hb. lia. }
  split; [exact Hp|]. split; [|split].
  - unfold Elf.read_line. rewrite Hp. cbn [Subv.body]. now rewrite add_content_last.
  - apply Forall_fmap. eapply List.Forall_impl; [|exact Hall].
    intros b Hb. exists b. split; [reflexivity|exact Hb].
  - apply content_bytes_byte_parts.
Qed.

Lemma packed_line_is_elf_content_witness :
  Subv.parse "13 03 80 04"
  = OK (Subv.Line "13 03 80 04" "13 03 80 04" None
          (Subv.PInstr (byte_part <$> [0x13; 0x03; 0x80; 0x04])))
  /\ Elf.read_line ([] ++ [Elf.Segment "code" 0x80000000 [] None]) "13 03 80 04"
     = Elf.Done ([] ++ [Elf.Segment "code" 0x80000000
                          ([] ++ (byte_part <$> [0x13; 0x03; 0x80; 0x04])) None])%list
  /\ Forall is_byte (byte_part <$> [0x13; 0x03; 0x80; 0x04])
  /\ content_bytes (byte_part <$> [0x13; 0x03; 0x80; 0x04]) = [0x13; 0x03; 0x80; 0x04].
Proof.
  apply (packed_line_is_elf_content [0x13; 0x03; 0x80; 0x04] []
           (Elf.Segment "code" 0x80000000 [] None)).
  - discriminate.
  - repeat (apply List.Forall_cons; [lia|]). apply List.Forall_nil.
Defined.

(** ** The tag of a symbolic immediate *)

(** The literal path and the reference path of [pack_u] on the same
    line: the literal [10/imm12] is refused for its tag, the reference
    [pos[11:0]/imm12] goes through, and the [lui] becomes three bytes. *)
Example narrow_lui :
  Format.format ["== code 0x80000000"; "pos:"; "37/lui 5/rd/t0 10/imm12"]
  = (["== code 0x80000000"; "pos:"], Some (ExpectedLabelled "imm20"))
  /\ Format.format ["== code 0x80000000"; "pos:"; "37/lui 5/rd/t0 pos[11:0]/imm12"]
     = (["== code 0x80000000"; "pos:"; "37/7 05/5 pos[11:0]/imm12"], None)
  /\ Survey.survey ["== code 0x80000000"; "pos:"; "37/7 05/5 pos[11:0]/imm12"]
     = (["== code 0x80000000"; "37/7 05/5 00/12"], None)
  /\ Pack.pack ["== code 0x80000000"; "37/7 05/5 00/12"]
     = (["== code 0x80000000"; "b7 02 00"], None).
Proof. repeat split; vm_compute; reflexivity. Qed.

(** C6 fails on the code, which documents that the first tag of every
    argument is verified.  For a literal immediate [pack_u] does verify it:
    any first tag but [imm20] is refused.  For a symbolic immediate the
    check is missing: a reference with an explicit slice [[h:l]] is accepted
    as soon as the slice agrees with the reference's own [immN]/[offN] tag,
    whatever the width, and is emitted as it is, so that the instruction is
    [12 + (h - l + 1)] bits wide and not 32. *)
Theorem u_type_skips_tag_check_on_references
    (op rd val o d : Subv.part) (r : Subv.reference) (h l : Z) :
  Format.untag_u op None 7 = OK o ->
  Format.untag_u rd (Some "rd") 5 = OK d ->
  Subv.parse_reference val = OK r ->
  Subv.bounds r = Some (h, l) ->
  Subv.size r = h - l + 1 ->
  let emitted :=
    Subv.Part (Subv.VStr (Format.render_ref (Subv.ref_label r) h l)) (Subv.tags val) in
  Format.pack_u [op; rd; val] = OK [o; d; emitted]
  /\ Survey.width_loop 0 [o; d; emitted] = OK (12 + (h - l + 1))
  /\ forall n t rest, t <> "imm20" ->
       Format.pack_u [op; rd; Subv.Part (Subv.VInt n) (Subv.VStr t :: rest)]
       = Err (ExpectedLabelled "imm20").
Proof.
  intros Ho Hd Hr Hb Hsz. cbv zeta. split; [|split].
  - unfold Format.pack_u. rewrite Ho, bind_OK, Hd, bind_OK.
    rewrite (parse_reference_is_reference _ _ Hr).
    rewrite (default_slice_explicit _ 31 12 _ _ _ Hr Hb), Hsz, Z.eqb_refl.
    reflexivity.
  - apply untag_u_ok in Ho as (n & _ & -> & _).
    apply untag_u_ok in Hd as (m & _ & -> & _).
    destruct (parse_reference_inv _ _ Hr)
      as (ref & field & ds & _ & Htags & Hf & Hds & Hlbl & _ & _ & Hbnd).
    destruct (Hbnd h l Hb) as [Hh Hl].
    cbn [Survey.width_loop Subv.is_reference Subv.head Subv.tags to_pair fst snd
         Subv.int]. rewrite !bind_OK, Htags.
    rewrite (parse_reference_rehead _ _ _ _ _ h l _ Hlbl Hf Hds Hh Hl).
    cbn [fmap result_fmap Subv.size]. rewrite !bind_OK, Hsz. f_equal; lia.
  - intros n t rest Ht. unfold Format.pack_u. rewrite Ho, bind_OK, Hd, bind_OK.
    cbn [Subv.is_reference Subv.head]. unfold Format.untag_i, Subv.untag.
    cbn [Subv.tags Subv.atom_eqb].
    destruct (String.eqb_spec t "imm20"); [contradiction|reflexivity].
Qed.

Lemma u_type_skips_tag_check_on_references_witness :
  Format.pack_u [Subv.Part (Subv.VInt 0x37) [Subv.VStr "lui"];
                 Subv.Part (Subv.VInt 5) [Subv.VStr "rd"; Subv.VStr "t0"];
                 Subv.Part (Subv.VStr "pos[11:0]") [Subv.VStr "imm12"]]
  = OK [to_pair (0x37, 7); to_pair (5, 5);
        Subv.Part (Subv.VStr "pos[11:0]") [Subv.VStr "imm12"]]
  /\ Survey.width_loop 0 [to_pair (0x37, 7); to_pair (5, 5);
                          Subv.Part (Subv.VStr "pos[11:0]") [Subv.VStr "imm12"]]
     = OK (12 + (11 - 0 + 1))
  /\ forall n t rest, t <> "imm20" ->
       Format.pack_u [Subv.Part (Subv.VInt 0x37) [Subv.VStr "lui"];
                      Subv.Part (Subv.VInt 5) [Subv.VStr "rd"; Subv.VStr "t0"];
                      Subv.Part (Subv.VInt n) (Subv.VStr t :: rest)]
       = Err (ExpectedLabelled "imm20").
Proof.
  apply (u_type_skips_tag_check_on_references
           (Subv.Part (Subv.VInt 0x37) [Subv.VStr "lui"])
           (Subv.Part (Subv.VInt 5) [Subv.VStr "rd"; Subv.VStr "t0"])
           (Subv.Part (Subv.VStr "pos[11:0]") [Subv.VStr "imm12"])
           (to_pair (0x37, 7)) (to_pair (5, 5))
           (Subv.Reference "pos" "imm" 12 [] (Some (11, 0))) 11 0);
    reflexivity.
Defined.
